(** * todoist-mcp: action-item extraction, due dates, priority and routing

    A shallow embedding of [utils/meetingNotes.ts], [utils/dateParser.ts]
    and [utils/router.ts].  JavaScript strings are sequences of UTF-16 code
    units; regular expressions are kept as syntax trees and run by a small
    backtracking matcher that follows the ECMAScript semantics of the
    constructs the sources use. *)

From Stdlib Require Import Ascii String.
From Stdlib Require Import List NArith ZArith Bool Lia.
Import ListNotations.

(** ** JavaScript strings *)

(** A string is the list of its UTF-16 code units. [length] is the [.length]
    property. *)
Definition jsstring := list N.

(** ASCII literals of the sources. *)
Definition lit (s : string) : jsstring :=
  map N_of_ascii (list_ascii_of_string s).

Definition LF : N := 10%N.
Definition CR : N := 13%N.
Definition BULLET : N := 8226%N.   (* U+2022 *)

Definition jsstring_eqb (a b : jsstring) : bool :=
  if list_eq_dec N.eq_dec a b then true else false.

(** ECMAScript WhiteSpace and LineTerminator code points: the set that
    [trim] strips and that [\s] matches. *)
Definition is_space (c : N) : bool :=
  ((9 <=? c) && (c <=? 13) || (c =? 32) || (c =? 160) || (c =? 5760)
   || (8192 <=? c) && (c <=? 8202) || (c =? 8232) || (c =? 8233)
   || (c =? 8239) || (c =? 8287) || (c =? 12288) || (c =? 65279))%N.

Definition is_digit (c : N) : bool := ((48 <=? c) && (c <=? 57))%N.

Definition is_upper (c : N) : bool := ((65 <=? c) && (c <=? 90))%N.
Definition is_lower (c : N) : bool := ((97 <=? c) && (c <=? 122))%N.

(** [\w]: ASCII letters, digits and underscore (no [u] flag). *)
Definition is_word (c : N) : bool :=
  is_upper c || is_lower c || is_digit c || (c =? 95)%N.

(** Canonicalize of a case-insensitive pattern without the [u] flag,
    restricted to what decides a comparison with an ASCII pattern character:
    a code unit outside ASCII is never mapped into ASCII. *)
Definition canonicalize (c : N) : N :=
  if is_lower c then (c - 32)%N else c.

Fixpoint dropWhile (p : N -> bool) (s : jsstring) : jsstring :=
  match s with
  | [] => []
  | c :: s' => if p c then dropWhile p s' else s
  end.

Definition trimStart (s : jsstring) : jsstring := dropWhile is_space s.
Definition trimEnd (s : jsstring) : jsstring := rev (dropWhile is_space (rev s)).
Definition trim (s : jsstring) : jsstring := trimEnd (trimStart s).

Fixpoint startsWith (s p : jsstring) {struct p} : bool :=
  match p, s with
  | [], _ => true
  | _ :: _, [] => false
  | x :: p', c :: s' => (c =? x)%N && startsWith s' p'
  end.

(** [s.includes(sub)] *)
Fixpoint includes (s sub : jsstring) : bool :=
  startsWith s sub ||
  match s with
  | [] => false
  | _ :: s' => includes s' sub
  end.

(** [s.slice(0, n)] and [s.slice(n)] for [0 <= n]. *)
Definition slice_to {A} (n : nat) (s : list A) : list A := firstn n s.
Definition slice_from {A} (n : nat) (s : list A) : list A := skipn n s.

(** ** Regular expressions *)

Inductive regex : Type :=
| Empty
| Class (p : N -> bool)
| Seq (a b : regex)
| Alt (a b : regex)
| Star (a : regex)
| Bol
| WordB.

Definition word_before (bef : jsstring) : bool :=
  match bef with c :: _ => is_word c | [] => false end.

(** One step of the matcher, as [Star] iterates it: [n] bounds the
    iterations left, each of which has to consume something. *)
Fixpoint star_iter {T}
         (step : jsstring -> jsstring ->
                 (jsstring -> jsstring -> option T) -> option T)
         (k : jsstring -> jsstring -> option T)
         (n : nat) (bef aft : jsstring) : option T :=
  match n with
  | O => k bef aft
  | S n' =>
      match step bef aft
              (fun bef' aft' =>
                 if length aft' <? length aft
                 then star_iter step k n' bef' aft' else None) with
      | Some x => Some x
      | None => k bef aft
      end
  end.

(** The matcher walks a position [(bef, aft)]: [bef] is the text before the
    position, most recent unit first, [aft] the text after it. Alternatives
    are tried left to right, [Star] is greedy and refuses an iteration that
    consumes nothing. *)
Fixpoint run {T} (r : regex) (bef aft : jsstring)
         (k : jsstring -> jsstring -> option T) : option T :=
  match r with
  | Empty => k bef aft
  | Class p =>
      match aft with
      | c :: aft' => if p c then k (c :: bef) aft' else None
      | [] => None
      end
  | Seq a b => run a bef aft (fun bef' aft' => run b bef' aft' k)
  | Alt a b =>
      match run a bef aft k with
      | Some x => Some x
      | None => run b bef aft k
      end
  | Star a => star_iter (run a) k (length aft) bef aft
  | Bol => match bef with [] => k bef aft | _ :: _ => None end
  | WordB =>
      if xorb (word_before bef) (word_before aft) then k bef aft else None
  end.

Definition Plus (a : regex) : regex := Seq a (Star a).
Definition Opt (a : regex) : regex := Alt a Empty.
Definition Chr (c : N) : regex := Class (N.eqb c).
Definition OneOf (cs : list N) : regex :=
  Class (fun c => existsb (N.eqb c) cs).
(** A pattern character under the [i] flag. *)
Definition ChrI (c : N) : regex :=
  Class (fun x => (canonicalize x =? canonicalize c)%N).

Fixpoint Str (s : jsstring) : regex :=
  match s with
  | [] => Empty
  | c :: s' => Seq (Chr c) (Str s')
  end.

Fixpoint StrI (s : jsstring) : regex :=
  match s with
  | [] => Empty
  | c :: s' => Seq (ChrI c) (StrI s')
  end.

Fixpoint AltList (rs : list regex) : regex :=
  match rs with
  | [] => Class (fun _ => false)
  | [r] => r
  | r :: rs' => Alt r (AltList rs')
  end.

(** The match found by [exec] without the [g] or [y] flag: the leftmost
    start at which the pattern matches, as (text before, matched text, text
    after). *)
Fixpoint search (r : regex) (bef aft : jsstring)
  : option (jsstring * jsstring * jsstring) :=
  match run r bef aft (fun b a => Some (b, a)) with
  | Some (b, a) =>
      Some (rev bef, rev (firstn (length b - length bef) b), a)
  | None =>
      match aft with
      | [] => None
      | c :: aft' => search r (c :: bef) aft'
      end
  end.

Definition exec (r : regex) (s : jsstring) := search r [] s.

Definition test (r : regex) (s : jsstring) : bool :=
  match exec r s with Some _ => true | None => false end.

(** [s.replace(r, repl)] for a pattern without the [g] flag and a
    replacement free of [$]. *)
Definition replace (r : regex) (s repl : jsstring) : jsstring :=
  match exec r s with
  | Some (pre, _, post) => pre ++ repl ++ post
  | None => s
  end.

(** [s.split(r)] for a pattern without capture groups. [skip] counts the
    units of a separator still to be passed over, [cur] holds the piece
    being built, most recent unit first. *)
Fixpoint split_go (r : regex) (skip : nat) (cur bef aft : jsstring)
  : list jsstring :=
  match aft with
  | [] => [rev cur]
  | c :: aft' =>
      match skip with
      | S n => split_go r n [] (c :: bef) aft'
      | O =>
          match run r bef aft (fun _ a => Some (length a)) with
          | None => split_go r 0 (c :: cur) (c :: bef) aft'
          | Some la =>
              if la =? length aft + length cur
              then split_go r 0 (c :: cur) (c :: bef) aft'
              else if la =? length aft
                   then rev cur :: split_go r 0 [c] (c :: bef) aft'
                   else rev cur ::
                        split_go r (length aft - la - 1) [] (c :: bef) aft'
          end
      end
  end.

Definition split (r : regex) (s : jsstring) : list jsstring :=
  match s with
  | [] =>
      match run r [] [] (fun _ _ => Some tt) with
      | Some _ => []
      | None => [[]]
      end
  | _ :: _ => split_go r 0 [] [] s
  end.

(** ** JavaScript values, numbers and dates *)

(** The values a caller can hand to a function typed [string]. *)
Inductive JsValue : Type :=
| JsUndefined
| JsNull
| JsBoolean (b : bool)
| JsNumber (z : Z)   (* an integral number; the guards treat all alike *)
| JsString (s : jsstring)
| JsObject.

(** ToBoolean *)
Definition truthy (v : JsValue) : bool :=
  match v with
  | JsUndefined | JsNull => false
  | JsBoolean b => b
  | JsNumber z => negb (z =? 0)%Z
  | JsString s => match s with [] => false | _ :: _ => true end
  | JsObject => true
  end.

Definition typeof_is_string (v : JsValue) : bool :=
  match v with JsString _ => true | _ => false end.

Fixpoint uint_digits (u : Decimal.uint) : jsstring :=
  match u with
  | Decimal.Nil => []
  | Decimal.D0 u' => 48%N :: uint_digits u'
  | Decimal.D1 u' => 49%N :: uint_digits u'
  | Decimal.D2 u' => 50%N :: uint_digits u'
  | Decimal.D3 u' => 51%N :: uint_digits u'
  | Decimal.D4 u' => 52%N :: uint_digits u'
  | Decimal.D5 u' => 53%N :: uint_digits u'
  | Decimal.D6 u' => 54%N :: uint_digits u'
  | Decimal.D7 u' => 55%N :: uint_digits u'
  | Decimal.D8 u' => 56%N :: uint_digits u'
  | Decimal.D9 u' => 57%N :: uint_digits u'
  end.

(** [String(z)] for an integral number. *)
Definition Number_toString (z : Z) : jsstring :=
  match Z.to_int z with
  | Decimal.Pos u => uint_digits u
  | Decimal.Neg u => 45%N :: uint_digits u
  end.

Fixpoint cycle (n : nat) (pad cur : jsstring) : jsstring :=
  match n with
  | O => []
  | S n' =>
      match cur with
      | c :: cur' => c :: cycle n' pad cur'
      | [] =>
          match pad with
          | c :: cur' => c :: cycle n' pad cur'
          | [] => []
          end
      end
  end.

(** [s.padStart(target, pad)] *)
Definition padStart (target : nat) (pad s : jsstring) : jsstring :=
  cycle (target - length s) pad pad ++ s.

(** A [Date], seen through its local-time getters. *)
Record Date : Type := {
  getFullYear : Z;
  getMonth : Z;
  getDate : Z;
  getHours : Z;
  getMinutes : Z;
  getSeconds : Z;
  getMilliseconds : Z
}.

(** ** utils/dateParser.ts *)

(** Format a Date as YYYY-MM-DD. *)
Definition toDateString (d : Date) : jsstring :=
  let y := getFullYear d in
  let m := padStart 2 (lit "0") (Number_toString (getMonth d + 1)) in
  let day := padStart 2 (lit "0") (Number_toString (getDate d)) in
  Number_toString y ++ lit "-" ++ m ++ lit "-" ++ day.

(** [/eod|end of day|e\.o\.d/i] *)
Definition eod_alternatives : list jsstring :=
  [lit "eod"; lit "end of day"; lit "e.o.d"].

Definition EOD_PATTERN : regex := AltList (map StrI eod_alternatives).

Section DateParser.

(** [chrono.parse(text, ref, { forwardDate: true })], each result taken
    through its [date()]: the parsing library is outside the repository. *)
Variable chrono_parse : jsstring -> Date -> list Date.

(** [new Date()]: the instant read at the [n]-th reading of the clock. *)
Variable clock : nat -> Date.

(** The state threaded through is the number of clock readings made. *)
Definition parseDueDate (text : jsstring) (t : nat) : option jsstring * nat :=
  if negb (truthy (JsString text)) || negb (typeof_is_string (JsString text))
  then (None, t)
  else
    let trimmed := trim text in
    if negb (truthy (JsString trimmed)) then (None, t)
    else
      let ref := clock t in
      let results := chrono_parse trimmed ref in
      match results with
      | [] =>
          if test EOD_PATTERN trimmed
          then (Some (toDateString ref), S t)
          else (None, S t)
      | first :: _ => (Some (toDateString first), S t)
      end.

End DateParser.

(** ** utils/meetingNotes.ts *)

Record ExtractedActionItem : Type := {
  content : jsstring;
  description : jsstring;
  dueDate : option jsstring;
  priority : Z;
  subtasks : list jsstring
}.

Definition urgent_words : list jsstring :=
  [lit "urgent"; lit "asap"; lit "as soon as possible"; lit "blocker";
   lit "critical"; lit "priority 1"; lit "p1"].

Definition important_words : list jsstring :=
  [lit "important"; lit "soon"; lit "priority 2"; lit "p2"].

Definition URGENT_PATTERN : regex :=
  Seq WordB (Seq (AltList (map StrI urgent_words)) WordB).

Definition IMPORTANT_PATTERN : regex :=
  Seq WordB (Seq (AltList (map StrI important_words)) WordB).

Definition inferPriority (line : jsstring) : Z :=
  if test URGENT_PATTERN line then 1%Z
  else if test IMPORTANT_PATTERN line then 2%Z
  else 4%Z.

Definition ws : regex := Class is_space.
Definition digit : regex := Class is_digit.
Definition bullet_mark : regex := OneOf [45%N; 42%N; BULLET].
Definition dot_or_paren : regex := OneOf [46%N; 41%N].

(** [/\r?\n/] *)
Definition re_newline : regex := Seq (Opt (Chr CR)) (Chr LF).
(** [/^[-*•]\s*/] *)
Definition re_bullet0 : regex := Seq Bol (Seq bullet_mark (Star ws)).
(** [/^\d+[.)]\s*/] *)
Definition re_number0 : regex :=
  Seq Bol (Seq (Plus digit) (Seq dot_or_paren (Star ws))).
(** [/^[-*•]\s+/] *)
Definition re_bullet1 : regex := Seq Bol (Seq bullet_mark (Plus ws)).
(** [/^\d+[.)]\s+/] *)
Definition re_number1 : regex :=
  Seq Bol (Seq (Plus digit) (Seq dot_or_paren (Plus ws))).

Definition action_labels : list jsstring :=
  [lit "action"; lit "todo"; lit "follow-up"; lit "follow up";
   lit "next step"; lit "deliverable"].

(** [/^(action|todo|follow-up|follow up|next step|deliverable):\s*/i] *)
Definition re_actionPrefix : regex :=
  Seq Bol (Seq (AltList (map StrI action_labels))
               (Seq (ChrI 58%N) (Star ws))).

(** [[\sx]] under the [i] flag *)
Definition space_or_x : regex :=
  Class (fun c => is_space c || (canonicalize c =? canonicalize 120)%N).
(** [/^\[[\sx]\]\s+/i] *)
Definition re_bracket1 : regex :=
  Seq Bol (Seq (ChrI 91%N) (Seq space_or_x (Seq (ChrI 93%N) (Plus ws)))).
(** [/^\[[\sx]\]\s*/i] *)
Definition re_bracket0 : regex :=
  Seq Bol (Seq (ChrI 91%N) (Seq space_or_x (Seq (ChrI 93%N) (Star ws)))).
(** [/^\s+/] *)
Definition re_indent : regex := Seq Bol (Plus ws).
(** [/^#|\*\*/] *)
Definition re_hash_or_stars : regex :=
  Alt (Seq Bol (Chr 35%N)) (Seq (Chr 42%N) (Chr 42%N)).
(** [/^#{1,3}\s/] *)
Definition re_heading : regex :=
  Seq Bol (Seq (Chr 35%N)
               (Seq (Opt (Seq (Chr 35%N) (Opt (Chr 35%N)))) ws)).

(** How a call ends: with a value, with an exception, or not within the
    steps granted to its loops. *)
Inductive outcome (A : Type) : Type :=
| Returned (a : A)
| Thrown
| Diverged.
Arguments Returned {A} a.
Arguments Thrown {A}.
Arguments Diverged {A}.

(** [text.split(/\r?\n/).map((l) => l.trim()).filter(Boolean)] *)
Definition split_lines (text : jsstring) : list jsstring :=
  filter (fun l => truthy (JsString l)) (map trim (split re_newline text)).

(** [line.replace(/^[-*•]\s*/, "").replace(/^\d+[.)]\s*/, "")] *)
Definition strip_markers (line : jsstring) : jsstring :=
  replace re_number0 (replace re_bullet0 line []) [].

Definition is_bullet (line : jsstring) : bool :=
  test re_bullet1 line || test re_number1 line.

Definition matched_length (m : option (jsstring * jsstring * jsstring)) : nat :=
  match m with
  | Some (_, m0, _) => length m0
  | None => 0
  end.

Definition isAction (line : jsstring) : bool :=
  let restOfLine := strip_markers line in
  let actionPrefix := exec re_actionPrefix restOfLine in
  let bullet := is_bullet line in
  let bracket := test re_bracket1 line in
  (match actionPrefix with
   | Some _ => 0 <? matched_length actionPrefix
   | None => false
   end)
  || bullet || bracket || (test re_bullet0 line && (3 <? length line)).

(** The text left of an opening line once marker, label and checkbox are
    stripped. *)
Definition action_content (line : jsstring) : jsstring :=
  let restOfLine := strip_markers line in
  let actionPrefix := exec re_actionPrefix restOfLine in
  let content := restOfLine in
  let content :=
    match actionPrefix with
    | Some _ => trim (slice_from (matched_length actionPrefix) content)
    | None => content
    end in
  trim (replace re_bracket0 content []).

(** The inner loop: collect continuation lines from index [i] on. The
    result is the index reached with the subtasks and description built. *)
Fixpoint collect (fuel : nat) (lines : list jsstring) (i : nat)
         (subtasks : list jsstring) (description : jsstring)
  : outcome (nat * list jsstring * jsstring) :=
  match fuel with
  | O => Diverged
  | S fuel' =>
      if i <? length lines then
        match nth_error lines i with
        | None => Thrown
        | Some next =>
            let nextTrim := replace re_indent next [] in
            let nextBullet := is_bullet nextTrim in
            let nextIndent :=
              (0 <? Z.of_nat (length next) - Z.of_nat (length nextTrim))%Z in
            if nextBullet && nextIndent then
              collect fuel' lines (i + 1)
                (subtasks ++ [trim (strip_markers nextTrim)])
                (description ++ [LF] ++ next)
            else if nextIndent && (0 <? length nextTrim)
                    && negb (test re_hash_or_stars nextTrim) then
              collect fuel' lines (i + 1)
                (subtasks ++ [nextTrim])
                (description ++ [LF] ++ next)
            else if jsstring_eqb next [] || test re_heading next then
              Returned (i, subtasks, description)
            else
              Returned (i, subtasks, description)
        end
      else Returned (i, subtasks, description)
  end.

Section Extractor.

Variable chrono_parse : jsstring -> Date -> list Date.
Variable clock : nat -> Date.

(** [parseDueDate(content) ?? parseDueDate(line) ?? null] *)
Definition resolve_dueDate (content line : jsstring) (t : nat)
  : option jsstring * nat :=
  match parseDueDate chrono_parse clock content t with
  | (Some d, t1) => (Some d, t1)
  | (None, t1) =>
      match parseDueDate chrono_parse clock line t1 with
      | (Some d, t2) => (Some d, t2)
      | (None, t2) => (None, t2)
      end
  end.

(** The outer loop of [extractActionItems], from index [i] with the items
    pushed so far and [t] clock readings made. *)
Fixpoint scan (fuel : nat) (lines : list jsstring) (i : nat)
         (items : list ExtractedActionItem) (t : nat)
  : outcome (list ExtractedActionItem * nat) :=
  match fuel with
  | O => Diverged
  | S fuel' =>
      if i <? length lines then
        match nth_error lines i with
        | None => Thrown
        | Some line =>
            if isAction line then
              let content := action_content line in
              if length content <? 2 then
                scan fuel' lines (i + 1) items t
              else
                let '(dueDate, t') := resolve_dueDate content line t in
                let priority := inferPriority line in
                match collect (S (length lines)) lines (i + 1) [] line with
                | Returned (i', subtasks, description) =>
                    scan fuel' lines i'
                      (items ++
                       [{| content := slice_to 500 content;
                           description := slice_to 2000 description;
                           dueDate := dueDate;
                           priority := priority;
                           subtasks := slice_to 20 subtasks |}])
                      t'
                | Thrown => Thrown
                | Diverged => Diverged
                end
            else scan fuel' lines (i + 1) items t
        end
      else Returned (items, t)
  end.

(** A value that passes the guard and is no string would make
    [text.split] throw. *)
Definition extractActionItems (text : JsValue) (t : nat)
  : outcome (list ExtractedActionItem * nat) :=
  if negb (truthy text) || negb (typeof_is_string text)
  then Returned ([], t)
  else
    match text with
    | JsString s =>
        let lines := split_lines s in
        scan (S (length lines)) lines 0 [] t
    | _ => Thrown
    end.

End Extractor.

(** ** utils/router.ts *)

Record TodoistSection : Type := {
  section_id : jsstring;
  section_name : jsstring;
  section_projectId : jsstring;
  section_order : Z
}.

(** [TodoistProject & { sections: TodoistSection[] }]; the optional fields
    of a project play no part in routing. *)
Record ProjectWithSections : Type := {
  project_id : jsstring;
  project_name : jsstring;
  sections : list TodoistSection
}.

Record RouteResult : Type := {
  projectId : jsstring;
  sectionId : option jsstring
}.

(** The running best candidate of [routeTask]. *)
Record Candidate : Type := {
  best_projectId : jsstring;
  best_sectionId : option jsstring;
  best_score : nat
}.

(** [/\s+/] *)
Definition re_spaces : regex := Plus ws.

(** A [string | null] as a value: what [section ? 2 : 0] and
    [sectionId ? 1 : 0] test. The empty string is falsy, as [null] is. *)
Definition nullable (v : option jsstring) : JsValue :=
  match v with
  | Some s => JsString s
  | None => JsNull
  end.

(** Common patterns: map keywords to project name substrings. *)
Definition patternProject : list (list jsstring * jsstring) :=
  [ ([lit "review"; lit "pr"; lit "merge"; lit "code"; lit "dev";
      lit "engineering"; lit "sprint"], lit "eng");
    ([lit "review"; lit "pr"; lit "merge"; lit "code"; lit "dev"], lit "dev");
    ([lit "invoice"; lit "payment"; lit "budget"; lit "finance";
      lit "expense"], lit "finan");
    ([lit "follow up"; lit "follow-up"; lit "contact"; lit "crm";
      lit "client"; lit "customer"], lit "crm");
    ([lit "follow up"; lit "follow-up"; lit "contact"; lit "client"],
     lit "work") ].

Section Router.

(** [String.prototype.toLowerCase] of the runtime. *)
Variable toLowerCase : jsstring -> jsstring.

Fixpoint matchSection (normalizedContent : jsstring) (words : list jsstring)
         (sects : list TodoistSection) : option jsstring :=
  match sects with
  | [] => None
  | section :: rest =>
      let nameNorm := toLowerCase (section_name section) in
      if includes normalizedContent nameNorm then Some (section_id section)
      else if existsb (fun w => (2 <=? length w) && includes nameNorm w) words
           then Some (section_id section)
           else matchSection normalizedContent words rest
  end.

Definition normalize (taskContent : jsstring) : jsstring :=
  trim (toLowerCase taskContent).

Definition tokenize (normalizedContent : jsstring) : list jsstring :=
  filter (fun w => 1 <? length w) (split re_spaces normalizedContent).

(** 1. If user provided a hint (project name), match it first. *)
Definition hint_matches (hintNorm : jsstring) (p : ProjectWithSections) : bool :=
  includes (toLowerCase (project_name p)) hintNorm
  || includes hintNorm (toLowerCase (project_name p)).

Definition initial_best : Candidate :=
  {| best_projectId := []; best_sectionId := None; best_score := 0 |}.

(** 2. Keyword matching: one turn of the loop over the projects. *)
Definition keyword_step (normalizedContent : jsstring) (words : list jsstring)
           (best : Candidate) (project : ProjectWithSections) : Candidate :=
  let projectNameNorm := toLowerCase (project_name project) in
  let score :=
    fold_left
      (fun score word =>
         if includes projectNameNorm word
            || (3 <=? length word) && includes projectNameNorm word
         then score + 1 else score)
      words 0 in
  let section := matchSection normalizedContent words (sections project) in
  let sectionBonus := if truthy (nullable section) then 2 else 0 in
  let total := score + sectionBonus in
  if best_score best <? total then
    {| best_projectId := project_id project;
       best_sectionId := section;
       best_score := total |}
  else best.

(** 3. One turn of the loop over [patternProject]. *)
Definition pattern_step (normalizedContent : jsstring) (words : list jsstring)
           (projects : list ProjectWithSections)
           (best : Candidate) (rule : list jsstring * jsstring) : Candidate :=
  let '(keywords, projectSubstr) := rule in
  let contentHas := existsb (fun k => includes normalizedContent k) keywords in
  if negb contentHas then best
  else
    match find (fun p => includes (toLowerCase (project_name p)) projectSubstr)
               projects with
    | Some project =>
        let sectionId :=
          matchSection normalizedContent words (sections project) in
        let score := 2 + (if truthy (nullable sectionId) then 1 else 0) in
        if best_score best <? score then
          {| best_projectId := project_id project;
             best_sectionId := sectionId;
             best_score := score |}
        else best
    | None => best
    end.

Definition keyword_stage (normalizedContent : jsstring) (words : list jsstring)
           (projects : list ProjectWithSections) : Candidate :=
  fold_left (keyword_step normalizedContent words) projects initial_best.

Definition pattern_stage (normalizedContent : jsstring) (words : list jsstring)
           (projects : list ProjectWithSections) (best : Candidate) : Candidate :=
  fold_left (pattern_step normalizedContent words projects) patternProject best.

(** 4. Fall back to Inbox, else to the first project, else to nothing. *)
Definition fallback (projects : list ProjectWithSections) : RouteResult :=
  let inbox :=
    find (fun p => jsstring_eqb (toLowerCase (project_name p)) (lit "inbox")
                   || includes (toLowerCase (project_name p)) (lit "inbox"))
         projects in
  match inbox with
  | Some inbox => {| projectId := project_id inbox; sectionId := None |}
  | None =>
      match projects with
      | first :: _ => {| projectId := project_id first; sectionId := None |}
      | [] => {| projectId := []; sectionId := None |}
      end
  end.

(** What follows the hint step of [routeTask]. *)
Definition route_unhinted (normalizedContent : jsstring) (words : list jsstring)
           (projects : list ProjectWithSections) : RouteResult :=
  let best :=
    pattern_stage normalizedContent words projects
      (keyword_stage normalizedContent words projects) in
  if truthy (JsString (best_projectId best)) then
    {| projectId := best_projectId best; sectionId := best_sectionId best |}
  else fallback projects.

(** [hint && hint.trim()], then [projects.find] on the normalized hint. *)
Definition find_byHint (projects : list ProjectWithSections)
           (hint : option jsstring) : option ProjectWithSections :=
  match hint with
  | Some h =>
      if truthy (JsString h) && truthy (JsString (trim h)) then
        let hintNorm := toLowerCase (trim h) in
        find (hint_matches hintNorm) projects
      else None
  | None => None
  end.

Definition routeTask (taskContent : jsstring)
           (projects : list ProjectWithSections) (hint : option jsstring)
  : RouteResult :=
  let normalizedContent := normalize taskContent in
  let words := tokenize normalizedContent in
  match find_byHint projects hint with
  | Some byHint =>
      let sectionId :=
        matchSection normalizedContent words (sections byHint) in
      {| projectId := project_id byHint; sectionId := sectionId |}
  | None => route_unhinted normalizedContent words projects
  end.

End Router.

(** [toLowerCase] on strings of ASCII code units. *)
Definition ascii_toLowerCase (s : jsstring) : jsstring :=
  map (fun c => if is_upper c then (c + 32)%N else c) s.

(** ** The meaning of the patterns *)

(** [matches r bef aft bef' aft']: from position [(bef, aft)] the pattern
    [r] can match up to position [(bef', aft')]. *)
Inductive matches : regex -> jsstring -> jsstring -> jsstring -> jsstring -> Prop :=
| M_Empty : forall b a, matches Empty b a b a
| M_Class : forall p c b a, p c = true -> matches (Class p) b (c :: a) (c :: b) a
| M_Seq : forall r1 r2 b a b1 a1 b2 a2,
    matches r1 b a b1 a1 -> matches r2 b1 a1 b2 a2 ->
    matches (Seq r1 r2) b a b2 a2
| M_AltL : forall r1 r2 b a b' a',
    matches r1 b a b' a' -> matches (Alt r1 r2) b a b' a'
| M_AltR : forall r1 r2 b a b' a',
    matches r2 b a b' a' -> matches (Alt r1 r2) b a b' a'
| M_StarStop : forall r b a, matches (Star r) b a b a
| M_StarStep : forall r b a b1 a1 b2 a2,
    matches r b a b1 a1 -> length a1 < length a ->
    matches (Star r) b1 a1 b2 a2 ->
    matches (Star r) b a b2 a2
| M_Bol : forall a, matches Bol [] a [] a
| M_WordB : forall b a,
    xorb (word_before b) (word_before a) = true -> matches WordB b a b a.

(** Equal up to the case of ASCII letters. *)
Definition same_letters (m w : jsstring) : Prop :=
  map canonicalize m = map canonicalize w.

(** [text] contains [w], whatever the case of its letters. *)
Definition contains_ci (text w : jsstring) : Prop :=
  exists pre m post, text = pre ++ m ++ post /\ same_letters m w.

(** [\b] between the texts [before] and [after]. *)
Definition word_boundary (before after : jsstring) : Prop :=
  xorb (word_before (rev before)) (word_before after) = true.

(** [line] contains [w] as a whole word or phrase, whatever the case. *)
Definition contains_word (line w : jsstring) : Prop :=
  exists pre m post,
    line = pre ++ m ++ post /\ same_letters m w /\
    word_boundary pre (m ++ post) /\ word_boundary (pre ++ m) post.

(** ** The extractor, line by line *)

(** A line that does not start with a space. *)
Definition no_indent (line : jsstring) : Prop :=
  match line with
  | [] => True
  | c :: _ => is_space c = false
  end.

Section ExtractorView.

Variable chrono_parse : jsstring -> Date -> list Date.
Variable clock : nat -> Date.

(** The item an opening line gives when no continuation line follows. *)
Definition open_item (line : jsstring) (t : nat)
  : option ExtractedActionItem * nat :=
  if isAction line then
    let content := action_content line in
    if length content <? 2 then (None, t)
    else
      let '(dueDate, t') := resolve_dueDate chrono_parse clock content line t in
      (Some {| content := slice_to 500 content;
               description := slice_to 2000 line;
               dueDate := dueDate;
               priority := inferPriority line;
               subtasks := slice_to 20 [] |}, t')
  else (None, t).

Fixpoint emit (lines : list jsstring) (t : nat)
  : list ExtractedActionItem * nat :=
  match lines with
  | [] => ([], t)
  | line :: rest =>
      let '(o, t1) := open_item line t in
      let '(items, t2) := emit rest t1 in
      (match o with Some it => it :: items | None => items end, t2)
  end.

End ExtractorView.

(** An item without its due date. *)
Definition undated (it : ExtractedActionItem)
  : jsstring * jsstring * Z * list jsstring :=
  (content it, description it, priority it, subtasks it).

(** The due-date-free part of what [emit] produces. *)
Definition open_undated (line : jsstring)
  : option (jsstring * jsstring * Z * list jsstring) :=
  if isAction line then
    let content := action_content line in
    if length content <? 2 then None
    else Some (slice_to 500 content, slice_to 2000 line,
               inferPriority line, slice_to 20 [])
  else None.

Fixpoint emit_undated (lines : list jsstring)
  : list (jsstring * jsstring * Z * list jsstring) :=
  match lines with
  | [] => []
  | line :: rest =>
      match open_undated line with
      | Some x => x :: emit_undated rest
      | None => emit_undated rest
      end
  end.

(** The bounds every emitted item has to meet. *)
Definition within_bounds (it : ExtractedActionItem) : Prop :=
  trim (content it) <> []
  /\ 2 <= length (content it) <= 500
  /\ length (description it) <= 2000
  /\ length (subtasks it) <= 20.

(** The item comes from a scanned line whose stripped content has at least
    two characters. *)
Definition from_line (lines : list jsstring) (it : ExtractedActionItem) : Prop :=
  exists line,
    In line lines /\ isAction line = true
    /\ 2 <= length (action_content line)
    /\ content it = slice_to 500 (action_content line).

(** An input from which nothing can be extracted: no string, the empty
    string, or a text none of whose lines opens an action item. *)
Definition no_action_marker (input : JsValue) : Prop :=
  match input with
  | JsString s => s = [] \/ Forall (fun l => isAction l = false) (split_lines s)
  | _ => True
  end.

(** Example inputs. *)
Definition review_notes : jsstring :=
  lit "1. Review PR #42" ++ [LF] ++ lit "   - check tests" ++ [LF]
  ++ lit "   - check docs".

Definition no_chrono_match : jsstring -> Date -> list Date := fun _ _ => [].

Definition at_day (y m d h : Z) : Date :=
  {| getFullYear := y; getMonth := m; getDate := d;
     getHours := h; getMinutes := 0; getSeconds := 0; getMilliseconds := 0 |}.

(** A clock read shortly before midnight of 2024-06-03 and after it. *)
Definition midnight_clock (n : nat) : Date :=
  match n with
  | O => at_day 2024 5 3 23
  | S _ => at_day 2024 5 4 0
  end.

(** From readings [t1] and [t2] on, the two clocks show the same. *)
Definition agree (clock1 clock2 : nat -> Date) (t1 t2 : nat) : Prop :=
  forall n, clock1 (t1 + n) = clock2 (t2 + n).

(** A note due at the end of the day. *)
Definition eod_note : jsstring := lit "- wrap up by EOD".

(** The end-of-day markers as the specification lists them. *)
Definition claimed_eod_markers : list jsstring :=
  [lit "eod"; lit "end of day"; lit "e.o.d."].

(** The text names one of the words of [ws], whatever the case. *)
Definition mentions (ws : list jsstring) (text : jsstring) : Prop :=
  exists w, In w ws /\ contains_ci text w.

(** The line holds one of the words of [ws] as a whole word. *)
Definition has_word (ws : list jsstring) (line : jsstring) : Prop :=
  exists w, In w ws /\ contains_word line w.

(** No text equal to [w] up to case starts or ends with a space. *)
Definition solid (w : jsstring) : Prop :=
  forall m, same_letters m w ->
    (exists x m', m = x :: m' /\ is_space x = false)
    /\ (exists m' y, m = m' ++ [y] /\ is_space y = false).

(** ** The router, in words *)

(** [sub] occurs in [s]. *)
Definition contains (s sub : jsstring) : Prop :=
  exists pre post, s = pre ++ sub ++ post.

(** [x] is the first element of [l] with the property [P]. *)
Definition first_such {A} (P : A -> Prop) (l : list A) (x : A) : Prop :=
  exists l1 l2, l = l1 ++ x :: l2 /\ P x /\ forall y, In y l1 -> ~ P y.

Section RouterWords.

Variable toLowerCase : jsstring -> jsstring.

(** The hint contains the name or the name contains the hint, both
    lowercased and the hint trimmed. *)
Definition name_matches_hint (hint : jsstring) (p : ProjectWithSections)
  : Prop :=
  contains (toLowerCase (project_name p)) (toLowerCase (trim hint))
  \/ contains (toLowerCase (trim hint)) (toLowerCase (project_name p)).

(** The lowercased name of the section occurs in the content, or a token
    of two characters or more occurs in that name. *)
Definition section_matches (normalizedContent : jsstring)
           (words : list jsstring) (sec : TodoistSection) : Prop :=
  contains normalizedContent (toLowerCase (section_name sec))
  \/ exists w, In w words /\ 2 <= length w
               /\ contains (toLowerCase (section_name sec)) w.

Definition named_inbox (p : ProjectWithSections) : Prop :=
  toLowerCase (project_name p) = lit "inbox"
  \/ contains (toLowerCase (project_name p)) (lit "inbox").

Definition name_contains (target : jsstring) (p : ProjectWithSections)
  : Prop :=
  contains (toLowerCase (project_name p)) target.

End RouterWords.

(** A keyword of the rule occurs in the content. *)
Definition rule_fires (normalizedContent : jsstring) (keywords : list jsstring)
  : Prop :=
  exists k, In k keywords /\ contains normalizedContent k.

(** Example buckets. *)
Definition code_review : TodoistSection :=
  {| section_id := lit "s-review"; section_name := lit "Code Review";
     section_projectId := lit "p-eng"; section_order := 1 |}.
Definition engineering : ProjectWithSections :=
  {| project_id := lit "p-eng"; project_name := lit "Engineering";
     sections := [code_review] |}.
Definition finance : ProjectWithSections :=
  {| project_id := lit "p-fin"; project_name := lit "Finance";
     sections := [] |}.
Definition inbox : ProjectWithSections :=
  {| project_id := lit "p-inbox"; project_name := lit "Inbox";
     sections := [] |}.

(** A candidate is the initial one or names a project of the list together
    with nothing or one of that project's sections. *)
Definition candidate_ok (projects : list ProjectWithSections) (c : Candidate)
  : Prop :=
  c = {| best_projectId := []; best_sectionId := None; best_score := 0 |}
  \/ exists p,
       In p projects /\ project_id p = best_projectId c
       /\ forall sid, best_sectionId c = Some sid ->
                      exists sec, In sec (sections p) /\ section_id sec = sid.

(** A result names a project of the list, if any, and a section of that
    very project, if any. *)
Definition result_ok (projects : list ProjectWithSections) (r : RouteResult)
  : Prop :=
  (projectId r <> [] ->
   exists p, In p projects /\ project_id p = projectId r)
  /\ (forall sid, sectionId r = Some sid ->
                  exists p sec,
                    In p projects /\ project_id p = projectId r
                    /\ In sec (sections p) /\ section_id sec = sid).

(** Case analysis on the comparisons of code units in the goal. *)
Ltac decide_comparisons :=
  repeat match goal with
         | |- context [(?a <=? ?b)%N] => destruct (N.leb_spec a b); try lia
         | |- context [(?a =? ?b)%N] => destruct (N.eqb_spec a b); try lia
         | H : context [(?a <=? ?b)%N] |- _ =>
             destruct (N.leb_spec a b); try lia
         | H : context [(?a =? ?b)%N] |- _ =>
             destruct (N.eqb_spec a b); try lia
         end.

(** ** The keyword stage, in words *)

Section RouterScores.

Variable toLowerCase : jsstring -> jsstring.

(** The tokens that occur in the lowercased name of the project, each
    occurrence of a token counted. *)
Definition keyword_score (words : list jsstring) (p : ProjectWithSections)
  : nat :=
  length (filter (fun w => includes (toLowerCase (project_name p)) w) words).

(** The sub-bucket bonus: 2 when the helper answers a non-empty id, 0
    when it answers none or the empty id of a matching sub-bucket. *)
Definition section_bonus (nc : jsstring) (words : list jsstring)
           (p : ProjectWithSections) : nat :=
  match matchSection toLowerCase nc words (sections p) with
  | Some [] => 0
  | Some (_ :: _) => 2
  | None => 0
  end.

Definition keyword_total (nc : jsstring) (words : list jsstring)
           (p : ProjectWithSections) : nat :=
  keyword_score words p + section_bonus nc words p.

Definition keyword_candidate (nc : jsstring) (words : list jsstring)
           (p : ProjectWithSections) : Candidate :=
  {| best_projectId := project_id p;
     best_sectionId := matchSection toLowerCase nc words (sections p);
     best_score := keyword_total nc words p |}.

(** No project of the list totals more than [p]. *)
Definition tops (nc : jsstring) (words : list jsstring)
           (projects : list ProjectWithSections) (p : ProjectWithSections)
  : Prop :=
  forall q, In q projects ->
            keyword_total nc words q <= keyword_total nc words p.

End RouterScores.

(** Further example buckets. *)
Definition code_reviews : ProjectWithSections :=
  {| project_id := lit "p-cr"; project_name := lit "Code Reviews";
     sections := [] |}.
Definition review_board : ProjectWithSections :=
  {| project_id := lit "p-rb"; project_name := lit "Review code here";
     sections := [] |}.

(** ** Calendar dates, in words *)

(** Four digits, a hyphen, two digits, a hyphen, two digits. *)
Definition is_iso_date (s : jsstring) : bool :=
  match s with
  | [y1; y2; y3; y4; h1; m1; m2; h2; d1; d2] =>
      is_digit y1 && is_digit y2 && is_digit y3 && is_digit y4
      && (h1 =? 45)%N && is_digit m1 && is_digit m2
      && (h2 =? 45)%N && is_digit d1 && is_digit d2
  | _ => false
  end.

(** The number a run of decimal digits writes. *)
Definition digits_value (s : jsstring) : Z :=
  fold_left (fun acc c => (acc * 10 + (Z.of_N c - 48))%Z) s 0%Z.

(** A day of a year that is written with four digits. *)
Definition four_digit_day (d : Date) : Prop :=
  (1000 <= getFullYear d <= 9999)%Z
  /\ (0 <= getMonth d <= 11)%Z
  /\ (1 <= getDate d <= 31)%Z.

(** The integers from [lo] on, [n] of them. *)
Definition Z_range (lo n : Z) : list Z :=
  map Z.of_nat (seq (Z.to_nat lo) (Z.to_nat n)).

(** The checks run over the finite ranges of years, months and days. *)
Definition year_ok (y : Z) : bool :=
  let s := Number_toString y in
  (length s =? 4) && forallb is_digit s && (digits_value s =? y)%Z.

Definition two_ok (v : Z) : bool :=
  let s := padStart 2 (lit "0") (Number_toString v) in
  (length s =? 2) && forallb is_digit s && (digits_value s =? v)%Z.

(** ** tools/tasks.ts: parseMeetingNotes *)

(** What the tools read of a task the service answers. *)
Record Task : Type := {
  task_id : jsstring;
  task_content : jsstring
}.

(** [due?: string | { date: string }] *)
Inductive DueArg : Type :=
| DueText (s : jsstring)
| DueDate (date : jsstring).

(** The argument of [client.createTask]; an absent field and a [null] one
    are both [None], the client tests them with [!= null]. *)
Record CreateTaskParams : Type := {
  param_content : jsstring;
  param_description : option jsstring;
  param_projectId : option jsstring;
  param_sectionId : option jsstring;
  param_due : option DueArg;
  param_priority : option Z;
  param_parentId : option jsstring;
  param_labels : option (list jsstring)
}.

(** The calls the tools make on the client, and the two calls
    [refreshCache] makes on the service. *)
Inductive Request : Type :=
| GetProjects
| GetTasks
| CreateTask (params : CreateTaskParams)
| CreateSubtask (parentId content : jsstring)
| CloseTask (id : jsstring)
| ApiGetProjects
| ApiGetSections (projectId : jsstring).

(** How an awaited call ends; a rejection is kept as the message that
    [err instanceof Error ? err.message : String(err)] reads off it. *)
Inductive settled (A : Type) : Type :=
| Fulfilled (a : A)
| Rejected (msg : jsstring).
Arguments Fulfilled {A} a.
Arguments Rejected {A} msg.

Definition QUOTE : jsstring := [34%N].

(** [parts.join(sep)] *)
Fixpoint join (sep : jsstring) (parts : list jsstring) : jsstring :=
  match parts with
  | [] => []
  | [x] => x
  | x :: rest => x ++ sep ++ join sep rest
  end.

(** [summary[summary.length - 1] += extra] *)
Fixpoint append_to_last (summary : list jsstring) (extra : jsstring)
  : list jsstring :=
  match summary with
  | [] => []
  | [x] => [x ++ extra]
  | x :: rest => x :: append_to_last rest extra
  end.

Definition count_text (n : nat) : jsstring := Number_toString (Z.of_nat n).

Section MeetingNotesTool.

Variable chrono_parse : jsstring -> Date -> list Date.
Variable clock : nat -> Date.
Variable toLowerCase : jsstring -> jsstring.

(** The client, outside this file: how each call ends, given the calls
    made before it. *)
Variable client_getProjects :
  list Request -> settled (list ProjectWithSections).
Variable client_createTask :
  list Request -> CreateTaskParams -> settled Task.
Variable client_createSubtask :
  list Request -> jsstring -> jsstring -> settled Task.

(** [for (const sub of item.subtasks) await client.createSubtask(...)]:
    the message of the first rejection, if any, and the calls made. *)
Fixpoint create_subtasks_of (taskId : jsstring) (subs : list jsstring)
         (h : list Request) : option jsstring * list Request :=
  match subs with
  | [] => (None, h)
  | sub :: rest =>
      match client_createSubtask h taskId sub with
      | Fulfilled _ =>
          create_subtasks_of taskId rest (h ++ [CreateSubtask taskId sub])
      | Rejected msg => (Some msg, h ++ [CreateSubtask taskId sub])
      end
  end.

Definition item_params (item : ExtractedActionItem) (r : RouteResult)
  : CreateTaskParams :=
  {| param_content := content item;
     param_description := Some (description item);
     param_projectId := Some (projectId r);
     param_sectionId := sectionId r;
     param_due := option_map DueText (dueDate item);
     param_priority := Some (priority item);
     param_parentId := None;
     param_labels := Some [] |}.

Definition created_line (task : Task) (r : RouteResult) : jsstring :=
  lit "Created: " ++ QUOTE ++ task_content task ++ QUOTE
  ++ lit " in project " ++ projectId r
  ++ match sectionId r with
     | Some sid =>
         if truthy (JsString sid) then lit ", section " ++ sid else []
     | None => []
     end.

Definition failed_line (item : ExtractedActionItem) (msg : jsstring)
  : jsstring :=
  lit "Failed to create " ++ QUOTE ++ content item ++ QUOTE ++ lit ": " ++ msg.

(** One turn of the loop over the items: the summary, the count of created
    tasks and the calls made so far go in and come out. *)
Definition process_item (projects : list ProjectWithSections)
           (targetProjectName : option jsstring)
           (st : list jsstring * nat * list Request)
           (item : ExtractedActionItem)
  : list jsstring * nat * list Request :=
  let '(summary, created, h) := st in
  let r := routeTask toLowerCase (content item) projects targetProjectName in
  if negb (truthy (JsString (projectId r))) then st
  else
    let params := item_params item r in
    match client_createTask h params with
    | Rejected msg =>
        (summary ++ [failed_line item msg], created, h ++ [CreateTask params])
    | Fulfilled task =>
        let created := created + 1 in
        let summary := summary ++ [created_line task r] in
        let h := h ++ [CreateTask params] in
        if 0 <? length (subtasks item) then
          match create_subtasks_of (task_id task) (subtasks item) h with
          | (None, h') =>
              (append_to_last summary
                 (lit " (" ++ count_text (length (subtasks item))
                  ++ lit " subtasks)"),
               created, h')
          | (Some msg, h') =>
              (summary ++ [failed_line item msg], created, h')
          end
        else (summary, created, h)
    end.

Definition report (parsed created : nat) (summary : list jsstring) : jsstring :=
  join [LF]
    ((lit "Parsed " ++ count_text parsed ++ lit " action item(s); created "
      ++ count_text created ++ lit " task(s).") :: summary).

(** The text of the one content entry the tool answers, with the clock
    readings and the client calls made. An exception of the extractor
    would reject the call. *)
Definition parseMeetingNotes (rawNotes : jsstring)
           (targetProjectName : option jsstring)
           (t : nat) (h : list Request)
  : settled jsstring * nat * list Request :=
  match extractActionItems chrono_parse clock (JsString rawNotes) t with
  | Returned (items, t') =>
      match client_getProjects h with
      | Rejected msg => (Rejected msg, t', h ++ [GetProjects])
      | Fulfilled projects =>
          let '(summary, created, h') :=
            fold_left (process_item projects targetProjectName) items
                      ([], 0, h ++ [GetProjects]) in
          (Fulfilled (report (length items) created summary), t', h')
      end
  | Thrown | Diverged => (Rejected (lit "TypeError"), t, h)
  end.

(** The items that get a destination. *)
Definition routable (projects : list ProjectWithSections)
           (targetProjectName : option jsstring) (item : ExtractedActionItem)
  : bool :=
  truthy (JsString (projectId (routeTask toLowerCase (content item) projects
                                         targetProjectName))).

Definition request_for (projects : list ProjectWithSections)
           (targetProjectName : option jsstring) (item : ExtractedActionItem)
  : Request :=
  CreateTask (item_params item
                (routeTask toLowerCase (content item) projects
                           targetProjectName)).

End MeetingNotesTool.

(** Example clients. *)
Definition two_projects_client (h : list Request)
  : settled (list ProjectWithSections) :=
  Fulfilled [finance; inbox].

(** The first creation fails, the later ones succeed. *)
Definition flaky_createTask (h : list Request) (params : CreateTaskParams)
  : settled Task :=
  match h with
  | [_] => Rejected (lit "service unavailable")
  | _ => Fulfilled {| task_id := lit "t-1";
                      task_content := param_content params |}
  end.

Definition any_createSubtask (h : list Request) (parentId content : jsstring)
  : settled Task :=
  Fulfilled {| task_id := lit "t-2"; task_content := content |}.

Definition offline_client (h : list Request)
  : settled (list ProjectWithSections) :=
  Rejected (lit "network down").

Definition no_projects_client (h : list Request)
  : settled (list ProjectWithSections) :=
  Fulfilled [].

Definition two_notes : jsstring :=
  lit "- pay the invoice" ++ [LF] ++ lit "- say hello".

(** ** todoist/client.ts: findTaskByName;
       tools/tasks.ts: completeTask, createSubtasks *)

Section TaskTools.

Variable toLowerCase : jsstring -> jsstring.

(** The calls that reach the service: how each one ends, given the calls
    made before it. *)
Variable client_getTasks : list Request -> settled (list Task).
Variable client_closeTask : list Request -> jsstring -> settled bool.
Variable client_createSubtask :
  list Request -> jsstring -> jsstring -> settled Task.

(** [tasks.find((t) => t.content.toLowerCase().includes(lower)) ?? null],
    after [if (!lower) return null] and [getTasks({})]. *)
Definition findTaskByName (name : jsstring) (h : list Request)
  : settled (option Task) * list Request :=
  let lower := toLowerCase (trim name) in
  if negb (truthy (JsString lower)) then (Fulfilled None, h)
  else
    match client_getTasks h with
    | Rejected msg => (Rejected msg, h ++ [GetTasks])
    | Fulfilled tasks =>
        (Fulfilled
           (find (fun t => includes (toLowerCase (task_content t)) lower)
                 tasks),
         h ++ [GetTasks])
    end.

Definition completeTask (taskName : jsstring) (h : list Request)
  : settled jsstring * list Request :=
  match findTaskByName taskName h with
  | (Rejected msg, h) => (Rejected msg, h)
  | (Fulfilled None, h) =>
      (Fulfilled (lit "Task not found: " ++ QUOTE ++ taskName ++ QUOTE
                  ++ lit "."), h)
  | (Fulfilled (Some task), h) =>
      match client_closeTask h (task_id task) with
      | Rejected msg => (Rejected msg, h ++ [CloseTask (task_id task)])
      | Fulfilled _ =>
          (Fulfilled (lit "Completed task: " ++ QUOTE ++ task_content task
                      ++ QUOTE),
           h ++ [CloseTask (task_id task)])
      end
  end.

(** The loop over [subtaskStrings]: the contents the service answered, or
    the message of the first rejection, and the calls made. *)
Fixpoint add_subtasks (parentId : jsstring) (subtaskStrings : list jsstring)
         (created : list jsstring) (h : list Request)
  : settled (list jsstring) * list Request :=
  match subtaskStrings with
  | [] => (Fulfilled created, h)
  | content :: rest =>
      match client_createSubtask h parentId (trim content) with
      | Rejected msg =>
          (Rejected msg, h ++ [CreateSubtask parentId (trim content)])
      | Fulfilled t =>
          add_subtasks parentId rest (created ++ [task_content t])
                       (h ++ [CreateSubtask parentId (trim content)])
      end
  end.

Definition createSubtasks (parentTaskName : jsstring)
           (subtaskStrings : list jsstring) (h : list Request)
  : settled jsstring * list Request :=
  match findTaskByName parentTaskName h with
  | (Rejected msg, h) => (Rejected msg, h)
  | (Fulfilled None, h) =>
      (Fulfilled (lit "Parent task not found: " ++ QUOTE ++ parentTaskName
                  ++ QUOTE ++ lit "."), h)
  | (Fulfilled (Some parent), h) =>
      match add_subtasks (task_id parent) subtaskStrings [] h with
      | (Rejected msg, h) => (Rejected msg, h)
      | (Fulfilled created, h) =>
          (Fulfilled (lit "Added " ++ count_text (length created)
                      ++ lit " subtask(s) to " ++ QUOTE
                      ++ task_content parent ++ QUOTE ++ lit ": "
                      ++ join (lit "; ") created), h)
      end
  end.

(** The lowercased content of the task contains the trimmed, lowercased
    name. *)
Definition task_mentions (name : jsstring) (t : Task) : Prop :=
  contains (toLowerCase (task_content t)) (toLowerCase (trim name)).

(** The requests for the subtasks, in the order of the strings. *)
Definition subtask_requests (parentId : jsstring) (l : list jsstring)
  : list Request :=
  map (fun content => CreateSubtask parentId (trim content)) l.

End TaskTools.

(** ** todoist/client.ts: refreshCache, getProjects, findProjectByName *)

(** What the service answers of a project and of a section; of a project
    the cache keeps more fields, which nothing below reads. *)
Record ApiProject : Type := {
  api_project_id : jsstring;
  api_project_name : jsstring
}.

Record ApiSection : Type := {
  api_section_id : jsstring;
  api_section_name : jsstring;
  api_section_projectId : jsstring;
  api_sectionOrder : option Z
}.

(** [cache.projects]: [null] at first, then the list last fetched.
    [cache.allTasks] is written and never read. *)
Definition Cache : Type := option (list ProjectWithSections).

(** [order: s.sectionOrder ?? 0] *)
Definition to_section (s : ApiSection) : TodoistSection :=
  {| section_id := api_section_id s;
     section_name := api_section_name s;
     section_projectId := api_section_projectId s;
     section_order := match api_sectionOrder s with
                      | Some o => o
                      | None => 0%Z
                      end |}.

Definition with_sections (p : ApiProject) (l : list ApiSection)
  : ProjectWithSections :=
  {| project_id := api_project_id p;
     project_name := api_project_name p;
     sections := map to_section l |}.

(** What [Promise.all] is left with: the projects whose sections came,
    in order, and the messages of the rejections. *)
Fixpoint gather (answers : list (ApiProject * settled (list ApiSection)))
  : list ProjectWithSections * list jsstring :=
  match answers with
  | [] => ([], [])
  | (p, Fulfilled l) :: rest =>
      let '(done, failed) := gather rest in (with_sections p l :: done, failed)
  | (p, Rejected msg) :: rest =>
      let '(done, failed) := gather rest in (done, msg :: failed)
  end.

(** A call of the service is a refresh when it asks for the projects. *)
Definition is_refresh (r : Request) : bool :=
  match r with
  | ApiGetProjects => true
  | _ => false
  end.

Definition refreshes (h : list Request) : nat := length (filter is_refresh h).

Section ClientCache.

Variable toLowerCase : jsstring -> jsstring.

(** The service: how each call ends, given the calls made before it, and
    which of several rejections settles first. *)
Variable api_getProjects : list Request -> settled (list ApiProject).
Variable api_getSections :
  list Request -> jsstring -> settled (list ApiSection).
Variable first_rejection : list jsstring -> jsstring.

(** [projects.map(async (p) => ... await this.api.getSections(...))]: the
    sections of every project are asked for, in order, before any answer
    is looked at. *)
Fixpoint ask_sections (projects : list ApiProject) (h : list Request)
  : list (ApiProject * settled (list ApiSection)) * list Request :=
  match projects with
  | [] => ([], h)
  | p :: rest =>
      let answer := api_getSections h (api_project_id p) in
      let '(answers, h') :=
        ask_sections rest (h ++ [ApiGetSections (api_project_id p)]) in
      ((p, answer) :: answers, h')
  end.

(** The cache is written only when every call was fulfilled. *)
Definition refreshCache (cache : Cache) (h : list Request)
  : settled unit * Cache * list Request :=
  match api_getProjects h with
  | Rejected msg => (Rejected msg, cache, h ++ [ApiGetProjects])
  | Fulfilled projects =>
      let '(answers, h') := ask_sections projects (h ++ [ApiGetProjects]) in
      match gather answers with
      | (withSections, []) => (Fulfilled tt, Some withSections, h')
      | (_, msg :: msgs) =>
          (Rejected (first_rejection (msg :: msgs)), cache, h')
      end
  end.

(** [if (!this.cache.projects) await this.refreshCache();
     return this.cache.projects ?? []] *)
Definition getProjects (cache : Cache) (h : list Request)
  : settled (list ProjectWithSections) * Cache * list Request :=
  match cache with
  | Some projects => (Fulfilled projects, cache, h)
  | None =>
      match refreshCache cache h with
      | (Rejected msg, cache, h) => (Rejected msg, cache, h)
      | (Fulfilled _, cache, h) =>
          (Fulfilled match cache with
                     | Some projects => projects
                     | None => []
                     end, cache, h)
      end
  end.

(** The project whose name contains the normalized name or is contained
    in it; the cache is refreshed and searched again when none is. *)
Definition findProjectByName (name : jsstring) (cache : Cache)
           (h : list Request)
  : settled (option ProjectWithSections) * Cache * list Request :=
  match getProjects cache h with
  | (Rejected msg, cache, h) => (Rejected msg, cache, h)
  | (Fulfilled projects, cache, h) =>
      let normalized := toLowerCase (trim name) in
      match find (hint_matches toLowerCase normalized) projects with
      | Some p => (Fulfilled (Some p), cache, h)
      | None =>
          match refreshCache cache h with
          | (Rejected msg, cache, h) => (Rejected msg, cache, h)
          | (Fulfilled _, cache, h) =>
              match getProjects cache h with
              | (Rejected msg, cache, h) => (Rejected msg, cache, h)
              | (Fulfilled again, cache, h) =>
                  (Fulfilled
                     (find (hint_matches toLowerCase normalized) again),
                   cache, h)
              end
          end
      end
  end.

End ClientCache.

(** Example service for the cache: Finance with no section and Inbox with
    one; nothing is rejected. *)
Definition two_api_projects (h : list Request) : settled (list ApiProject) :=
  Fulfilled [ {| api_project_id := lit "p-fin";
                 api_project_name := lit "Finance" |};
              {| api_project_id := lit "p-inbox";
                 api_project_name := lit "Inbox" |} ].

Definition inbox_sections (h : list Request) (projectId : jsstring)
  : settled (list ApiSection) :=
  if jsstring_eqb projectId (lit "p-inbox")
  then Fulfilled [ {| api_section_id := lit "s-later";
                      api_section_name := lit "Later";
                      api_section_projectId := lit "p-inbox";
                      api_sectionOrder := None |} ]
  else Fulfilled [].

Definition head_rejection (msgs : list jsstring) : jsstring :=
  match msgs with
  | msg :: _ => msg
  | [] => []
  end.

(** Example service: three tasks, every call succeeds and a created
    subtask comes back with the content it was given. *)
Definition three_tasks : list Task :=
  [ {| task_id := lit "t-10"; task_content := lit "Write the report" |};
    {| task_id := lit "t-11"; task_content := lit "Review the REPORT draft" |};
    {| task_id := lit "t-12"; task_content := lit "Book a room" |} ].

Definition three_tasks_client (h : list Request) : settled (list Task) :=
  Fulfilled three_tasks.

Definition any_closeTask (h : list Request) (id : jsstring) : settled bool :=
  Fulfilled true.

(** The second subtask is refused. *)
Definition second_refused (h : list Request) (parentId content : jsstring)
  : settled Task :=
  match h with
  | [_; _] => Rejected (lit "quota exceeded")
  | _ => Fulfilled {| task_id := lit "t-20"; task_content := content |}
  end.

(** A date parser that finds Friday 2024-06-07, noon, in every text. *)
Definition friday_parser : jsstring -> Date -> list Date :=
  fun _ _ => [at_day 2024 5 7 12].

(** Further example buckets: a bucket for work, a bucket whose name shares
    two words with "pay the invoice", and a ledger whose one sub-bucket
    has the empty id. *)
Definition work : ProjectWithSections :=
  {| project_id := lit "p-work"; project_name := lit "Work";
     sections := [] |}.
Definition pay_the_bills : ProjectWithSections :=
  {| project_id := lit "p-pay"; project_name := lit "Pay the bills";
     sections := [] |}.
Definition unfiled_invoices : TodoistSection :=
  {| section_id := []; section_name := lit "Invoice";
     section_projectId := lit "p-led"; section_order := 1 |}.
Definition ledger : ProjectWithSections :=
  {| project_id := lit "p-led"; project_name := lit "Finance ledger";
     sections := [unfiled_invoices] |}.

(** A bucket whose one sub-bucket, named like the content, has the empty
    id, and a bucket named after the content. *)
Definition unnamed_review : TodoistSection :=
  {| section_id := []; section_name := lit "Review";
     section_projectId := lit "p-a"; section_order := 1 |}.
Definition alpha : ProjectWithSections :=
  {| project_id := lit "p-a"; project_name := lit "Alpha";
     sections := [unnamed_review] |}.
Definition review_stuff : ProjectWithSections :=
  {| project_id := lit "p-rs"; project_name := lit "review stuff";
     sections := [] |}.

(** The hint step in the words of the specification: the hint as given,
    lowercased, contains the lowercased name of the bucket or is contained
    in it. *)
Definition spec_name_matches_hint (toLowerCase : jsstring -> jsstring)
           (hint : jsstring) (p : ProjectWithSections) : Prop :=
  contains (toLowerCase hint) (toLowerCase (project_name p))
  \/ contains (toLowerCase (project_name p)) (toLowerCase hint).

(** A bucket named "eng". *)
Definition eng : ProjectWithSections :=
  {| project_id := lit "p-e"; project_name := lit "eng"; sections := [] |}.

(** The Inbox of the example service, with its one section. *)
Definition with_later : ProjectWithSections :=
  {| project_id := lit "p-inbox"; project_name := lit "Inbox";
     sections := [ {| section_id := lit "s-later";
                      section_name := lit "Later";
                      section_projectId := lit "p-inbox";
                      section_order := 0 |} ] |}.

(** * Properties *)

(** ** The model on concrete inputs *)

Example split_newline_example :
  split re_newline (lit "a" ++ [CR; LF] ++ lit "b" ++ [LF; LF] ++ lit "c d"
                    ++ [CR] ++ lit "e" ++ [LF])
  = [lit "a"; lit "b"; []; lit "c d" ++ [CR] ++ lit "e"; []].
Proof. vm_compute. reflexivity. Qed.

Example split_spaces_example :
  split re_spaces (lit "review   pr #42") = [lit "review"; lit "pr"; lit "#42"]
  /\ split re_spaces [] = [[]]
  /\ split re_spaces (lit " a b ") = [[]; lit "a"; lit "b"; []].
Proof. vm_compute. repeat split; reflexivity. Qed.

Example trim_example :
  trim ([9; 32] ++ lit "a  b" ++ [160; CR; LF])%N = lit "a  b".
Proof. vm_compute. reflexivity. Qed.

Example action_content_examples :
  map (fun l => (isAction l, action_content l))
      [lit "- [x] ship it"; lit "3) Follow-Up:  call Bob"; lit "TODO: x";
       lit "plain sentence"; lit "-ab"; lit "-abc"]
  = [(true, lit "ship it"); (true, lit "call Bob"); (true, lit "x");
     (false, lit "plain sentence"); (false, lit "ab"); (true, lit "abc")].
Proof. vm_compute. reflexivity. Qed.

Example toDateString_examples :
  toDateString (at_day 2024 5 3 23) = lit "2024-06-03"
  /\ toDateString (at_day 2024 11 31 0) = lit "2024-12-31"
  /\ toDateString (at_day 987 0 1 12) = lit "987-01-01".
Proof. vm_compute. repeat split; reflexivity. Qed.

Example extract_urgent_example :
  extractActionItems no_chrono_match midnight_clock
    (JsString (lit "- urgent: fix build asap")) 0
  = Returned ([ {| content := lit "urgent: fix build asap";
                   description := lit "- urgent: fix build asap";
                   dueDate := None;
                   priority := 1%Z;
                   subtasks := [] |} ], 2).
Proof. vm_compute. reflexivity. Qed.

(** ** Trimming *)

Lemma dropWhile_suffix (p : N -> bool) (s : jsstring) :
  exists l, s = l ++ dropWhile p s /\ forallb p l = true.
Proof.
  induction s as [|c s IH]; simpl.
  - exists []; auto.
  - destruct (p c) eqn:E.
    + destruct IH as [l [IH1 IH2]]. exists (c :: l). simpl.
      rewrite E, IH2. split; [f_equal; exact IH1 | reflexivity].
    + exists []; auto.
Qed.

Lemma dropWhile_head (p : N -> bool) (s : jsstring) (c : N) (r : jsstring) :
  dropWhile p s = c :: r -> p c = false.
Proof.
  induction s as [|x s IH]; simpl; [discriminate|].
  destruct (p x) eqn:E; [exact IH|].
  intros H; inversion H; subst; exact E.
Qed.

Lemma dropWhile_stop (p : N -> bool) (l : jsstring) (c : N) (r : jsstring) :
  p c = false ->
  exists l', dropWhile p (l ++ c :: r) = l' ++ c :: r.
Proof.
  intros Hc. induction l as [|x l IH]; simpl.
  - rewrite Hc. exists []; reflexivity.
  - destruct (p x); [exact IH|]. exists (x :: l); reflexivity.
Qed.

Lemma dropWhile_fixed (p : N -> bool) (c : N) (r : jsstring) :
  p c = false -> dropWhile p (c :: r) = c :: r.
Proof. intros H; simpl; rewrite H; reflexivity. Qed.

Lemma trimEnd_head (c : N) (r : jsstring) :
  is_space c = false -> exists r', trimEnd (c :: r) = c :: r'.
Proof.
  intros Hc. unfold trimEnd. simpl rev.
  destruct (dropWhile_stop is_space (rev r) c [] Hc) as [l' Hl'].
  rewrite Hl'. rewrite rev_app_distr. simpl. eauto.
Qed.

Lemma trim_head (s : jsstring) (c : N) (r : jsstring) :
  trim s = c :: r -> is_space c = false.
Proof.
  unfold trim, trimStart. intros H.
  destruct (dropWhile is_space s) as [|x y] eqn:E.
  - discriminate H.
  - pose proof (dropWhile_head _ _ _ _ E) as Hx.
    destruct (trimEnd_head x y Hx) as [r' Hr']. rewrite Hr' in H.
    inversion H; subst; exact Hx.
Qed.

Lemma trimEnd_prefix (s : jsstring) :
  exists l, s = trimEnd s ++ l /\ forallb is_space l = true.
Proof.
  unfold trimEnd.
  destruct (dropWhile_suffix is_space (rev s)) as [l [H1 H2]].
  exists (rev l). split.
  - rewrite <- rev_app_distr, <- H1, rev_involutive. reflexivity.
  - rewrite forallb_forall in *. intros x Hx. apply H2.
    apply in_rev. exact Hx.
Qed.

(** A trimmed text lies inside the original, between two runs of spaces. *)
Lemma trim_inside (s : jsstring) :
  exists l r, s = l ++ trim s ++ r
              /\ forallb is_space l = true /\ forallb is_space r = true.
Proof.
  unfold trim, trimStart.
  destruct (dropWhile_suffix is_space s) as [l [H1 H2]].
  destruct (trimEnd_prefix (dropWhile is_space s)) as [r [H3 H4]].
  exists l, r. split; [|split]; auto.
  rewrite <- H3. exact H1.
Qed.

Lemma length_firstn_le {A} (n : nat) (l : list A) : length (firstn n l) <= n.
Proof. rewrite length_firstn. lia. Qed.

(** ** The matcher against the meaning of the patterns *)

Lemma matches_consumes r b a b' a' :
  matches r b a b' a' -> exists m, a = m ++ a' /\ b' = rev m ++ b.
Proof.
  induction 1.
  - exists []; auto.
  - exists [c]; auto.
  - destruct IHmatches1 as [m1 [E1 F1]]. destruct IHmatches2 as [m2 [E2 F2]].
    exists (m1 ++ m2). subst. rewrite rev_app_distr, <- !app_assoc. auto.
  - assumption.
  - assumption.
  - exists []; auto.
  - destruct IHmatches1 as [m1 [E1 F1]]. destruct IHmatches2 as [m2 [E2 F2]].
    exists (m1 ++ m2). subst. rewrite rev_app_distr, <- !app_assoc. auto.
  - exists []; auto.
  - exists []; auto.
Qed.

Lemma some_or_else {T} (o : option T) (d : option T) :
  match o with Some x => Some x | None => d end <> None <->
  (o <> None \/ d <> None).
Proof.
  destruct o; split; intros H; try (left; discriminate); try discriminate.
  - right; exact H.
  - destruct H as [H|H]; [congruence | exact H].
Qed.

Lemma star_iter_matches {T} (r : regex) (k : jsstring -> jsstring -> option T) :
  (forall b a (k' : jsstring -> jsstring -> option T),
      run r b a k' <> None <->
                  exists b1 a1, matches r b a b1 a1 /\ k' b1 a1 <> None) ->
  forall n b a, length a <= n ->
    (star_iter (run r) k n b a <> None <->
     exists b' a', matches (Star r) b a b' a' /\ k b' a' <> None).
Proof.
  intros IHr. induction n as [|n IHn]; intros b a Hlen.
  - simpl. split.
    + intros H. exists b, a. split; [constructor | exact H].
    + intros [b' [a' [Hm Hk]]]. inversion Hm; subst; [exact Hk | lia].
  - simpl. rewrite some_or_else, IHr. split.
    + intros [[b1 [a1 [Hm Hk]]] | Hk].
      * destruct (Nat.ltb_spec (length a1) (length a)) as [Hlt|Hge];
          [|congruence].
        apply IHn in Hk; [|lia]. destruct Hk as [b' [a' [Hs Hk]]].
        exists b', a'. split; [|exact Hk]. eapply M_StarStep; eauto.
      * exists b, a. split; [constructor | exact Hk].
    + intros [b' [a' [Hm Hk]]]. inversion Hm; subst.
      * right; exact Hk.
      * left. exists b1, a1. split; [assumption|].
        destruct (Nat.ltb_spec (length a1) (length a)) as [Hlt|Hge]; [|lia].
        apply IHn; [lia|]. exists b', a'. auto.
Qed.

(** The matcher succeeds exactly when the pattern has a match that the
    continuation accepts. *)
Theorem run_matches {T} (r : regex) :
  forall b a (k : jsstring -> jsstring -> option T),
    run r b a k <> None <->
    exists b' a', matches r b a b' a' /\ k b' a' <> None.
Proof.
  induction r as [|p|r1 IH1 r2 IH2|r1 IH1 r2 IH2|r IH| |]; intros b a k; simpl.
  - split.
    + intros H; exists b, a; split; [constructor|exact H].
    + intros [b' [a' [Hm Hk]]]; inversion Hm; subst; exact Hk.
  - destruct a as [|c a].
    + split; [congruence|]. intros [b' [a' [Hm _]]]; inversion Hm.
    + destruct (p c) eqn:E.
      * split.
        -- intros H; exists (c :: b), a; split; [constructor; exact E|exact H].
        -- intros [b' [a' [Hm Hk]]]; inversion Hm; subst; exact Hk.
      * split; [congruence|].
        intros [b' [a' [Hm _]]]; inversion Hm; subst; congruence.
  - rewrite IH1. split.
    + intros [b1 [a1 [Hm Hk]]]. apply IH2 in Hk.
      destruct Hk as [b2 [a2 [Hm2 Hk]]].
      exists b2, a2; split; [econstructor; eauto|exact Hk].
    + intros [b2 [a2 [Hm Hk]]]. inversion Hm; subst.
      exists b1, a1; split; [assumption|]. apply IH2. eauto.
  - rewrite some_or_else, IH1, IH2. split.
    + intros [[b' [a' [Hm Hk]]]|[b' [a' [Hm Hk]]]]; exists b', a'; split;
        auto using M_AltL, M_AltR.
    + intros [b' [a' [Hm Hk]]]. inversion Hm; subst; [left|right]; eauto.
  - apply star_iter_matches; [exact IH | lia].
  - destruct b as [|x b].
    + split.
      * intros H; exists [], a; split; [constructor|exact H].
      * intros [b' [a' [Hm Hk]]]; inversion Hm; subst; exact Hk.
    + split; [congruence|]. intros [b' [a' [Hm _]]]; inversion Hm.
  - destruct (xorb (word_before b) (word_before a)) eqn:E.
    + split.
      * intros H; exists b, a; split; [constructor; exact E|exact H].
      * intros [b' [a' [Hm Hk]]]; inversion Hm; subst; exact Hk.
    + split; [congruence|].
      intros [b' [a' [Hm _]]]; inversion Hm; subst; congruence.
Qed.

Lemma search_matches (r : regex) :
  forall aft bef,
    search r bef aft <> None <->
    exists x y b' a', aft = x ++ y /\ matches r (rev x ++ bef) y b' a'.
Proof.
  induction aft as [|c aft IH]; intros bef; simpl.
  - destruct (run r bef [] (fun b a => Some (b, a))) as [[b a]|] eqn:E.
    + split; [|congruence]. intros _.
      assert (H : run r bef [] (fun b a => Some (b, a)) <> None) by congruence.
      apply run_matches in H. destruct H as [b' [a' [Hm _]]].
      exists [], [], b', a'. auto.
    + split; [congruence|]. intros [x [y [b' [a' [Hxy Hm]]]]].
      destruct x; [|discriminate]. destruct y; [|discriminate].
      simpl in Hm.
      assert (H : run r bef [] (fun b a => Some (b, a)) <> None).
      { apply run_matches. exists b', a'. split; [exact Hm|discriminate]. }
      congruence.
  - destruct (run r bef (c :: aft) (fun b a => Some (b, a))) as [[b a]|] eqn:E.
    + split; [|congruence]. intros _.
      assert (H : run r bef (c :: aft) (fun b a => Some (b, a)) <> None)
        by congruence.
      apply run_matches in H. destruct H as [b' [a' [Hm _]]].
      exists [], (c :: aft), b', a'. auto.
    + rewrite IH. split.
      * intros [x [y [b' [a' [Hxy Hm]]]]]. exists (c :: x), y, b', a'.
        split; [simpl; congruence|]. simpl. rewrite <- app_assoc. exact Hm.
      * intros [x [y [b' [a' [Hxy Hm]]]]]. destruct x as [|x0 x].
        -- simpl in Hxy, Hm. subst y.
           assert (H : run r bef (c :: aft) (fun b a => Some (b, a)) <> None).
           { apply run_matches. exists b', a'. split; [exact Hm|discriminate]. }
           congruence.
        -- simpl in Hxy. inversion Hxy; subst. exists x, y, b', a'.
           split; [reflexivity|]. simpl in Hm. rewrite <- app_assoc in Hm.
           exact Hm.
Qed.

(** [test] holds exactly when the pattern matches somewhere in the text. *)
Theorem test_matches (r : regex) (s : jsstring) :
  test r s = true <->
  exists pre rest b' a', s = pre ++ rest /\ matches r (rev pre) rest b' a'.
Proof.
  unfold test, exec.
  pose proof (search_matches r s []) as H.
  destruct (search r [] s) eqn:E.
  - split; [|reflexivity]. intros _.
    destruct H as [H _]. destruct H as [x [y [b' [a' [Hxy Hm]]]]]; [congruence|].
    exists x, y, b', a'. rewrite app_nil_r in Hm. auto.
  - split; [discriminate|]. intros [x [y [b' [a' [Hxy Hm]]]]].
    exfalso. apply (proj2 H); [|reflexivity].
    exists x, y, b', a'. rewrite app_nil_r. auto.
Qed.

Lemma matches_Seq_inv r1 r2 b a b' a' :
  matches (Seq r1 r2) b a b' a' ->
  exists b1 a1, matches r1 b a b1 a1 /\ matches r2 b1 a1 b' a'.
Proof. intros H; inversion H; subst; eauto. Qed.

Lemma matches_Class_inv p b a b' a' :
  matches (Class p) b a b' a' ->
  exists c, a = c :: a' /\ b' = c :: b /\ p c = true.
Proof. intros H; inversion H; subst; eauto. Qed.

Lemma matches_WordB_inv b a b' a' :
  matches WordB b a b' a' ->
  b' = b /\ a' = a /\ xorb (word_before b) (word_before a) = true.
Proof. intros H; inversion H; subst; auto. Qed.

Lemma matches_Bol_inv b a b' a' :
  matches Bol b a b' a' -> b = [] /\ b' = [] /\ a' = a.
Proof. intros H; inversion H; subst; auto. Qed.

Lemma matches_StrI (w : jsstring) :
  forall b a b' a',
    matches (StrI w) b a b' a' <->
    exists m, a = m ++ a' /\ b' = rev m ++ b /\ same_letters m w.
Proof.
  unfold same_letters.
  induction w as [|c w IH]; intros b a b' a'; simpl.
  - split.
    + intros H; inversion H; subst. exists []; auto.
    + intros [m [Ha [Hb Hm]]]. destruct m; [|discriminate].
      simpl in *; subst. constructor.
  - split.
    + intros H. apply matches_Seq_inv in H. destruct H as [b1 [a1 [H1 H2]]].
      apply matches_Class_inv in H1. destruct H1 as [x [Ha [Hb Hx]]].
      apply IH in H2. destruct H2 as [m [Ha' [Hb' Hm]]].
      exists (x :: m). simpl. subst. rewrite <- app_assoc. simpl.
      apply N.eqb_eq in Hx. rewrite Hx, Hm. auto.
    + intros [m [Ha [Hb Hm]]]. destruct m as [|x m]; [discriminate|].
      simpl in Hm. inversion Hm as [[Hx Hm']]. subst.
      simpl. rewrite <- app_assoc. simpl.
      eapply M_Seq.
      * apply M_Class. apply N.eqb_eq. exact Hx.
      * apply IH. exists m. auto.
Qed.

Lemma matches_AltList (rs : list regex) :
  forall b a b' a',
    matches (AltList rs) b a b' a' <->
    exists r, In r rs /\ matches r b a b' a'.
Proof.
  induction rs as [|r rs IH]; intros b a b' a'.
  - simpl. split.
    + intros H; inversion H; discriminate.
    + intros [r [[] _]].
  - destruct rs as [|r' rs].
    + simpl. split.
      * intros H; exists r; auto.
      * intros [r0 [[E|[]] H]]; subst; exact H.
    + change (AltList (r :: r' :: rs)) with (Alt r (AltList (r' :: rs))).
      split.
      * intros H; inversion H as [| | |? ? ? ? ? ? HL|? ? ? ? ? ? HR| | | |]; subst.
        -- exists r; split; [left; reflexivity|assumption].
        -- apply IH in HR. destruct HR as [r0 [Hin Hm]].
           exists r0; split; [right; exact Hin|exact Hm].
      * intros [r0 [[E|Hin] Hm]].
        -- subst; apply M_AltL; exact Hm.
        -- apply M_AltR. apply IH. eauto.
Qed.

Lemma matches_literals (ws : list jsstring) b a b' a' :
  matches (AltList (map StrI ws)) b a b' a' <->
  exists w m, In w ws /\ a = m ++ a' /\ b' = rev m ++ b /\ same_letters m w.
Proof.
  rewrite matches_AltList. split.
  - intros [r [Hin Hm]]. apply in_map_iff in Hin.
    destruct Hin as [w [Hr Hin]]. subst r. apply matches_StrI in Hm.
    destruct Hm as [m Hm]. exists w, m. tauto.
  - intros [w [m [Hin Hm]]]. exists (StrI w). split.
    + apply in_map; exact Hin.
    + apply matches_StrI. exists m; exact Hm.
Qed.

(** A pattern [/w1|w2|.../i] of literals tests for containment. *)
Theorem test_literals (ws : list jsstring) (s : jsstring) :
  test (AltList (map StrI ws)) s = true <->
  exists w, In w ws /\ contains_ci s w.
Proof.
  rewrite test_matches. unfold contains_ci. split.
  - intros [pre [rest [b' [a' [Hs Hm]]]]]. apply matches_literals in Hm.
    destruct Hm as [w [m [Hin [Ha [Hb Hl]]]]].
    exists w. split; [exact Hin|]. exists pre, m, a'. subst. auto.
  - intros [w [Hin [pre [m [post [Hs Hl]]]]]].
    exists pre, (m ++ post), (rev m ++ rev pre), post. split; [exact Hs|].
    apply matches_literals. exists w, m. auto.
Qed.

(** A pattern [/\b(w1|w2|...)\b/i] tests for a whole word or phrase. *)
Theorem test_words (ws : list jsstring) (s : jsstring) :
  test (Seq WordB (Seq (AltList (map StrI ws)) WordB)) s = true <->
  exists w, In w ws /\ contains_word s w.
Proof.
  rewrite test_matches. unfold contains_word, word_boundary. split.
  - intros [pre [rest [b' [a' [Hs Hm]]]]].
    apply matches_Seq_inv in Hm. destruct Hm as [b1 [a1 [H1 Hm]]].
    apply matches_WordB_inv in H1. destruct H1 as [Hb1 [Ha1 H1]]. subst b1 a1.
    apply matches_Seq_inv in Hm. destruct Hm as [b2 [a2 [Hm H2]]].
    apply matches_WordB_inv in H2. destruct H2 as [Hb2 [Ha2 H2]]. subst b2 a2.
    apply matches_literals in Hm.
    destruct Hm as [w [m [Hin [Ha [Hb Hl]]]]].
    exists w. split; [exact Hin|]. exists pre, m, a'. subst.
    rewrite rev_app_distr. auto.
  - intros [w [Hin [pre [m [post [Hs [Hl [H1 H2]]]]]]]].
    exists pre, (m ++ post), (rev m ++ rev pre), post. split; [exact Hs|].
    eapply M_Seq; [apply M_WordB; exact H1|].
    eapply M_Seq; [apply matches_literals; exists w, m; auto|].
    apply M_WordB. rewrite rev_app_distr in H2. exact H2.
Qed.

(** ** The lines the extractor scans *)

Lemma anchored_needs_start (r : regex) (aft bef : jsstring) :
  bef <> [] -> search (Seq Bol r) bef aft = None.
Proof.
  revert bef. induction aft as [|c aft IH]; intros bef Hb;
    destruct bef as [|x bef]; try congruence; simpl.
  - reflexivity.
  - apply IH. discriminate.
Qed.

Lemma replace_indent_id (line : jsstring) :
  no_indent line -> replace re_indent line [] = line.
Proof.
  intros H. unfold replace, exec.
  destruct line as [|c line]; [reflexivity|].
  simpl in H. unfold re_indent, Plus, ws. simpl. rewrite H.
  rewrite anchored_needs_start by discriminate. reflexivity.
Qed.

Lemma trim_no_indent (s : jsstring) : no_indent (trim s).
Proof.
  unfold no_indent. destruct (trim s) as [|c r] eqn:E; [exact I|].
  eapply trim_head; exact E.
Qed.

Lemma split_lines_no_indent (text : jsstring) :
  Forall no_indent (split_lines text).
Proof.
  unfold split_lines. apply Forall_forall. intros l Hl.
  apply filter_In in Hl. destruct Hl as [Hl _].
  apply in_map_iff in Hl. destruct Hl as [x [Hx _]]. subst l.
  apply trim_no_indent.
Qed.

Lemma split_lines_trimmed (text : jsstring) :
  Forall (fun l => l <> [] /\ exists x, l = trim x) (split_lines text).
Proof.
  unfold split_lines. apply Forall_forall. intros l Hl.
  apply filter_In in Hl. destruct Hl as [Hl Hne].
  apply in_map_iff in Hl. destruct Hl as [x [Hx _]]. split.
  - destruct l; [discriminate Hne | discriminate].
  - exists x. symmetry. exact Hx.
Qed.

(** On lines without indentation the inner loop stops at once. *)
Lemma collect_no_indent (lines : list jsstring) :
  Forall no_indent lines ->
  forall fuel i subtasks description,
    collect (S fuel) lines i subtasks description
    = Returned (i, subtasks, description).
Proof.
  intros Hall fuel i st d. simpl.
  destruct (i <? length lines) eqn:Hi; [|reflexivity].
  apply Nat.ltb_lt in Hi.
  destruct (nth_error lines i) as [next|] eqn:E.
  - assert (Hn : no_indent next).
    { rewrite Forall_forall in Hall. apply Hall. eapply nth_error_In; eauto. }
    rewrite (replace_indent_id _ Hn). rewrite Z.sub_diag. simpl.
    rewrite andb_false_r.
    destruct (jsstring_eqb next [] || test re_heading next); reflexivity.
  - apply nth_error_None in E. lia.
Qed.

(** Whatever the lines, the inner loop ends within the steps it is granted
    and never reads past the last line. *)
Lemma collect_returns (lines : list jsstring) :
  forall fuel i subtasks description,
    length lines - i < fuel ->
    exists i' subtasks' description',
      collect fuel lines i subtasks description
      = Returned (i', subtasks', description')
      /\ i <= i'.
Proof.
  induction fuel as [|fuel IH]; intros i st d Hf; [lia|].
  cbn [collect]. destruct (i <? length lines) eqn:Hi.
  - apply Nat.ltb_lt in Hi.
    destruct (nth_error lines i) as [next|] eqn:E.
    2:{ apply nth_error_None in E. lia. }
    cbv zeta.
    repeat match goal with
           | |- context [if ?c then _ else _] => destruct c
           end;
      try (eexists; eexists; eexists; split; [reflexivity|lia]);
      match goal with
      | |- context [collect fuel lines (i + 1) ?a ?b] =>
          destruct (IH (i + 1) a b) as [i' [st' [d' [E' Hle]]]];
          [lia | exists i', st', d'; split; [exact E'|lia]]
      end.
  - exists i, st, d. split; [reflexivity|lia].
Qed.

Lemma skipn_nth_error {A} (l : list A) (i : nat) (x : A) :
  nth_error l i = Some x -> skipn i l = x :: skipn (S i) l.
Proof.
  revert i. induction l as [|y l IH]; intros [|i] H; simpl in *;
    try discriminate.
  - inversion H; reflexivity.
  - apply IH. exact H.
Qed.

Section ScanFacts.

Variable chrono_parse : jsstring -> Date -> list Date.
Variable clock : nat -> Date.

(** The loop of [extractActionItems] returns, never throws, and opens
    one item per qualifying line. *)
Lemma scan_emit (lines : list jsstring) :
  Forall no_indent lines ->
  forall fuel i items t,
    length lines - i < fuel ->
    scan chrono_parse clock fuel lines i items t
    = Returned (items ++ fst (emit chrono_parse clock (skipn i lines) t),
                snd (emit chrono_parse clock (skipn i lines) t)).
Proof.
  intros Hall. induction fuel as [|fuel IH]; intros i items t Hf; [lia|].
  cbn [scan].
  destruct (i <? length lines) eqn:Hi.
  - apply Nat.ltb_lt in Hi.
    destruct (nth_error lines i) as [line|] eqn:E.
    2:{ apply nth_error_None in E. lia. }
    rewrite (skipn_nth_error _ _ _ E). cbn [emit]. unfold open_item.
    rewrite Nat.add_1_r.
    destruct (isAction line).
    + destruct (length (action_content line) <? 2).
      * rewrite IH by lia.
        destruct (emit chrono_parse clock (skipn (S i) lines) t); reflexivity.
      * destruct (resolve_dueDate chrono_parse clock (action_content line)
                    line t) as [d t'].
        rewrite (collect_no_indent _ Hall).
        rewrite IH by lia.
        destruct (emit chrono_parse clock (skipn (S i) lines) t').
        simpl. rewrite <- app_assoc. reflexivity.
    + rewrite IH by lia.
      destruct (emit chrono_parse clock (skipn (S i) lines) t); reflexivity.
  - apply Nat.ltb_ge in Hi. rewrite skipn_all2 by lia. simpl.
    rewrite app_nil_r. reflexivity.
Qed.

(** Whatever the lines, the outer loop ends within the steps it is granted
    and never reads past the last line. *)
Lemma scan_returns (lines : list jsstring) :
  forall fuel i items t,
    length lines - i < fuel ->
    exists r, scan chrono_parse clock fuel lines i items t = Returned r.
Proof.
  induction fuel as [|fuel IH]; intros i items t Hf; [lia|].
  cbn [scan]. destruct (i <? length lines) eqn:Hi.
  - apply Nat.ltb_lt in Hi.
    destruct (nth_error lines i) as [line|] eqn:E.
    2:{ apply nth_error_None in E. lia. }
    destruct (isAction line); [|apply IH; lia].
    cbv zeta. destruct (length (action_content line) <? 2); [apply IH; lia|].
    destruct (resolve_dueDate chrono_parse clock (action_content line) line t)
      as [d t'].
    destruct (collect_returns lines (S (length lines)) (i + 1) [] line)
      as [i' [st' [d' [Ec Hle]]]]; [lia|].
    rewrite Ec. apply IH. lia.
  - eexists. reflexivity.
Qed.

(** [extractActionItems] on a text, in closed form. *)
Lemma extract_emit (s : jsstring) (t : nat) :
  extractActionItems chrono_parse clock (JsString s) t
  = Returned (match s with
              | [] => ([], t)
              | _ :: _ => emit chrono_parse clock (split_lines s) t
              end).
Proof.
  unfold extractActionItems. destruct s as [|c s]; [reflexivity|].
  simpl truthy. simpl typeof_is_string. cbv iota beta. simpl negb. simpl orb.
  cbv iota.
  rewrite scan_emit; [|apply split_lines_no_indent|lia].
  simpl skipn. destruct (emit chrono_parse clock (split_lines (c :: s)) t).
  reflexivity.
Qed.

End ScanFacts.

(** ** The items of the extractor *)

Section EmitFacts.

Variable chrono_parse : jsstring -> Date -> list Date.
Variable clock : nat -> Date.

Lemma open_item_undated (line : jsstring) (t : nat) :
  option_map undated (fst (open_item chrono_parse clock line t))
  = open_undated line.
Proof.
  unfold open_item, open_undated.
  destruct (isAction line); [|reflexivity].
  destruct (length (action_content line) <? 2); [reflexivity|].
  destruct (resolve_dueDate chrono_parse clock (action_content line) line t).
  reflexivity.
Qed.

Lemma emit_undated_eq (lines : list jsstring) :
  forall t,
    map undated (fst (emit chrono_parse clock lines t)) = emit_undated lines.
Proof.
  induction lines as [|line rest IH]; intros t; [reflexivity|].
  simpl. pose proof (open_item_undated line t) as Ho.
  destruct (open_item chrono_parse clock line t) as [o t1].
  specialize (IH t1).
  destruct (emit chrono_parse clock rest t1) as [items t2].
  simpl in *. rewrite <- Ho.
  destruct o; simpl; rewrite IH; reflexivity.
Qed.

Lemma emit_from_open (lines : list jsstring) :
  forall t it,
    In it (fst (emit chrono_parse clock lines t)) ->
    exists line t0,
      In line lines
      /\ fst (open_item chrono_parse clock line t0) = Some it.
Proof.
  induction lines as [|line rest IH]; intros t it Hin; [destruct Hin|].
  simpl in Hin.
  destruct (open_item chrono_parse clock line t) as [o t1] eqn:Eo.
  destruct (emit chrono_parse clock rest t1) as [items t2] eqn:Ee.
  simpl in Hin.
  assert (Hrest : In it items ->
                  exists line0 t0, In line0 (line :: rest) /\
                    fst (open_item chrono_parse clock line0 t0) = Some it).
  { intros H. destruct (IH t1 it) as [l0 [t0 [H1 H2]]].
    - rewrite Ee. exact H.
    - exists l0, t0. split; [right; exact H1|exact H2]. }
  destruct o as [it0|]; [|exact (Hrest Hin)].
  destruct Hin as [E|Hin]; [|exact (Hrest Hin)].
  subst it0. exists line, t. split; [left; reflexivity|].
  rewrite Eo. reflexivity.
Qed.

Lemma open_item_shape (line : jsstring) (t : nat) (it : ExtractedActionItem) :
  fst (open_item chrono_parse clock line t) = Some it ->
  isAction line = true
  /\ 2 <= length (action_content line)
  /\ content it = slice_to 500 (action_content line)
  /\ description it = slice_to 2000 line
  /\ priority it = inferPriority line
  /\ subtasks it = [].
Proof.
  unfold open_item. destruct (isAction line); [|discriminate].
  destruct (Nat.ltb_spec (length (action_content line)) 2) as [Hlt|Hge];
    [discriminate|].
  destruct (resolve_dueDate chrono_parse clock (action_content line) line t).
  simpl. intros H. inversion H; subst. simpl. repeat split; auto.
Qed.

End EmitFacts.

Lemma action_content_trimmed (line : jsstring) :
  no_indent (action_content line).
Proof. unfold action_content. apply trim_no_indent. Qed.

Lemma trim_keeps_head (c : N) (r : jsstring) :
  is_space c = false -> trim (c :: r) <> [].
Proof.
  intros Hc. unfold trim, trimStart. rewrite dropWhile_fixed by exact Hc.
  destruct (trimEnd_head c r Hc) as [r' Hr']. rewrite Hr'. discriminate.
Qed.

Lemma sliced_content_bounds (c : jsstring) :
  no_indent c -> 2 <= length c ->
  trim (slice_to 500 c) <> [] /\ 2 <= length (slice_to 500 c) <= 500.
Proof.
  intros Hn Hlen. unfold slice_to. split.
  - destruct c as [|x c]; [simpl in Hlen; lia|]. simpl in Hn.
    change (firstn 500 (x :: c)) with (x :: firstn 499 c).
    apply trim_keeps_head. exact Hn.
  - rewrite length_firstn. lia.
Qed.

Section ExtractorClaims.

Variable chrono_parse : jsstring -> Date -> list Date.
Variable clock : nat -> Date.

Lemma extract_nonempty (s : jsstring) (t : nat) :
  s <> [] ->
  extractActionItems chrono_parse clock (JsString s) t
  = Returned (emit chrono_parse clock (split_lines s) t).
Proof.
  intros H. rewrite extract_emit. destruct s; [congruence|reflexivity].
Qed.

Lemma extract_non_string (v : JsValue) (t : nat) :
  typeof_is_string v = false ->
  extractActionItems chrono_parse clock v t = Returned ([], t).
Proof.
  intros H. unfold extractActionItems. rewrite H.
  rewrite orb_true_r. reflexivity.
Qed.

(** The call always returns. *)
Lemma extract_returns (text : JsValue) (t : nat) :
  exists items t', extractActionItems chrono_parse clock text t
                   = Returned (items, t').
Proof.
  destruct text as [| |b|z|s|];
    try (exists [], t; apply extract_non_string; reflexivity).
  rewrite extract_emit.
  destruct s as [|c s]; [exists [], t; reflexivity|].
  destruct (emit chrono_parse clock (split_lines (c :: s)) t) as [items t'].
  exists items, t'. reflexivity.
Qed.

Lemma emit_within_bounds (lines : list jsstring) (t : nat) :
  Forall (fun it => within_bounds it /\ from_line lines it /\ subtasks it = [])
         (fst (emit chrono_parse clock lines t)).
Proof.
  apply Forall_forall. intros it Hin.
  apply emit_from_open in Hin. destruct Hin as [line [t0 [Hl Ho]]].
  apply open_item_shape in Ho.
  destruct Ho as [Ha [Hlen [Hc [Hd [_ Hs]]]]].
  destruct (sliced_content_bounds _ (action_content_trimmed line) Hlen)
    as [Ht Hb].
  split; [|split].
  - unfold within_bounds. rewrite Hc, Hd, Hs. repeat split; try tauto.
    + unfold slice_to. apply length_firstn_le.
    + simpl. lia.
  - exists line. auto.
  - exact Hs.
Qed.

(** C1 (what the code does on the claim's input). The claim expects one
    item whose subtasks are "check tests" and "check docs". Every line is
    trimmed before the scan, so no line is ever seen as indented: the two
    continuation lines open items of their own and all three items have
    no subtasks. *)
Theorem review_notes_open_three_items (t : nat) :
  exists items t',
    extractActionItems chrono_parse clock (JsString review_notes) t
    = Returned (items, t')
    /\ map undated items
       = [ (lit "Review PR #42", lit "1. Review PR #42", 4%Z, []);
           (lit "check tests", lit "- check tests", 4%Z, []);
           (lit "check docs", lit "- check docs", 4%Z, []) ].
Proof.
  exists (fst (emit chrono_parse clock (split_lines review_notes) t)),
         (snd (emit chrono_parse clock (split_lines review_notes) t)).
  split.
  - rewrite extract_nonempty.
    + destruct (emit chrono_parse clock (split_lines review_notes) t);
        reflexivity.
    + intros H; vm_compute in H; discriminate.
  - rewrite emit_undated_eq. vm_compute. reflexivity.
Qed.

(** C2. Every call returns, and every item it returns has a content that
    is non-empty after trimming and 2 to 500 characters long, a description
    of at most 2000 characters and at most 20 subtasks; each item stems
    from a line whose stripped content has at least 2 characters. *)
Theorem emitted_items_within_bounds (text : JsValue) (t : nat) :
  exists items t',
    extractActionItems chrono_parse clock text t = Returned (items, t')
    /\ Forall within_bounds items
    /\ (forall s, text = JsString s ->
                  Forall (from_line (split_lines s)) items).
Proof.
  destruct text as [| |b|z|s|];
    try (exists [], t; split; [apply extract_non_string; reflexivity|];
         split; [constructor|intros; constructor]).
  rewrite extract_emit. destruct s as [|c s].
  - exists [], t. split; [reflexivity|]. split; [constructor|].
    intros; constructor.
  - pose proof (emit_within_bounds (split_lines (c :: s)) t) as H.
    destruct (emit chrono_parse clock (split_lines (c :: s)) t)
      as [items t'].
    exists items, t'. simpl in H. split; [reflexivity|]. split.
    + eapply Forall_impl; [|exact H]. intros it [Hb _]. exact Hb.
    + intros s0 E. inversion E; subst s0.
      eapply Forall_impl; [|exact H]. intros it [_ [Hf _]]. exact Hf.
Qed.

Lemma emit_nothing (lines : list jsstring) (t : nat) :
  Forall (fun l => isAction l = false) lines ->
  emit chrono_parse clock lines t = ([], t).
Proof.
  induction 1 as [|l lines Hl _ IH]; [reflexivity|].
  simpl. unfold open_item. rewrite Hl. rewrite IH. reflexivity.
Qed.

(** C8. Whatever the input, the call returns a sequence and throws
    nothing; for the empty text, for a value that is no string and for a
    text without a qualifying line the sequence is empty. *)
Theorem extract_never_throws (input : JsValue) (t : nat) :
  (exists items t',
      extractActionItems chrono_parse clock input t = Returned (items, t'))
  /\ (no_action_marker input ->
      extractActionItems chrono_parse clock input t = Returned ([], t)).
Proof.
  split; [apply extract_returns|].
  destruct input as [| |b|z|s|];
    try (intros _; apply extract_non_string; reflexivity).
  simpl. intros [E|H].
  - subst s. reflexivity.
  - rewrite extract_emit. destruct s; [reflexivity|].
    rewrite emit_nothing by exact H. reflexivity.
Qed.

End ExtractorClaims.

(** ** The clock *)

Section TwoCalls.

Variable chrono_parse : jsstring -> Date -> list Date.
Variables clock1 clock2 : nat -> Date.

Lemma agree_shift (t1 t2 k : nat) :
  agree clock1 clock2 t1 t2 -> agree clock1 clock2 (t1 + k) (t2 + k).
Proof.
  intros H n. rewrite <- !Nat.add_assoc. apply H.
Qed.

Lemma parseDueDate_agree (s : jsstring) (t1 t2 : nat) :
  agree clock1 clock2 t1 t2 ->
  exists r k,
    parseDueDate chrono_parse clock1 s t1 = (r, t1 + k)
    /\ parseDueDate chrono_parse clock2 s t2 = (r, t2 + k).
Proof.
  intros H. unfold parseDueDate.
  destruct (negb (truthy (JsString s))
            || negb (typeof_is_string (JsString s))).
  { exists None, 0. rewrite !Nat.add_0_r. auto. }
  destruct (negb (truthy (JsString (trim s)))).
  { exists None, 0. rewrite !Nat.add_0_r. auto. }
  pose proof (H 0) as H0. rewrite !Nat.add_0_r in H0. rewrite <- H0.
  destruct (chrono_parse (trim s) (clock1 t1)) as [|first rest].
  - destruct (test EOD_PATTERN (trim s)).
    + exists (Some (toDateString (clock1 t1))), 1.
      rewrite !Nat.add_1_r. auto.
    + exists None, 1. rewrite !Nat.add_1_r. auto.
  - exists (Some (toDateString first)), 1. rewrite !Nat.add_1_r. auto.
Qed.

Lemma resolve_dueDate_agree (c line : jsstring) (t1 t2 : nat) :
  agree clock1 clock2 t1 t2 ->
  exists r k,
    resolve_dueDate chrono_parse clock1 c line t1 = (r, t1 + k)
    /\ resolve_dueDate chrono_parse clock2 c line t2 = (r, t2 + k).
Proof.
  intros H. unfold resolve_dueDate.
  destruct (parseDueDate_agree c t1 t2 H) as [r [k [E1 E2]]]. rewrite E1, E2.
  destruct r as [d|]; [exists (Some d), k; auto|].
  destruct (parseDueDate_agree line _ _ (agree_shift t1 t2 k H))
    as [r' [k' [F1 F2]]].
  rewrite F1, F2. exists r', (k + k'). rewrite !Nat.add_assoc.
  destruct r'; auto.
Qed.

Lemma emit_agree (lines : list jsstring) :
  forall t1 t2,
    agree clock1 clock2 t1 t2 ->
    exists items k,
      emit chrono_parse clock1 lines t1 = (items, t1 + k)
      /\ emit chrono_parse clock2 lines t2 = (items, t2 + k).
Proof.
  induction lines as [|line rest IH]; intros t1 t2 H.
  - exists [], 0. simpl. rewrite !Nat.add_0_r. auto.
  - simpl. unfold open_item. destruct (isAction line).
    + destruct (length (action_content line) <? 2).
      * destruct (IH t1 t2 H) as [items [k [E1 E2]]]. rewrite E1, E2.
        exists items, k. auto.
      * destruct (resolve_dueDate_agree (action_content line) line t1 t2 H)
          as [r [k [E1 E2]]].
        rewrite E1, E2.
        destruct (IH _ _ (agree_shift t1 t2 k H)) as [items [k' [F1 F2]]].
        rewrite F1, F2. eexists; exists (k + k').
        rewrite !Nat.add_assoc. split; reflexivity.
    + destruct (IH t1 t2 H) as [items [k [E1 E2]]]. rewrite E1, E2.
      exists items, k. auto.
Qed.

End TwoCalls.

(** C9 (as amended). The extractor keeps no state of its own, but it reads
    the clock: two calls on the same text whose clock readings agree return
    the same sequence, and the content, description, priority and subtasks
    of the items are the same whenever the calls are made and whatever the
    date parser finds; only the due dates follow the date of the call. *)
Theorem extract_repeatable_under_same_clock
        (chrono_parse : jsstring -> Date -> list Date)
        (clock1 clock2 : nat -> Date) (text : JsValue) (t1 t2 : nat) :
  (agree clock1 clock2 t1 t2 ->
   exists items k,
     extractActionItems chrono_parse clock1 text t1 = Returned (items, t1 + k)
     /\ extractActionItems chrono_parse clock2 text t2
        = Returned (items, t2 + k))
  /\ (forall chrono_parse' : jsstring -> Date -> list Date,
      exists items1 items2 u1 u2,
        extractActionItems chrono_parse clock1 text t1 = Returned (items1, u1)
        /\ extractActionItems chrono_parse' clock2 text t2
           = Returned (items2, u2)
        /\ map undated items1 = map undated items2).
Proof.
  split.
  - intros H.
    destruct text as [| |b|z|s|];
      try (exists [], 0; rewrite !Nat.add_0_r;
           split; apply extract_non_string; reflexivity).
    rewrite !extract_emit. destruct s as [|c s].
    + exists [], 0. rewrite !Nat.add_0_r. auto.
    + destruct (emit_agree chrono_parse clock1 clock2 (split_lines (c :: s))
                  t1 t2 H)
        as [items [k [E1 E2]]].
      rewrite E1, E2. exists items, k. auto.
  - intros chrono_parse'.
    destruct text as [| |b|z|s|];
      try (exists [], [], t1, t2;
           split; [apply extract_non_string; reflexivity|];
           split; [apply extract_non_string; reflexivity|reflexivity]).
    rewrite !extract_emit. destruct s as [|c s].
    + exists [], [], t1, t2. auto.
    + pose proof (emit_undated_eq chrono_parse clock1 (split_lines (c :: s)) t1)
        as H1.
      pose proof (emit_undated_eq chrono_parse' clock2 (split_lines (c :: s)) t2)
        as H2.
      destruct (emit chrono_parse clock1 (split_lines (c :: s)) t1)
        as [items1 u1].
      destruct (emit chrono_parse' clock2 (split_lines (c :: s)) t2)
        as [items2 u2].
      exists items1, items2, u1, u2. simpl in *.
      rewrite H1, H2. auto.
Qed.

(** C9 (counterexample). One text, one date parser, two calls, the first
    just before midnight and the second just after: the due dates differ. *)
Lemma extract_follows_the_clock :
  extractActionItems no_chrono_match midnight_clock (JsString eod_note) 0
  = Returned ([ {| content := lit "wrap up by EOD";
                   description := lit "- wrap up by EOD";
                   dueDate := Some (lit "2024-06-03");
                   priority := 4%Z;
                   subtasks := [] |} ], 1)
  /\ extractActionItems no_chrono_match midnight_clock (JsString eod_note) 1
     = Returned ([ {| content := lit "wrap up by EOD";
                      description := lit "- wrap up by EOD";
                      dueDate := Some (lit "2024-06-04");
                      priority := 4%Z;
                      subtasks := [] |} ], 2)
  /\ lit "2024-06-03" <> lit "2024-06-04".
Proof.
  split; [vm_compute; reflexivity|].
  split; [vm_compute; reflexivity|].
  intros H; vm_compute in H; discriminate.
Qed.

Lemma extract_repeatable_witness :
  agree midnight_clock midnight_clock 1 2
  /\ exists items k,
       extractActionItems no_chrono_match midnight_clock (JsString eod_note) 1
       = Returned (items, 1 + k)
       /\ extractActionItems no_chrono_match midnight_clock (JsString eod_note) 2
          = Returned (items, 2 + k).
Proof.
  split.
  - intros n. reflexivity.
  - apply (proj1 (extract_repeatable_under_same_clock
                    no_chrono_match midnight_clock midnight_clock
                    (JsString eod_note) 1 2)).
    intros n. reflexivity.
Defined.

Lemma extract_never_throws_witness :
  no_action_marker (JsString (lit "Meeting went well"))
  /\ extractActionItems no_chrono_match midnight_clock
       (JsString (lit "Meeting went well")) 0 = Returned ([], 0).
Proof.
  assert (H : no_action_marker (JsString (lit "Meeting went well"))).
  { right. vm_compute. repeat constructor. }
  split; [exact H|].
  apply (proj2 (extract_never_throws no_chrono_match midnight_clock
                  (JsString (lit "Meeting went well")) 0)).
  exact H.
Defined.

(** ** The priority classifier *)

Lemma has_word_test (ws : list jsstring) (line : jsstring) :
  test (Seq WordB (Seq (AltList (map StrI ws)) WordB)) line = true
  <-> has_word ws line.
Proof. apply test_words. Qed.

(** C3. The classifier answers 1 when the line holds an urgency word or
    phrase as a whole word, whatever its case; otherwise 2 when it holds an
    elevated word; otherwise 4. It answers nothing else, 3 in particular,
    and urgency wins when both kinds are present. *)
Theorem inferPriority_classifies (line : jsstring) :
  ((has_word urgent_words line /\ inferPriority line = 1%Z)
   \/ (~ has_word urgent_words line /\ has_word important_words line
       /\ inferPriority line = 2%Z)
   \/ (~ has_word urgent_words line /\ ~ has_word important_words line
       /\ inferPriority line = 4%Z))
  /\ inferPriority line <> 3%Z
  /\ In (inferPriority line) [1%Z; 2%Z; 4%Z].
Proof.
  unfold inferPriority, URGENT_PATTERN, IMPORTANT_PATTERN.
  pose proof (has_word_test urgent_words line) as Hu.
  pose proof (has_word_test important_words line) as Hi.
  destruct (test (Seq WordB (Seq (AltList (map StrI urgent_words)) WordB)) line).
  - split; [left; split; [apply Hu|]; reflexivity|].
    split; [discriminate|simpl; auto].
  - assert (Hnu : ~ has_word urgent_words line).
    { intros H. apply Hu in H. discriminate. }
    destruct (test (Seq WordB (Seq (AltList (map StrI important_words)) WordB))
                line).
    + split; [right; left; split; [exact Hnu|split; [apply Hi|]; reflexivity]|].
      split; [discriminate|simpl; auto].
    + split; [right; right; split; [exact Hnu|split; [|reflexivity]]|].
      * intros H. apply Hi in H. discriminate.
      * split; [discriminate|simpl; auto].
Qed.

Example inferPriority_examples :
  map inferPriority
      [lit "URGENT: fix the build"; lit "p1 and important";
       lit "Important, soon"; lit "send the notes"; lit "surgently"]
  = [1%Z; 1%Z; 2%Z; 4%Z; 4%Z].
Proof. vm_compute. reflexivity. Qed.

(** ** The due date resolver *)

Lemma is_space_letter (x : N) : (65 <= x <= 122)%N -> is_space x = false.
Proof.
  intros H. unfold is_space. decide_comparisons; reflexivity.
Qed.

Lemma canonicalize_letter (c x : N) :
  is_upper c || is_lower c = true ->
  canonicalize x = canonicalize c -> (65 <= x <= 122)%N.
Proof.
  unfold canonicalize, is_upper, is_lower. intros Hc Hx.
  decide_comparisons; simpl in *; try discriminate; lia.
Qed.

Lemma same_letters_head (m w : jsstring) (c : N) (w' : jsstring) :
  same_letters m w -> w = c :: w' ->
  exists x m', m = x :: m' /\ canonicalize x = canonicalize c.
Proof.
  unfold same_letters. intros H E. subst w.
  destruct m as [|x m']; [discriminate|].
  simpl in H. inversion H. eauto.
Qed.

Lemma same_letters_last (m w : jsstring) (c : N) (w' : jsstring) :
  same_letters m w -> w = w' ++ [c] ->
  exists m' y, m = m' ++ [y] /\ canonicalize y = canonicalize c.
Proof.
  intros H E.
  assert (Hr : same_letters (rev m) (rev w)).
  { unfold same_letters in *. rewrite !map_rev, H. reflexivity. }
  subst w. rewrite rev_app_distr in Hr. simpl in Hr.
  destruct (same_letters_head _ _ _ _ Hr eq_refl) as [y [r [E Hy]]].
  exists (rev r), y. split; [|exact Hy].
  rewrite <- (rev_involutive m), E. reflexivity.
Qed.

Lemma solid_letters (w : jsstring) (c d : N) (w1 w2 : jsstring) :
  w = c :: w1 -> w = w2 ++ [d] ->
  is_upper c || is_lower c = true -> is_upper d || is_lower d = true ->
  solid w.
Proof.
  intros E1 E2 Hc Hd m Hm. split.
  - destruct (same_letters_head _ _ _ _ Hm E1) as [x [m' [E Hx]]].
    exists x, m'. split; [exact E|].
    apply is_space_letter. exact (canonicalize_letter c x Hc Hx).
  - destruct (same_letters_last _ _ _ _ Hm E2) as [m' [y [E Hy]]].
    exists m', y. split; [exact E|].
    apply is_space_letter. exact (canonicalize_letter d y Hd Hy).
Qed.

Lemma eod_alternatives_solid : Forall solid eod_alternatives.
Proof.
  unfold eod_alternatives.
  apply Forall_cons; [|apply Forall_cons; [|apply Forall_cons; [|apply Forall_nil]]].
  - apply (solid_letters (lit "eod") 101 100 (lit "od") (lit "eo"));
      reflexivity.
  - apply (solid_letters (lit "end of day") 101 121 (lit "nd of day")
                         (lit "end of da")); reflexivity.
  - apply (solid_letters (lit "e.o.d") 101 100 (lit ".o.d") (lit "e.o."));
      reflexivity.
Qed.

Lemma trimStart_keeps (pre rest : jsstring) (x : N) :
  is_space x = false ->
  exists pre', trimStart (pre ++ x :: rest) = pre' ++ x :: rest.
Proof. intros H. apply dropWhile_stop. exact H. Qed.

Lemma trimEnd_keeps (front post : jsstring) (y : N) :
  is_space y = false ->
  exists post', trimEnd (front ++ y :: post) = front ++ y :: post'.
Proof.
  intros H. unfold trimEnd. rewrite rev_app_distr. simpl.
  rewrite <- app_assoc. simpl.
  destruct (dropWhile_stop is_space (rev post) y (rev front) H) as [l' E].
  rewrite E. exists (rev l'). rewrite rev_app_distr. simpl.
  rewrite rev_involutive, <- app_assoc. reflexivity.
Qed.

(** Trimming neither adds nor removes an occurrence of a solid word. *)
Lemma contains_ci_trim (text w : jsstring) :
  solid w -> (contains_ci (trim text) w <-> contains_ci text w).
Proof.
  intros Hw. split.
  - intros [pre [m [post [E Hm]]]].
    destruct (trim_inside text) as [l [r [Ht _]]].
    exists (l ++ pre), m, (post ++ r). split; [|exact Hm].
    rewrite Ht, E. rewrite <- !app_assoc. reflexivity.
  - intros [pre [m [post [E Hm]]]].
    destruct (Hw m Hm) as [[x [m1 [E1 Hx]]] [m2 [y [E2 Hy]]]].
    unfold trim.
    destruct (trimStart_keeps pre (m1 ++ post) x Hx) as [pre' Hs].
    assert (Et : trimStart text = pre' ++ m ++ post).
    { rewrite E, E1. simpl. exact Hs. }
    rewrite Et.
    destruct (trimEnd_keeps (pre' ++ m2) post y Hy) as [post' He].
    assert (Ee : trimEnd (pre' ++ m ++ post) = pre' ++ m ++ post').
    { rewrite E2, <- !app_assoc. simpl. rewrite <- !app_assoc in He. exact He. }
    rewrite Ee. exists pre', m, post'. auto.
Qed.

Lemma mentions_trim (text : jsstring) :
  mentions eod_alternatives (trim text) <-> mentions eod_alternatives text.
Proof.
  pose proof eod_alternatives_solid as Hs. rewrite Forall_forall in Hs.
  split; intros [w [Hin Hc]]; exists w; split; auto;
    apply (contains_ci_trim text w (Hs w Hin)); exact Hc.
Qed.

Lemma EOD_PATTERN_mentions (text : jsstring) :
  test EOD_PATTERN (trim text) = true <-> mentions eod_alternatives text.
Proof.
  unfold EOD_PATTERN. rewrite test_literals. apply mentions_trim.
Qed.

Lemma mentions_nonblank (text : jsstring) :
  mentions eod_alternatives text -> trim text <> [] /\ text <> [].
Proof.
  intros H. pose proof H as H'. apply mentions_trim in H.
  destruct H as [w [Hin [pre [m [post [E Hm]]]]]].
  destruct H' as [w' [Hin' [pre' [m' [post' [E' Hm']]]]]].
  pose proof eod_alternatives_solid as Hs. rewrite Forall_forall in Hs.
  destruct (Hs w Hin m Hm) as [[x [m1 [E1 _]]] _].
  destruct (Hs w' Hin' m' Hm') as [[x' [m1' [E1' _]]] _].
  split.
  - rewrite E, E1. destruct pre; discriminate.
  - rewrite E', E1'. destruct pre'; discriminate.
Qed.

Lemma toDateString_ignores_time (d d' : Date) :
  getFullYear d' = getFullYear d -> getMonth d' = getMonth d ->
  getDate d' = getDate d ->
  toDateString d' = toDateString d.
Proof. intros Hy Hm Hd. unfold toDateString. rewrite Hy, Hm, Hd. reflexivity. Qed.

Lemma blank_or_not (text : jsstring) : trim text = [] \/ trim text <> [].
Proof. destruct (trim text); [left; reflexivity|right; discriminate]. Qed.

Section DueDateClaims.

Variable chrono_parse : jsstring -> Date -> list Date.
Variable clock : nat -> Date.

Lemma parseDueDate_blank (text : jsstring) (t : nat) :
  trim text = [] -> parseDueDate chrono_parse clock text t = (None, t).
Proof.
  intros H. unfold parseDueDate. rewrite H. simpl.
  destruct text; reflexivity.
Qed.

Lemma parseDueDate_nonblank (text : jsstring) (t : nat) :
  trim text <> [] ->
  parseDueDate chrono_parse clock text t
  = match chrono_parse (trim text) (clock t) with
    | [] => if test EOD_PATTERN (trim text)
            then (Some (toDateString (clock t)), S t)
            else (None, S t)
    | first :: _ => (Some (toDateString first), S t)
    end.
Proof.
  intros H. unfold parseDueDate.
  destruct text as [|c text]; [exfalso; apply H; reflexivity|].
  simpl truthy at 1. simpl typeof_is_string. simpl negb. simpl orb.
  cbv iota. destruct (trim (c :: text)); [congruence|reflexivity].
Qed.

(** C4 (as amended). When the date parser finds nothing in the trimmed
    text, the resolver answers the calendar date of the clock reading it
    made if the text contains "eod", "end of day" or "e.o.d" (no final
    period needed) in any case, and nothing otherwise. Whatever date it
    answers is the year-month-day rendering of a [Date], the same for all
    times of that day. *)
Theorem parseDueDate_without_match (text : jsstring) (t : nat) :
  (chrono_parse (trim text) (clock t) = [] ->
   (mentions eod_alternatives text ->
    fst (parseDueDate chrono_parse clock text t)
    = Some (toDateString (clock t)))
   /\ (~ mentions eod_alternatives text ->
       fst (parseDueDate chrono_parse clock text t) = None))
  /\ (forall s,
         fst (parseDueDate chrono_parse clock text t) = Some s ->
         exists d,
           s = toDateString d
           /\ forall d', getFullYear d' = getFullYear d ->
                         getMonth d' = getMonth d ->
                         getDate d' = getDate d ->
                         toDateString d' = s).
Proof.
  split.
  - intros Hnone. split.
    + intros Hm. destruct (mentions_nonblank text Hm) as [Ht _].
      rewrite parseDueDate_nonblank by exact Ht. rewrite Hnone.
      apply EOD_PATTERN_mentions in Hm. rewrite Hm. reflexivity.
    + intros Hm. destruct (blank_or_not text) as [E|E].
      * rewrite parseDueDate_blank by exact E. reflexivity.
      * rewrite parseDueDate_nonblank by exact E.
        rewrite Hnone.
        destruct (test EOD_PATTERN (trim text)) eqn:Et; [|reflexivity].
        exfalso. apply Hm. apply EOD_PATTERN_mentions. exact Et.
  - intros s Hs. destruct (blank_or_not text) as [E|E].
    + rewrite parseDueDate_blank in Hs by exact E. discriminate.
    + rewrite parseDueDate_nonblank in Hs by exact E.
      destruct (chrono_parse (trim text) (clock t)) as [|first rest].
      * destruct (test EOD_PATTERN (trim text)); [|discriminate].
        simpl in Hs. inversion Hs; subst s. exists (clock t).
        split; [reflexivity|apply toDateString_ignores_time].
      * simpl in Hs. inversion Hs; subst s. exists first.
        split; [reflexivity|apply toDateString_ignores_time].
Qed.

End DueDateClaims.

Lemma mentions_test (ws : list jsstring) (text : jsstring) :
  mentions ws text <-> test (AltList (map StrI ws)) text = true.
Proof. symmetry. apply test_literals. Qed.

(** C4 (counterexample). "e.o.d" holds none of the markers "eod", "end of
    day" and "e.o.d." of the claim, the date parser finds nothing, and yet
    the resolver answers the date of the day. *)
Lemma eod_without_final_period :
  no_chrono_match (trim (lit "e.o.d")) (midnight_clock 0) = []
  /\ ~ mentions claimed_eod_markers (lit "e.o.d")
  /\ fst (parseDueDate no_chrono_match midnight_clock (lit "e.o.d") 0)
     = Some (lit "2024-06-03").
Proof.
  split; [reflexivity|]. split.
  - intros H. apply mentions_test in H. vm_compute in H. discriminate.
  - vm_compute. reflexivity.
Qed.

Lemma parseDueDate_without_match_witness :
  no_chrono_match (trim (lit "wrap up by EOD")) (midnight_clock 0) = []
  /\ mentions eod_alternatives (lit "wrap up by EOD")
  /\ fst (parseDueDate no_chrono_match midnight_clock (lit "wrap up by EOD") 0)
     = Some (lit "2024-06-03").
Proof.
  assert (Hm : mentions eod_alternatives (lit "wrap up by EOD")).
  { apply mentions_test. vm_compute. reflexivity. }
  split; [reflexivity|]. split; [exact Hm|].
  apply (proj1 (proj1 (parseDueDate_without_match
                         no_chrono_match midnight_clock
                         (lit "wrap up by EOD") 0) eq_refl)).
  exact Hm.
Defined.

(** ** Substrings and searches *)

Lemma startsWith_spec (p s : jsstring) :
  startsWith s p = true <-> exists post, s = p ++ post.
Proof.
  revert s. induction p as [|x p IH]; intros s; simpl.
  - split; [intros _; exists s; reflexivity|reflexivity].
  - destruct s as [|c s].
    + split; [discriminate|]. intros [post H]; discriminate.
    + rewrite andb_true_iff, N.eqb_eq, IH. split.
      * intros [E [post H]]. subst. exists post. reflexivity.
      * intros [post H]. inversion H; subst. split; [reflexivity|eauto].
Qed.

Lemma includes_spec (s sub : jsstring) :
  includes s sub = true <-> contains s sub.
Proof.
  unfold contains. induction s as [|c s IH].
  - simpl. rewrite orb_false_r, startsWith_spec. split.
    + intros [post H]. exists [], post. exact H.
    + intros [pre [post H]]. destruct pre; [|discriminate].
      exists post. exact H.
  - change (includes (c :: s) sub)
      with (startsWith (c :: s) sub || includes s sub).
    rewrite orb_true_iff, startsWith_spec, IH. split.
    + intros [[post H]|[pre [post H]]].
      * exists [], post. exact H.
      * exists (c :: pre), post. simpl. rewrite H. reflexivity.
    + intros [pre [post H]]. destruct pre as [|x pre].
      * left. exists post. exact H.
      * right. inversion H; subst. exists pre, post. reflexivity.
Qed.

Lemma includes_false (s sub : jsstring) :
  includes s sub = false <-> ~ contains s sub.
Proof.
  rewrite <- includes_spec. destruct (includes s sub); split; intros H;
    try reflexivity; try discriminate; try congruence.
Qed.

Lemma find_first {A} (f : A -> bool) (l1 l2 : list A) (x : A) :
  f x = true -> (forall y, In y l1 -> f y = false) ->
  find f (l1 ++ x :: l2) = Some x.
Proof.
  intros Hx. induction l1 as [|y l1 IH]; intros Hl; simpl.
  - rewrite Hx. reflexivity.
  - rewrite (Hl y) by (left; reflexivity). apply IH.
    intros z Hz. apply Hl. right. exact Hz.
Qed.

Lemma find_absent {A} (f : A -> bool) (l : list A) :
  (forall y, In y l -> f y = false) -> find f l = None.
Proof.
  induction l as [|y l IH]; intros Hl; simpl; [reflexivity|].
  rewrite (Hl y) by (left; reflexivity). apply IH.
  intros z Hz. apply Hl. right. exact Hz.
Qed.

Lemma existsb_spec {A} (f : A -> bool) (P : A -> Prop) (l : list A) :
  (forall x, f x = true <-> P x) ->
  (existsb f l = true <-> exists x, In x l /\ P x).
Proof.
  intros H. rewrite existsb_exists. split; intros [x [Hin Hx]];
    exists x; split; auto; apply H; exact Hx.
Qed.

Lemma bool_false_iff (b : bool) (P : Prop) :
  (b = true <-> P) -> (b = false <-> ~ P).
Proof.
  intros H. destruct b; split; intros H'; try reflexivity; try discriminate.
  - exfalso. apply H'. apply H. reflexivity.
  - intros HP. apply H in HP. discriminate.
Qed.

Section RouterFacts.

Variable toLowerCase : jsstring -> jsstring.

Lemma hint_matches_spec (hint : jsstring) (p : ProjectWithSections) :
  hint_matches toLowerCase (toLowerCase (trim hint)) p = true
  <-> name_matches_hint toLowerCase hint p.
Proof.
  unfold hint_matches, name_matches_hint.
  rewrite orb_true_iff, !includes_spec. reflexivity.
Qed.

Lemma section_test_spec (nc : jsstring) (words : list jsstring)
      (sec : TodoistSection) :
  includes nc (toLowerCase (section_name sec))
  || existsb (fun w => (2 <=? length w)
                       && includes (toLowerCase (section_name sec)) w) words
  = true
  <-> section_matches toLowerCase nc words sec.
Proof.
  unfold section_matches. rewrite orb_true_iff, includes_spec.
  rewrite (existsb_spec _
             (fun w => 2 <= length w
                       /\ contains (toLowerCase (section_name sec)) w)).
  - reflexivity.
  - intros w. rewrite andb_true_iff, Nat.leb_le, includes_spec. reflexivity.
Qed.

Lemma matchSection_unfold (nc : jsstring) (words : list jsstring)
      (sec : TodoistSection) (rest : list TodoistSection) :
  matchSection toLowerCase nc words (sec :: rest)
  = if includes nc (toLowerCase (section_name sec))
       || existsb (fun w => (2 <=? length w)
                            && includes (toLowerCase (section_name sec)) w)
                  words
    then Some (section_id sec)
    else matchSection toLowerCase nc words rest.
Proof.
  simpl. destruct (includes nc (toLowerCase (section_name sec)));
    reflexivity.
Qed.

Lemma matchSection_first (nc : jsstring) (words : list jsstring)
      (sects : list TodoistSection) (sec : TodoistSection) :
  first_such (section_matches toLowerCase nc words) sects sec ->
  matchSection toLowerCase nc words sects = Some (section_id sec).
Proof.
  intros [l1 [l2 [E [Hs Hl]]]]. subst sects.
  induction l1 as [|y l1 IH].
  - simpl app. rewrite matchSection_unfold.
    apply section_test_spec in Hs. rewrite Hs. reflexivity.
  - simpl app. rewrite matchSection_unfold.
    assert (Hy : ~ section_matches toLowerCase nc words y)
      by (apply Hl; left; reflexivity).
    apply (bool_false_iff _ _ (section_test_spec nc words y)) in Hy.
    rewrite Hy. apply IH. intros z Hz. apply Hl. right. exact Hz.
Qed.

Lemma matchSection_none (nc : jsstring) (words : list jsstring)
      (sects : list TodoistSection) :
  (forall sec, In sec sects -> ~ section_matches toLowerCase nc words sec) ->
  matchSection toLowerCase nc words sects = None.
Proof.
  induction sects as [|y l IH]; intros Hl; [reflexivity|].
  rewrite matchSection_unfold.
  assert (Hy : ~ section_matches toLowerCase nc words y)
    by (apply Hl; left; reflexivity).
  apply (bool_false_iff _ _ (section_test_spec nc words y)) in Hy.
  rewrite Hy. apply IH. intros z Hz. apply Hl. right. exact Hz.
Qed.

(** A section the helper answers is one of the sections it was given. *)
Lemma matchSection_member (nc : jsstring) (words : list jsstring)
      (sects : list TodoistSection) (sid : jsstring) :
  matchSection toLowerCase nc words sects = Some sid ->
  exists sec, In sec sects /\ section_id sec = sid
              /\ section_matches toLowerCase nc words sec.
Proof.
  induction sects as [|y l IH]; [discriminate|].
  rewrite matchSection_unfold.
  destruct (includes nc (toLowerCase (section_name y))
            || existsb (fun w => (2 <=? length w)
                                 && includes (toLowerCase (section_name y)) w)
                       words) eqn:E.
  - intros H. inversion H; subst. exists y.
    split; [left; reflexivity|]. split; [reflexivity|].
    apply section_test_spec. exact E.
  - intros H. destruct (IH H) as [sec [Hin Hs]].
    exists sec. split; [right; exact Hin|exact Hs].
Qed.

Lemma find_byHint_first (projects : list ProjectWithSections)
      (hint : jsstring) (p : ProjectWithSections) :
  trim hint <> [] ->
  first_such (name_matches_hint toLowerCase hint) projects p ->
  find_byHint toLowerCase projects (Some hint) = Some p.
Proof.
  intros Hb [l1 [l2 [E [Hp Hl]]]]. unfold find_byHint.
  assert (Hh : truthy (JsString hint) && truthy (JsString (trim hint)) = true).
  { destruct hint as [|c h]; [exfalso; apply Hb; reflexivity|].
    simpl. destruct (trim (c :: h)); [congruence|reflexivity]. }
  rewrite Hh. subst projects. apply find_first.
  - apply hint_matches_spec. exact Hp.
  - intros y Hy. apply (bool_false_iff _ _ (hint_matches_spec hint y)).
    apply Hl. exact Hy.
Qed.

End RouterFacts.

(** ** The router *)

Section RouterClaims.

Variable toLowerCase : jsstring -> jsstring.

Lemma route_hinted (content : jsstring) (projects : list ProjectWithSections)
      (hint : option jsstring) (p : ProjectWithSections) :
  find_byHint toLowerCase projects hint = Some p ->
  routeTask toLowerCase content projects hint
  = {| projectId := project_id p;
       sectionId :=
         matchSection toLowerCase (normalize toLowerCase content)
           (tokenize (normalize toLowerCase content)) (sections p) |}.
Proof. intros H. unfold routeTask. rewrite H. reflexivity. Qed.

Lemma route_not_hinted (content : jsstring)
      (projects : list ProjectWithSections) (hint : option jsstring) :
  find_byHint toLowerCase projects hint = None ->
  routeTask toLowerCase content projects hint
  = route_unhinted toLowerCase (normalize toLowerCase content)
      (tokenize (normalize toLowerCase content)) projects.
Proof. intros H. unfold routeTask. rewrite H. reflexivity. Qed.

Lemma rule_fires_spec (nc : jsstring) (keywords : list jsstring) :
  existsb (fun k => includes nc k) keywords = true <-> rule_fires nc keywords.
Proof.
  unfold rule_fires. apply existsb_spec. intros k. apply includes_spec.
Qed.

Lemma name_contains_spec (target : jsstring) (p : ProjectWithSections) :
  includes (toLowerCase (project_name p)) target = true
  <-> name_contains toLowerCase target p.
Proof. apply includes_spec. Qed.

Lemma named_inbox_spec (p : ProjectWithSections) :
  jsstring_eqb (toLowerCase (project_name p)) (lit "inbox")
  || includes (toLowerCase (project_name p)) (lit "inbox") = true
  <-> named_inbox toLowerCase p.
Proof.
  unfold named_inbox, jsstring_eqb. rewrite orb_true_iff, includes_spec.
  destruct (list_eq_dec N.eq_dec (toLowerCase (project_name p)) (lit "inbox"));
    split; intros [H|H]; auto; discriminate.
Qed.

Lemma fallback_inbox (projects : list ProjectWithSections)
      (p : ProjectWithSections) :
  first_such (named_inbox toLowerCase) projects p ->
  fallback toLowerCase projects
  = {| projectId := project_id p; sectionId := None |}.
Proof.
  intros [l1 [l2 [E [Hp Hl]]]]. unfold fallback. subst projects.
  rewrite find_first; [reflexivity| |].
  - apply named_inbox_spec. exact Hp.
  - intros y Hy. apply (bool_false_iff _ _ (named_inbox_spec y)).
    apply Hl. exact Hy.
Qed.

Lemma fallback_first (first : ProjectWithSections)
      (rest : list ProjectWithSections) :
  (forall p, In p (first :: rest) -> ~ named_inbox toLowerCase p) ->
  fallback toLowerCase (first :: rest)
  = {| projectId := project_id first; sectionId := None |}.
Proof.
  intros H. unfold fallback. rewrite find_absent; [reflexivity|].
  intros y Hy. apply (bool_false_iff _ _ (named_inbox_spec y)).
  apply H. exact Hy.
Qed.

Lemma pattern_stage_nil (nc : jsstring) (words : list jsstring)
      (best : Candidate) :
  pattern_stage toLowerCase nc words [] best = best.
Proof.
  unfold pattern_stage.
  assert (H : forall rules b,
             fold_left (pattern_step toLowerCase nc words []) rules b = b).
  { induction rules as [|[ks tgt] rules IH]; intros b; [reflexivity|].
    simpl. destruct (existsb (fun k => includes nc k) ks); simpl; apply IH. }
  apply H.
Qed.

Lemma route_no_projects (content : jsstring) (hint : option jsstring) :
  routeTask toLowerCase content [] hint
  = {| projectId := []; sectionId := None |}.
Proof.
  rewrite route_not_hinted.
  - unfold route_unhinted, keyword_stage. simpl fold_left.
    rewrite pattern_stage_nil. reflexivity.
  - unfold find_byHint. destruct hint as [h|]; [|reflexivity].
    destruct (truthy (JsString h) && truthy (JsString (trim h)));
      reflexivity.
Qed.

End RouterClaims.

(** C5. A non-blank hint whose trimmed, lowercased text contains the
    lowercased name of a bucket, or is contained in it, settles the route:
    the first such bucket of the list is returned with the sub-bucket that
    the shared helper finds in that bucket for the content (the first
    matching one, none if none matches), whatever the later stages would
    have chosen. So "Review PR #42" with the hint "Engineering" goes to
    Engineering / Code Review. *)
Theorem hint_match_wins :
  (forall (toLowerCase : jsstring -> jsstring) (content : jsstring)
          (projects : list ProjectWithSections) (hint : jsstring)
          (p : ProjectWithSections),
      trim hint <> [] ->
      first_such (name_matches_hint toLowerCase hint) projects p ->
      let nc := normalize toLowerCase content in
      let r := routeTask toLowerCase content projects (Some hint) in
      projectId r = project_id p
      /\ sectionId r = matchSection toLowerCase nc (tokenize nc) (sections p)
      /\ (forall sec,
             first_such (section_matches toLowerCase nc (tokenize nc))
                        (sections p) sec ->
             sectionId r = Some (section_id sec))
      /\ ((forall sec, In sec (sections p) ->
                       ~ section_matches toLowerCase nc (tokenize nc) sec) ->
          sectionId r = None))
  /\ routeTask ascii_toLowerCase (lit "Review PR #42") [engineering; finance]
       (Some (lit "Engineering"))
     = {| projectId := project_id engineering;
          sectionId := Some (section_id code_review) |}.
Proof.
  split.
  - intros tl content projects hint p Hb Hp nc r.
    assert (Er : r = {| projectId := project_id p;
                        sectionId := matchSection tl nc (tokenize nc)
                                       (sections p) |}).
    { apply route_hinted. apply find_byHint_first; assumption. }
    rewrite Er. simpl. split; [reflexivity|]. split; [reflexivity|]. split.
    + intros sec Hs. apply matchSection_first. exact Hs.
    + intros Hn. apply matchSection_none. exact Hn.
  - vm_compute. reflexivity.
Qed.

Lemma hint_match_wins_witness :
  trim (lit "Inbox") <> []
  /\ first_such (name_matches_hint ascii_toLowerCase (lit "Inbox"))
                [finance; inbox] inbox
  /\ projectId (routeTask ascii_toLowerCase (lit "pay the invoice")
                          [finance; inbox] (Some (lit "Inbox")))
     = project_id inbox
  /\ projectId (routeTask ascii_toLowerCase (lit "pay the invoice")
                          [finance; inbox] None)
     = project_id finance.
Proof.
  assert (Hb : trim (lit "Inbox") <> []).
  { intros H. vm_compute in H. discriminate. }
  assert (Hf : first_such (name_matches_hint ascii_toLowerCase (lit "Inbox"))
                          [finance; inbox] inbox).
  { exists [finance], []. split; [reflexivity|]. split.
    - apply hint_matches_spec. vm_compute. reflexivity.
    - intros y [Hy|[]] H. subst y. apply hint_matches_spec in H.
      vm_compute in H. discriminate. }
  split; [exact Hb|]. split; [exact Hf|]. split.
  - exact (proj1 (proj1 hint_match_wins ascii_toLowerCase
                    (lit "pay the invoice") [finance; inbox] (lit "Inbox")
                    inbox Hb Hf)).
  - vm_compute. reflexivity.
Defined.

(** C5, the claim as written: the hint is compared as given. The hint
    " eng ", with a space on either side, contains the name "eng" and
    neither contains "Engineering" nor is contained in it, so "eng" is the
    first bucket matching it; the code trims the hint first, finds
    "engineering" containing "eng", and returns Engineering. *)
Lemma untrimmed_hint_matches_another_bucket :
  trim (lit " eng ") = lit "eng"
  /\ first_such (spec_name_matches_hint ascii_toLowerCase (lit " eng "))
                [engineering; eng] eng
  /\ first_such (name_matches_hint ascii_toLowerCase (lit " eng "))
                [engineering; eng] engineering
  /\ routeTask ascii_toLowerCase (lit "Review PR #42") [engineering; eng]
       (Some (lit " eng "))
     = {| projectId := project_id engineering;
          sectionId := Some (section_id code_review) |}
  /\ project_id eng = lit "p-e"
  /\ project_id engineering = lit "p-eng".
Proof.
  split; [vm_compute; reflexivity|]. split.
  { exists [engineering], []. split; [reflexivity|]. split.
    - left. apply includes_spec. vm_compute. reflexivity.
    - intros y [Hy|[]] [H|H]; subst y; apply includes_spec in H;
        vm_compute in H; discriminate. }
  split.
  { exists [], [eng]. split; [reflexivity|]. split.
    - apply hint_matches_spec. vm_compute. reflexivity.
    - intros y []. }
  split; [vm_compute; reflexivity|]. split; reflexivity.
Qed.

(** C6. A rule of the pattern table whose keywords do not occur in the
    content leaves the best candidate alone, and so does one whose target
    occurs in no bucket name. Otherwise the first bucket whose lowercased
    name contains the target scores 2, or 3 when the first sub-bucket the
    helper finds matching in it has a non-empty id, and replaces the best
    candidate exactly when that score is strictly higher. The table is
    the five rules for "eng", "dev", "finan", "crm" and "work", run in that
    order. "pay the invoice" among Finance and Inbox, in either order,
    scores nothing in the keyword stage, is sent to Finance by this stage,
    and would have fallen back to Inbox; "contact the client" passes the
    rule for "crm", which finds no bucket, and is sent to Work by the
    last rule. *)
Theorem pattern_rule_scores :
  (forall (toLowerCase : jsstring -> jsstring) (nc : jsstring)
          (words : list jsstring) (projects : list ProjectWithSections)
          (best : Candidate) (keywords : list jsstring) (target : jsstring),
      let step :=
        pattern_step toLowerCase nc words projects best (keywords, target) in
      (~ rule_fires nc keywords -> step = best)
      /\ (rule_fires nc keywords ->
          (forall p, In p projects -> ~ name_contains toLowerCase target p) ->
          step = best)
      /\ (forall p,
             rule_fires nc keywords ->
             first_such (name_contains toLowerCase target) projects p ->
             let sectionId := matchSection toLowerCase nc words (sections p) in
             exists score,
               ((forall sec, In sec (sections p) ->
                             ~ section_matches toLowerCase nc words sec) ->
                sectionId = None /\ score = 2)
               /\ (forall sec,
                      first_such (section_matches toLowerCase nc words)
                                 (sections p) sec ->
                      sectionId = Some (section_id sec)
                      /\ (section_id sec <> [] -> score = 3)
                      /\ (section_id sec = [] -> score = 2))
               /\ (best_score best < score ->
                   step = {| best_projectId := project_id p;
                             best_sectionId := sectionId;
                             best_score := score |})
               /\ (score <= best_score best -> step = best)))
  /\ patternProject
     = [ ([lit "review"; lit "pr"; lit "merge"; lit "code"; lit "dev";
           lit "engineering"; lit "sprint"], lit "eng");
         ([lit "review"; lit "pr"; lit "merge"; lit "code"; lit "dev"],
          lit "dev");
         ([lit "invoice"; lit "payment"; lit "budget"; lit "finance";
           lit "expense"], lit "finan");
         ([lit "follow up"; lit "follow-up"; lit "contact"; lit "crm";
           lit "client"; lit "customer"], lit "crm");
         ([lit "follow up"; lit "follow-up"; lit "contact"; lit "client"],
          lit "work") ]
  /\ (forall (toLowerCase : jsstring -> jsstring) nc words projects best,
         pattern_stage toLowerCase nc words projects best
         = fold_left (pattern_step toLowerCase nc words projects)
                     patternProject best)
  /\ (let nc := normalize ascii_toLowerCase (lit "pay the invoice") in
      let words := tokenize nc in
      keyword_stage ascii_toLowerCase nc words [finance; inbox]
      = initial_best
      /\ pattern_stage ascii_toLowerCase nc words [finance; inbox] initial_best
         = {| best_projectId := project_id finance;
              best_sectionId := None;
              best_score := 2 |}
      /\ routeTask ascii_toLowerCase (lit "pay the invoice") [finance; inbox]
           None
         = {| projectId := project_id finance; sectionId := None |}
      /\ fallback ascii_toLowerCase [finance; inbox]
         = {| projectId := project_id inbox; sectionId := None |}
      /\ routeTask ascii_toLowerCase (lit "pay the invoice") [inbox; finance]
           None
         = {| projectId := project_id finance; sectionId := None |}
      /\ routeTask ascii_toLowerCase (lit "contact the client")
           [inbox; finance; work] None
         = {| projectId := project_id work; sectionId := None |}).
Proof.
  split; [|split; [|split]].
  - intros tl nc words projects best keywords target step.
    unfold step, pattern_step.
    pose proof (rule_fires_spec nc keywords) as Hf.
    destruct (existsb (fun k => includes nc k) keywords) eqn:Ef; simpl negb;
      cbv iota.
    + split; [intros Hn; exfalso; apply Hn; apply Hf; reflexivity|].
      split.
      * intros _ Hno. rewrite find_absent; [reflexivity|].
        intros y Hy. apply (bool_false_iff _ _ (name_contains_spec tl target y)).
        apply Hno. exact Hy.
      * intros p _ [l1 [l2 [E [Hp Hl]]]]. subst projects.
        rewrite find_first.
        -- set (sectionId := matchSection tl nc words (sections p)).
           exists (2 + (if truthy (nullable sectionId) then 1 else 0)).
           split; [|split; [|split]].
           ++ intros Hno. unfold sectionId.
              rewrite (matchSection_none tl nc words (sections p) Hno).
              split; reflexivity.
           ++ intros sec Hs. unfold sectionId.
              rewrite (matchSection_first tl nc words (sections p) sec Hs).
              split; [reflexivity|]. cbn [nullable truthy].
              destruct (section_id sec) as [|c r]; split; intros H;
                try reflexivity; try discriminate; congruence.
           ++ intros Hlt. apply Nat.ltb_lt in Hlt. rewrite Hlt. reflexivity.
           ++ intros Hge. apply Nat.ltb_ge in Hge. rewrite Hge. reflexivity.
        -- apply name_contains_spec. exact Hp.
        -- intros y Hy.
           apply (bool_false_iff _ _ (name_contains_spec tl target y)).
           apply Hl. exact Hy.
    + split; [reflexivity|]. split.
      * intros H. apply Hf in H. discriminate.
      * intros p H. apply Hf in H. discriminate.
  - reflexivity.
  - reflexivity.
  - vm_compute. repeat split; reflexivity.
Qed.

Lemma pattern_rule_scores_witness :
  let nc := lit "review the pr" in
  let words := [lit "review"; lit "the"; lit "pr"] in
  let keywords :=
    [lit "review"; lit "pr"; lit "merge"; lit "code"; lit "dev";
     lit "engineering"; lit "sprint"] in
  rule_fires nc keywords
  /\ first_such (name_contains ascii_toLowerCase (lit "eng"))
                [inbox; engineering] engineering
  /\ first_such (section_matches ascii_toLowerCase nc words)
                (sections engineering) code_review
  /\ pattern_step ascii_toLowerCase nc words [inbox; engineering]
       initial_best (keywords, lit "eng")
     = {| best_projectId := project_id engineering;
          best_sectionId := Some (section_id code_review);
          best_score := 3 |}.
Proof.
  intros nc words keywords.
  assert (Hr : rule_fires nc keywords).
  { exists (lit "review"). split; [left; reflexivity|].
    apply includes_spec. vm_compute. reflexivity. }
  assert (Hf : first_such (name_contains ascii_toLowerCase (lit "eng"))
                          [inbox; engineering] engineering).
  { exists [inbox], []. split; [reflexivity|]. split.
    - apply includes_spec. vm_compute. reflexivity.
    - intros y [Hy|[]] H. subst y. apply includes_spec in H.
      vm_compute in H. discriminate. }
  assert (Hs : first_such (section_matches ascii_toLowerCase nc words)
                          (sections engineering) code_review).
  { exists [], []. split; [reflexivity|]. split.
    - apply section_test_spec. vm_compute. reflexivity.
    - intros y []. }
  split; [exact Hr|]. split; [exact Hf|]. split; [exact Hs|].
  destruct (proj2 (proj2 (proj1 pattern_rule_scores ascii_toLowerCase nc
                            words [inbox; engineering] initial_best keywords
                            (lit "eng")))
                  engineering Hr Hf)
    as [score [_ [Hsec [Hlt _]]]].
  destruct (Hsec code_review Hs) as [Eid [H3 _]].
  assert (E3 : score = 3) by (apply H3; discriminate).
  subst score. rewrite <- Eid. apply Hlt. simpl. lia.
Defined.

(** C6, the claim as written: a matching sub-bucket always adds 1. In the
    Finance ledger the sub-bucket "Invoice" matches the content but has
    the empty id: the rule scores the bucket 2, not 3, which is not
    strictly higher than the 2 that "Pay the bills" earned in the keyword
    stage, and the route stays with "Pay the bills". *)
Lemma matching_section_without_id_adds_nothing :
  let nc := normalize ascii_toLowerCase (lit "pay the invoice") in
  let words := tokenize nc in
  let keywords :=
    [lit "invoice"; lit "payment"; lit "budget"; lit "finance";
     lit "expense"] in
  In (keywords, lit "finan") patternProject
  /\ rule_fires nc keywords
  /\ first_such (name_contains ascii_toLowerCase (lit "finan"))
                [pay_the_bills; ledger] ledger
  /\ first_such (section_matches ascii_toLowerCase nc words)
                (sections ledger) unfiled_invoices
  /\ pattern_step ascii_toLowerCase nc words [pay_the_bills; ledger]
       initial_best (keywords, lit "finan")
     = {| best_projectId := project_id ledger;
          best_sectionId := Some [];
          best_score := 2 |}
  /\ keyword_stage ascii_toLowerCase nc words [pay_the_bills; ledger]
     = {| best_projectId := project_id pay_the_bills;
          best_sectionId := None;
          best_score := 2 |}
  /\ routeTask ascii_toLowerCase (lit "pay the invoice")
       [pay_the_bills; ledger] None
     = {| projectId := project_id pay_the_bills; sectionId := None |}.
Proof.
  intros nc words keywords.
  split; [right; right; left; reflexivity|].
  split.
  { exists (lit "invoice"). split; [left; reflexivity|].
    apply includes_spec. vm_compute. reflexivity. }
  split.
  { exists [pay_the_bills], []. split; [reflexivity|]. split.
    - apply includes_spec. vm_compute. reflexivity.
    - intros y [Hy|[]] H. subst y. apply includes_spec in H.
      vm_compute in H. discriminate. }
  split.
  { exists [], []. split; [reflexivity|]. split.
    - apply section_test_spec. vm_compute. reflexivity.
    - intros y []. }
  vm_compute. repeat split; reflexivity.
Qed.

(** C7. When the hint settles nothing and the two scoring stages leave the
    best candidate without a bucket, the route is the first bucket whose
    lowercased name is or contains "inbox", with no sub-bucket; without
    such a bucket it is the first bucket of the list, with no sub-bucket.
    With no bucket at all it is the empty identifier with no sub-bucket,
    whatever the content and the hint. *)
Theorem fallback_to_inbox_or_first :
  (forall (toLowerCase : jsstring -> jsstring) (content : jsstring)
          (projects : list ProjectWithSections) (hint : option jsstring),
      find_byHint toLowerCase projects hint = None ->
      best_projectId
        (pattern_stage toLowerCase (normalize toLowerCase content)
           (tokenize (normalize toLowerCase content)) projects
           (keyword_stage toLowerCase (normalize toLowerCase content)
              (tokenize (normalize toLowerCase content)) projects)) = [] ->
      let r := routeTask toLowerCase content projects hint in
      (forall p, first_such (named_inbox toLowerCase) projects p ->
                 r = {| projectId := project_id p; sectionId := None |})
      /\ (forall first rest,
             projects = first :: rest ->
             (forall p, In p projects -> ~ named_inbox toLowerCase p) ->
             r = {| projectId := project_id first; sectionId := None |}))
  /\ (forall (toLowerCase : jsstring -> jsstring) (content : jsstring)
             (hint : option jsstring),
         routeTask toLowerCase content [] hint
         = {| projectId := []; sectionId := None |}).
Proof.
  split.
  - intros tl content projects hint Hh Hb r.
    assert (Er : r = fallback tl projects).
    { unfold r. rewrite route_not_hinted by exact Hh.
      unfold route_unhinted. rewrite Hb. reflexivity. }
    rewrite Er. split.
    + intros p Hp. apply fallback_inbox. exact Hp.
    + intros first rest E Hn. subst projects. apply fallback_first. exact Hn.
  - intros tl content hint. apply route_no_projects.
Qed.

Lemma fallback_to_inbox_or_first_witness :
  first_such (named_inbox ascii_toLowerCase) [finance; inbox] inbox
  /\ routeTask ascii_toLowerCase (lit "say hello") [finance; inbox] None
     = {| projectId := project_id inbox; sectionId := None |}
  /\ routeTask ascii_toLowerCase (lit "say hello") [finance; engineering] None
     = {| projectId := project_id finance; sectionId := None |}.
Proof.
  assert (Hf : first_such (named_inbox ascii_toLowerCase) [finance; inbox] inbox).
  { exists [finance], []. split; [reflexivity|]. split.
    - apply named_inbox_spec. vm_compute. reflexivity.
    - intros y [Hy|[]] H. subst y. apply named_inbox_spec in H.
      vm_compute in H. discriminate. }
  split; [exact Hf|]. split.
  - apply (proj1 (proj1 fallback_to_inbox_or_first ascii_toLowerCase
                    (lit "say hello") [finance; inbox] None
                    eq_refl eq_refl)).
    exact Hf.
  - apply (proj2 (proj1 fallback_to_inbox_or_first ascii_toLowerCase
                    (lit "say hello") [finance; engineering] None
                    eq_refl eq_refl) finance [engineering] eq_refl).
    intros p [Hp|[Hp|[]]] H; subst p; apply named_inbox_spec in H;
      vm_compute in H; discriminate.
Defined.

Section RouteConsistency.

Variable toLowerCase : jsstring -> jsstring.
Variable nc : jsstring.
Variable words : list jsstring.
Variable projects : list ProjectWithSections.

Lemma candidate_of_project (p : ProjectWithSections) (score : nat) :
  In p projects ->
  candidate_ok projects
    {| best_projectId := project_id p;
       best_sectionId := matchSection toLowerCase nc words (sections p);
       best_score := score |}.
Proof.
  intros Hp. right. exists p. simpl. split; [exact Hp|].
  split; [reflexivity|]. intros sid Hs.
  destruct (matchSection_member toLowerCase nc words (sections p) sid Hs)
    as [sec [Hin [Hid _]]].
  exists sec. auto.
Qed.

Lemma keyword_step_ok (best : Candidate) (p : ProjectWithSections) :
  In p projects -> candidate_ok projects best ->
  candidate_ok projects (keyword_step toLowerCase nc words best p).
Proof.
  intros Hp Hb. unfold keyword_step.
  match goal with |- context [if ?c then _ else _] => destruct c end;
    [|exact Hb].
  apply candidate_of_project. exact Hp.
Qed.

Lemma keyword_fold_ok (l : list ProjectWithSections) :
  forall best,
    (forall p, In p l -> In p projects) ->
    candidate_ok projects best ->
    candidate_ok projects
      (fold_left (keyword_step toLowerCase nc words) l best).
Proof.
  induction l as [|p l IH]; intros best Hl Hb; [exact Hb|].
  simpl. apply IH.
  - intros q Hq. apply Hl. right. exact Hq.
  - apply keyword_step_ok; [apply Hl; left; reflexivity|exact Hb].
Qed.

Lemma pattern_step_ok (best : Candidate) (rule : list jsstring * jsstring) :
  candidate_ok projects best ->
  candidate_ok projects (pattern_step toLowerCase nc words projects best rule).
Proof.
  intros Hb. destruct rule as [keywords target]. unfold pattern_step.
  destruct (negb (existsb (fun k => includes nc k) keywords)); [exact Hb|].
  destruct (find (fun p => includes (toLowerCase (project_name p)) target)
                 projects) as [p|] eqn:E; [|exact Hb].
  apply find_some in E. destruct E as [Hp _].
  match goal with |- context [if ?c then _ else _] => destruct c end;
    [|exact Hb].
  apply candidate_of_project. exact Hp.
Qed.

Lemma pattern_fold_ok (rules : list (list jsstring * jsstring)) :
  forall best,
    candidate_ok projects best ->
    candidate_ok projects
      (fold_left (pattern_step toLowerCase nc words projects) rules best).
Proof.
  induction rules as [|rule rules IH]; intros best Hb; [exact Hb|].
  simpl. apply IH. apply pattern_step_ok. exact Hb.
Qed.

Lemma fallback_ok : result_ok projects (fallback toLowerCase projects).
Proof.
  unfold fallback, result_ok.
  match goal with |- context [find ?f projects] =>
    destruct (find f projects) as [p|] eqn:E end.
  - apply find_some in E. destruct E as [Hp _]. simpl. split.
    + intros _. exists p. auto.
    + intros sid H. discriminate.
  - destruct projects as [|first rest]; simpl; split;
      try (intros sid H; discriminate).
    + intros H. congruence.
    + intros _. exists first. split; [left; reflexivity|reflexivity].
Qed.

Lemma route_unhinted_ok :
  result_ok projects (route_unhinted toLowerCase nc words projects).
Proof.
  unfold route_unhinted.
  set (best := pattern_stage toLowerCase nc words projects
                 (keyword_stage toLowerCase nc words projects)).
  assert (Hb : candidate_ok projects best).
  { apply pattern_fold_ok. apply keyword_fold_ok; [auto|].
    left. reflexivity. }
  destruct (truthy (JsString (best_projectId best))) eqn:Et;
    [|apply fallback_ok].
  destruct Hb as [Hb|[p [Hp [Hid Hs]]]].
  - rewrite Hb in Et. discriminate.
  - unfold result_ok. simpl. split.
    + intros _. exists p. auto.
    + intros sid H. destruct (Hs sid H) as [sec [Hin Hsec]].
      exists p, sec. auto.
Qed.

End RouteConsistency.

(** C10. Whatever the content, the buckets and the hint, a non-empty
    bucket identifier in the result is the id of a bucket of the list, and
    a sub-bucket identifier in the result is the id of a section listed
    under a bucket of the list that carries the returned bucket
    identifier. *)
Theorem route_result_consistent
        (toLowerCase : jsstring -> jsstring) (content : jsstring)
        (projects : list ProjectWithSections) (hint : option jsstring) :
  let r := routeTask toLowerCase content projects hint in
  (projectId r <> [] ->
   exists p, In p projects /\ project_id p = projectId r)
  /\ (forall sid, sectionId r = Some sid ->
                  exists p sec,
                    In p projects /\ project_id p = projectId r
                    /\ In sec (sections p) /\ section_id sec = sid).
Proof.
  intros r. change (result_ok projects r). unfold r.
  destruct (find_byHint toLowerCase projects hint) as [p|] eqn:E.
  - rewrite (route_hinted toLowerCase content projects hint p E).
    assert (Hp : In p projects).
    { unfold find_byHint in E. destruct hint as [h|]; [|discriminate].
      destruct (truthy (JsString h) && truthy (JsString (trim h)));
        [|discriminate].
      apply find_some in E. tauto. }
    unfold result_ok. simpl. split.
    + intros _. exists p. auto.
    + intros sid H.
      destruct (matchSection_member toLowerCase _ _ _ sid H)
        as [sec [Hin [Hid _]]].
      exists p, sec. auto.
  - rewrite (route_not_hinted toLowerCase content projects hint E).
    apply route_unhinted_ok.
Qed.

Lemma route_result_consistent_witness :
  sectionId (routeTask ascii_toLowerCase (lit "Review PR #42")
                       [engineering; finance] None)
  = Some (section_id code_review)
  /\ exists p sec,
       In p [engineering; finance]
       /\ project_id p
          = projectId (routeTask ascii_toLowerCase (lit "Review PR #42")
                                 [engineering; finance] None)
       /\ In sec (sections p) /\ section_id sec = section_id code_review.
Proof.
  assert (H : sectionId (routeTask ascii_toLowerCase (lit "Review PR #42")
                                   [engineering; finance] None)
              = Some (section_id code_review)).
  { vm_compute. reflexivity. }
  split; [exact H|].
  exact (proj2 (route_result_consistent ascii_toLowerCase (lit "Review PR #42")
                  [engineering; finance] None)
               (section_id code_review) H).
Defined.

(** * Further properties of the code *)

(** ** What a match returns *)

(** The end position the matcher hands to its continuation is one the
    pattern can reach. *)
Lemma star_iter_sound {T} (r : regex) (k : jsstring -> jsstring -> option T)
      (x : T) :
  (forall b a (k' : jsstring -> jsstring -> option T),
      run r b a k' = Some x ->
      exists b1 a1, matches r b a b1 a1 /\ k' b1 a1 = Some x) ->
  forall n b a,
    star_iter (run r) k n b a = Some x ->
    exists b' a', matches (Star r) b a b' a' /\ k b' a' = Some x.
Proof.
  intros IHr. induction n as [|n IHn]; intros b a H; simpl in H.
  - exists b, a. split; [constructor|exact H].
  - destruct (run r b a
                (fun bef' aft' =>
                   if length aft' <? length a
                   then star_iter (run r) k n bef' aft' else None))
      as [y|] eqn:E.
    + inversion H; subst y. apply IHr in E.
      destruct E as [b1 [a1 [Hm Hk]]].
      destruct (Nat.ltb_spec (length a1) (length a)) as [Hlt|Hge];
        [|discriminate].
      apply IHn in Hk. destruct Hk as [b' [a' [Hs Hk]]].
      exists b', a'. split; [|exact Hk]. eapply M_StarStep; eauto.
    + exists b, a. split; [constructor|exact H].
Qed.

Lemma run_sound {T} (r : regex) (x : T) :
  forall b a (k : jsstring -> jsstring -> option T),
    run r b a k = Some x ->
    exists b' a', matches r b a b' a' /\ k b' a' = Some x.
Proof.
  induction r as [|p|r1 IH1 r2 IH2|r1 IH1 r2 IH2|r IH| |]; intros b a k H;
    simpl in H.
  - exists b, a. split; [constructor|exact H].
  - destruct a as [|c a]; [discriminate|].
    destruct (p c) eqn:E; [|discriminate].
    exists (c :: b), a. split; [constructor; exact E|exact H].
  - apply IH1 in H. destruct H as [b1 [a1 [Hm1 H]]].
    apply IH2 in H. destruct H as [b2 [a2 [Hm2 H]]].
    exists b2, a2. split; [econstructor; eauto|exact H].
  - destruct (run r1 b a k) as [y|] eqn:E.
    + inversion H; subst y. apply IH1 in E.
      destruct E as [b' [a' [Hm Hk]]]. exists b', a'.
      split; [apply M_AltL; exact Hm|exact Hk].
    + apply IH2 in H. destruct H as [b' [a' [Hm Hk]]]. exists b', a'.
      split; [apply M_AltR; exact Hm|exact Hk].
  - eapply star_iter_sound; eauto.
  - destruct b as [|y b]; [|discriminate].
    exists [], a. split; [constructor|exact H].
  - destruct (xorb (word_before b) (word_before a)) eqn:E; [|discriminate].
    exists b, a. split; [constructor; exact E|exact H].
Qed.

Lemma search_sound (r : regex) :
  forall aft bef pre m post,
    search r bef aft = Some (pre, m, post) ->
    exists x,
      pre = rev bef ++ x /\ aft = x ++ m ++ post
      /\ matches r (rev x ++ bef) (m ++ post) (rev m ++ rev x ++ bef) post.
Proof.
  assert (Hhere : forall bef aft pre m post b a,
             run r bef aft (fun b a => Some (b, a)) = Some (b, a) ->
             (rev bef, rev (firstn (length b - length bef) b), a)
             = (pre, m, post) ->
             pre = rev bef ++ [] /\ aft = [] ++ m ++ post
             /\ matches r (rev [] ++ bef) (m ++ post)
                        (rev m ++ rev [] ++ bef) post).
  { intros bef aft pre m post b a E H. inversion H; subst. clear H.
    apply run_sound in E. destruct E as [b' [a' [Hm Hk]]].
    inversion Hk; subst b' a'.
    destruct (matches_consumes _ _ _ _ _ Hm) as [m0 [Ea Eb]]. subst.
    rewrite length_app, length_rev, Nat.add_sub.
    assert (F : firstn (length m0) (rev m0 ++ bef) = rev m0).
    { rewrite <- (length_rev m0), firstn_app, Nat.sub_diag, firstn_all.
      simpl. apply app_nil_r. }
    rewrite F, rev_involutive.
    rewrite app_nil_r. simpl. auto. }
  induction aft as [|c aft IH]; intros bef pre m post H; simpl in H.
  - destruct (run r bef [] (fun b a => Some (b, a))) as [[b a]|] eqn:E;
      [|discriminate].
    exists []. apply (Hhere bef [] pre m post b a E). congruence.
  - destruct (run r bef (c :: aft) (fun b a => Some (b, a))) as [[b a]|] eqn:E.
    + exists []. apply (Hhere bef (c :: aft) pre m post b a E). congruence.
    + apply IH in H. destruct H as [x [Hp [Ha Hm]]].
      exists (c :: x). simpl in Hp. rewrite <- app_assoc in Hp. simpl in Hp.
      split; [exact Hp|]. split; [simpl; rewrite Ha; reflexivity|].
      simpl rev. rewrite <- !app_assoc. simpl. exact Hm.
Qed.

(** [exec] splits the text around the match it reports. *)
Lemma exec_sound (r : regex) (s pre m post : jsstring) :
  exec r s = Some (pre, m, post) ->
  s = pre ++ m ++ post
  /\ matches r (rev pre) (m ++ post) (rev m ++ rev pre) post.
Proof.
  unfold exec. intros H. apply search_sound in H.
  destruct H as [x [Hp [Ha Hm]]]. simpl in Hp. subst.
  rewrite app_nil_r in Hm. auto.
Qed.

Lemma exec_none (r : regex) (s : jsstring) :
  exec r s = None <-> test r s = false.
Proof. unfold test. destruct (exec r s); split; congruence. Qed.

(** Replacing the match of an anchored pattern by nothing cuts a prefix. *)
Lemma replace_anchored_suffix (r : regex) (s : jsstring) :
  exists m, s = m ++ replace (Seq Bol r) s [].
Proof.
  unfold replace. destruct (exec (Seq Bol r) s) as [[[pre m] post]|] eqn:E.
  - apply exec_sound in E. destruct E as [Es Hm].
    apply matches_Seq_inv in Hm. destruct Hm as [b1 [a1 [Hb _]]].
    apply matches_Bol_inv in Hb. destruct Hb as [Hpre _].
    assert (pre = []).
    { rewrite <- (rev_involutive pre), Hpre. reflexivity. }
    subst pre. exists m. exact Es.
  - exists []. reflexivity.
Qed.

(** ** The pieces of a split *)

Lemma contains_refl (s : jsstring) : contains s s.
Proof. exists [], []. rewrite app_nil_r. reflexivity. Qed.

Lemma contains_trans (s m t : jsstring) :
  contains s m -> contains m t -> contains s t.
Proof.
  intros [p1 [q1 E1]] [p2 [q2 E2]]. exists (p1 ++ p2), (q2 ++ q1).
  subst. rewrite <- !app_assoc. reflexivity.
Qed.

Lemma contains_app_r (a b t : jsstring) : contains b t -> contains (a ++ b) t.
Proof.
  intros [p [q E]]. exists (a ++ p), q. subst. rewrite <- !app_assoc.
  reflexivity.
Qed.

Lemma contains_app_l (a b t : jsstring) : contains a t -> contains (a ++ b) t.
Proof.
  intros [p [q E]]. exists p, (q ++ b). subst. rewrite <- !app_assoc.
  reflexivity.
Qed.

Lemma contains_trim (s : jsstring) : contains s (trim s).
Proof.
  destruct (trim_inside s) as [l [r [E _]]]. exists l, r. exact E.
Qed.

Lemma contains_firstn (n : nat) (s : jsstring) : contains s (firstn n s).
Proof.
  exists [], (skipn n s). simpl. symmetry. apply firstn_skipn.
Qed.

Lemma contains_skipn (n : nat) (s : jsstring) : contains s (skipn n s).
Proof.
  exists (firstn n s), []. rewrite app_nil_r. symmetry. apply firstn_skipn.
Qed.

Lemma contains_forallb (f : N -> bool) (s t : jsstring) :
  contains s t -> forallb f s = true -> forallb f t = true.
Proof.
  intros [p [q E]] H. subst. rewrite !forallb_app in H.
  apply andb_true_iff in H. destruct H as [_ H].
  apply andb_true_iff in H. tauto.
Qed.

Lemma forallb_reversed (f : N -> bool) (l : jsstring) :
  forallb f (rev l) = forallb f l.
Proof.
  induction l as [|c l IH]; [reflexivity|].
  simpl. rewrite forallb_app, IH. simpl. rewrite andb_true_r.
  apply andb_comm.
Qed.

(** Every piece of a split lies in the text that was split. *)
Lemma split_go_inside (r : regex) :
  forall aft skip cur bef piece,
    In piece (split_go r skip cur bef aft) ->
    contains (rev cur ++ aft) piece.
Proof.
  induction aft as [|c aft IH]; intros skip cur bef piece Hin.
  - simpl in Hin. destruct Hin as [E|[]]. subst. rewrite app_nil_r.
    apply contains_refl.
  - assert (Hkeep : In piece (split_go r 0 (c :: cur) (c :: bef) aft) ->
                    contains (rev cur ++ c :: aft) piece).
    { intros H. apply IH in H. simpl in H. rewrite <- app_assoc in H.
      exact H. }
    assert (Hcut : forall n cur',
               (cur' = [] \/ cur' = [c]) ->
               In piece (rev cur :: split_go r n cur' (c :: bef) aft) ->
               contains (rev cur ++ c :: aft) piece).
    { intros n cur' Hc [E|H].
      - subst. apply contains_app_l. apply contains_refl.
      - apply IH in H. apply contains_app_r.
        destruct Hc; subst cur'; simpl in H.
        + change (c :: aft) with ([c] ++ aft). apply contains_app_r. exact H.
        + exact H. }
    simpl in Hin. destruct skip as [|n].
    + destruct (run r bef (c :: aft) (fun _ a => Some (length a))) as [la|].
      * destruct (la =? S (length aft + length cur)); [exact (Hkeep Hin)|].
        destruct (la =? S (length aft)).
        -- eapply (Hcut _ [c]); [right; reflexivity|exact Hin].
        -- eapply (Hcut _ []); [left; reflexivity|exact Hin].
      * exact (Hkeep Hin).
    + apply IH in Hin. simpl in Hin. apply contains_app_r.
      change (c :: aft) with ([c] ++ aft). apply contains_app_r. exact Hin.
Qed.

Lemma split_inside (r : regex) (s piece : jsstring) :
  In piece (split r s) -> contains s piece.
Proof.
  unfold split. destruct s as [|c s].
  - destruct (run r [] [] (fun _ _ => Some tt));
      [intros []|intros [E|[]]; subst; apply contains_refl].
  - intros H. apply split_go_inside in H. exact H.
Qed.

Section SeparatorFacts.

(** A separator [r] that never matches the empty text and that matches
    wherever a unit of the class [p] stands. *)
Variable r : regex.
Variable p : N -> bool.
Hypothesis r_consumes :
  forall b a b' a', matches r b a b' a' -> length a' < length a.
Hypothesis r_starts :
  forall b c a, p c = true -> exists b' a', matches r b (c :: a) b' a'.

Lemma split_go_avoids :
  forall aft skip cur bef,
    forallb (fun c => negb (p c)) cur = true ->
    Forall (fun piece => forallb (fun c => negb (p c)) piece = true)
           (split_go r skip cur bef aft).
Proof.
  induction aft as [|c aft IH]; intros skip cur bef Hcur.
  - simpl. constructor; [|constructor]. rewrite forallb_reversed. exact Hcur.
  - simpl. destruct skip as [|n]; [|apply IH; reflexivity].
    destruct (run r bef (c :: aft) (fun _ a => Some (length a))) as [la|] eqn:E.
    + apply run_sound in E. destruct E as [b' [a' [Hm Hk]]].
      apply r_consumes in Hm. simpl in Hm. inversion Hk; subst la.
      destruct (Nat.eqb_spec (length a') (S (length aft + length cur)));
        [lia|].
      destruct (Nat.eqb_spec (length a') (S (length aft))); [lia|].
      constructor; [rewrite forallb_reversed; exact Hcur|].
      apply IH. reflexivity.
    + apply IH. simpl. rewrite Hcur, andb_true_r.
      destruct (p c) eqn:Hp; [|reflexivity]. exfalso.
      destruct (r_starts bef c aft Hp) as [b' [a' Hm]].
      assert (H : run r bef (c :: aft) (fun _ a => Some (length a)) <> None).
      { apply run_matches. exists b', a'. split; [exact Hm|discriminate]. }
      congruence.
Qed.

(** No piece of the split holds a unit of the class. *)
Lemma split_avoids (s : jsstring) :
  Forall (fun piece => forallb (fun c => negb (p c)) piece = true)
         (split r s).
Proof.
  unfold split. destruct s as [|c s].
  - destruct (run r [] [] (fun _ _ => Some tt)); repeat constructor.
  - apply split_go_avoids. reflexivity.
Qed.

End SeparatorFacts.

Lemma re_spaces_consumes b a b' a' :
  matches re_spaces b a b' a' -> length a' < length a.
Proof.
  unfold re_spaces, Plus, ws. intros H.
  apply matches_Seq_inv in H. destruct H as [b1 [a1 [H1 H2]]].
  apply matches_Class_inv in H1. destruct H1 as [c [Ea _]].
  apply matches_consumes in H2. destruct H2 as [m [Em _]].
  subst. simpl. rewrite length_app. lia.
Qed.

Lemma re_spaces_starts b c a :
  is_space c = true -> exists b' a', matches re_spaces b (c :: a) b' a'.
Proof.
  intros H. exists (c :: b), a. unfold re_spaces, Plus, ws.
  eapply M_Seq; [apply M_Class; exact H|apply M_StarStop].
Qed.

Lemma re_newline_consumes b a b' a' :
  matches re_newline b a b' a' -> length a' < length a.
Proof.
  unfold re_newline. intros H.
  apply matches_Seq_inv in H. destruct H as [b1 [a1 [H1 H2]]].
  apply matches_consumes in H1. destruct H1 as [m [Em _]].
  apply matches_Class_inv in H2. destruct H2 as [c [Ea _]].
  subst. rewrite length_app. simpl. lia.
Qed.

Lemma re_newline_starts b c a :
  (c =? LF)%N = true -> exists b' a', matches re_newline b (c :: a) b' a'.
Proof.
  intros H. exists (c :: b), a. unfold re_newline, Opt.
  eapply M_Seq; [apply M_AltR; apply M_Empty|].
  apply M_Class. rewrite N.eqb_sym. exact H.
Qed.

(** The scanned lines: pieces of the text between line feeds, trimmed and
    not blank. *)
Lemma split_lines_facts (text : jsstring) :
  Forall (fun line =>
            line <> [] /\ no_indent line /\ contains text line
            /\ forallb (fun c => negb (c =? LF)%N) line = true)
         (split_lines text).
Proof.
  unfold split_lines. apply Forall_forall. intros line Hl.
  apply filter_In in Hl. destruct Hl as [Hl Hne].
  apply in_map_iff in Hl. destruct Hl as [piece [Hx Hp]]. subst line.
  split; [destruct (trim piece); [discriminate Hne|discriminate]|].
  split; [apply trim_no_indent|].
  split.
  - eapply contains_trans;
      [apply (split_inside re_newline); exact Hp|apply contains_trim].
  - apply (contains_forallb _ piece); [apply contains_trim|].
    pose proof (split_avoids re_newline (fun c => (c =? LF)%N)
                  re_newline_consumes re_newline_starts text) as H.
    rewrite Forall_forall in H. apply H. exact Hp.
Qed.

Lemma strip_markers_inside (line : jsstring) :
  contains line (strip_markers line).
Proof.
  unfold strip_markers.
  destruct (replace_anchored_suffix (Seq bullet_mark (Star ws)) line)
    as [m1 E1].
  destruct (replace_anchored_suffix
              (Seq (Plus digit) (Seq dot_or_paren (Star ws)))
              (replace re_bullet0 line [])) as [m2 E2].
  fold re_bullet0 in E1. fold re_number0 in E2.
  apply (contains_trans line (replace re_bullet0 line [])).
  - exists m1, []. rewrite app_nil_r. exact E1.
  - exists m2, []. rewrite app_nil_r. exact E2.
Qed.

(** The content of an opening line is a piece of that line. *)
Lemma action_content_inside (line : jsstring) :
  contains line (action_content line).
Proof.
  unfold action_content.
  eapply contains_trans; [|apply contains_trim].
  match goal with |- contains _ (replace re_bracket0 ?c []) =>
    destruct (replace_anchored_suffix
                (Seq (ChrI 91%N) (Seq space_or_x (Seq (ChrI 93%N) (Star ws))))
                c) as [m E];
    fold re_bracket0 in E;
    apply (contains_trans _ c);
      [|exists m, []; rewrite app_nil_r; exact E]
  end.
  destruct (exec re_actionPrefix (strip_markers line)).
  - eapply contains_trans; [apply strip_markers_inside|].
    eapply contains_trans; [apply contains_skipn|apply contains_trim].
  - apply strip_markers_inside.
Qed.

Section ExtractorShape.

Variable chrono_parse : jsstring -> Date -> list Date.
Variable clock : nat -> Date.

Lemma emit_length (lines : list jsstring) :
  forall t, length (fst (emit chrono_parse clock lines t)) <= length lines.
Proof.
  induction lines as [|line rest IH]; intros t; [simpl; lia|].
  simpl. destruct (open_item chrono_parse clock line t) as [o t1].
  specialize (IH t1).
  destruct (emit chrono_parse clock rest t1) as [items t2].
  simpl in *. destruct o; simpl; lia.
Qed.

(** X1. The extractor quotes: the content and the description of every item
    it returns occur, unit for unit, in the text it was given. *)
Theorem items_quote_the_text (s : jsstring) (t : nat) :
  exists items t',
    extractActionItems chrono_parse clock (JsString s) t = Returned (items, t')
    /\ Forall (fun it => contains s (content it)
                         /\ contains s (description it)) items.
Proof.
  rewrite extract_emit. destruct s as [|c s].
  - exists [], t. split; [reflexivity|constructor].
  - destruct (emit chrono_parse clock (split_lines (c :: s)) t)
      as [items t'] eqn:E.
    exists items, t'. split; [reflexivity|].
    apply Forall_forall. intros it Hin.
    assert (Hin' : In it (fst (emit chrono_parse clock
                                 (split_lines (c :: s)) t)))
      by (rewrite E; exact Hin).
    apply emit_from_open in Hin'. destruct Hin' as [line [t0 [Hl Ho]]].
    apply open_item_shape in Ho. destruct Ho as [_ [_ [Hc [Hd _]]]].
    pose proof (split_lines_facts (c :: s)) as Hf.
    rewrite Forall_forall in Hf. destruct (Hf line Hl) as [_ [_ [Hs _]]].
    rewrite Hc, Hd. unfold slice_to. split.
    + eapply contains_trans; [exact Hs|].
      eapply contains_trans; [apply action_content_inside|].
      apply contains_firstn.
    + eapply contains_trans; [exact Hs|apply contains_firstn].
Qed.

(** X2. No item ever carries a subtask, and every description is a single
    line: it starts with a unit that is no space and holds no line feed. *)
Theorem items_are_single_lines (text : JsValue) (t : nat) :
  exists items t',
    extractActionItems chrono_parse clock text t = Returned (items, t')
    /\ Forall (fun it =>
                 subtasks it = []
                 /\ description it <> [] /\ no_indent (description it)
                 /\ forallb (fun c => negb (c =? LF)%N) (description it)
                    = true) items.
Proof.
  destruct text as [| |b|z|s|];
    try (exists [], t; split; [apply extract_non_string; reflexivity|];
         constructor).
  rewrite extract_emit. destruct s as [|c s].
  - exists [], t. split; [reflexivity|constructor].
  - destruct (emit chrono_parse clock (split_lines (c :: s)) t)
      as [items t'] eqn:E.
    exists items, t'. split; [reflexivity|].
    apply Forall_forall. intros it Hin.
    assert (Hin' : In it (fst (emit chrono_parse clock
                                 (split_lines (c :: s)) t)))
      by (rewrite E; exact Hin).
    apply emit_from_open in Hin'. destruct Hin' as [line [t0 [Hl Ho]]].
    apply open_item_shape in Ho. destruct Ho as [_ [_ [_ [Hd [_ Hs]]]]].
    pose proof (split_lines_facts (c :: s)) as Hf.
    rewrite Forall_forall in Hf.
    destruct (Hf line Hl) as [Hne [Hni [_ Hlf]]].
    split; [exact Hs|]. rewrite Hd. unfold slice_to.
    destruct line as [|x line]; [congruence|].
    change (firstn 2000 (x :: line)) with (x :: firstn 1999 line).
    split; [discriminate|]. split; [exact Hni|].
    apply (contains_forallb _ (x :: line)); [|exact Hlf].
    apply (contains_firstn 2000 (x :: line)).
Qed.

(** X3. At most one item per non-blank line of the text. *)
Theorem items_at_most_one_per_line (s : jsstring) (t : nat) :
  exists items t',
    extractActionItems chrono_parse clock (JsString s) t = Returned (items, t')
    /\ length items <= length (split_lines s).
Proof.
  rewrite extract_emit. destruct s as [|c s].
  - exists [], t. split; [reflexivity|simpl; lia].
  - pose proof (emit_length (split_lines (c :: s)) t) as H.
    destruct (emit chrono_parse clock (split_lines (c :: s)) t)
      as [items t'].
    exists items, t'. split; [reflexivity|exact H].
Qed.

End ExtractorShape.

(** ** More on the router *)

Lemma re_spaces_avoids (s : jsstring) :
  Forall (fun piece => forallb (fun c => negb (is_space c)) piece = true)
         (split re_spaces s).
Proof.
  apply (split_avoids re_spaces is_space re_spaces_consumes re_spaces_starts).
Qed.

(** X8. The tokens of a content are pieces of it of two units or more that
    hold no space: words of one unit are dropped. *)
Theorem tokenize_gives_words (normalizedContent : jsstring) :
  Forall (fun w => 2 <= length w
                   /\ forallb (fun c => negb (is_space c)) w = true
                   /\ contains normalizedContent w)
         (tokenize normalizedContent).
Proof.
  unfold tokenize. apply Forall_forall. intros w Hw.
  apply filter_In in Hw. destruct Hw as [Hin Hlen].
  apply Nat.ltb_lt in Hlen. split; [lia|]. split.
  - pose proof (re_spaces_avoids normalizedContent) as H.
    rewrite Forall_forall in H. apply H. exact Hin.
  - apply (split_inside re_spaces). exact Hin.
Qed.

Section KeywordStage.

Variable toLowerCase : jsstring -> jsstring.
Variable nc : jsstring.
Variable words : list jsstring.

Lemma keyword_count (name : jsstring) :
  forall l n,
    fold_left
      (fun score word =>
         if includes name word || (3 <=? length word) && includes name word
         then score + 1 else score) l n
    = n + length (filter (fun w => includes name w) l).
Proof.
  induction l as [|w l IH]; intros n; simpl; [lia|].
  rewrite IH. destruct (includes name w); simpl.
  - lia.
  - rewrite andb_false_r. lia.
Qed.

Lemma keyword_step_total (best : Candidate) (p : ProjectWithSections) :
  keyword_step toLowerCase nc words best p
  = if best_score best <? keyword_total toLowerCase nc words p
    then keyword_candidate toLowerCase nc words p
    else best.
Proof.
  unfold keyword_step, keyword_candidate, keyword_total, keyword_score,
    section_bonus.
  rewrite keyword_count.
  destruct (matchSection toLowerCase nc words (sections p)) as [[|c r]|];
    reflexivity.
Qed.

Lemma keyword_fold_keeps (l : list ProjectWithSections) :
  forall best,
    (forall q, In q l ->
               keyword_total toLowerCase nc words q <= best_score best) ->
    fold_left (keyword_step toLowerCase nc words) l best = best.
Proof.
  induction l as [|q l IH]; intros best H; [reflexivity|].
  simpl. rewrite keyword_step_total.
  destruct (Nat.ltb_spec (best_score best)
              (keyword_total toLowerCase nc words q)) as [Hlt|Hge].
  - specialize (H q (or_introl eq_refl)). lia.
  - apply IH. intros q' Hq'. apply H. right. exact Hq'.
Qed.

Lemma keyword_fold_first_top (l1 l2 : list ProjectWithSections)
      (p : ProjectWithSections) :
  (forall q, In q l1 -> keyword_total toLowerCase nc words q
                        < keyword_total toLowerCase nc words p) ->
  (forall q, In q l2 -> keyword_total toLowerCase nc words q
                        <= keyword_total toLowerCase nc words p) ->
  forall best,
    best_score best < keyword_total toLowerCase nc words p ->
    fold_left (keyword_step toLowerCase nc words) (l1 ++ p :: l2) best
    = keyword_candidate toLowerCase nc words p.
Proof.
  intros H1 H2. revert H1.
  induction l1 as [|q l1 IH]; intros H1 best Hb.
  - simpl. rewrite keyword_step_total.
    destruct (Nat.ltb_spec (best_score best)
                (keyword_total toLowerCase nc words p)); [|lia].
    apply keyword_fold_keeps. exact H2.
  - simpl. apply IH.
    + intros q' Hq'. apply H1. right. exact Hq'.
    + rewrite keyword_step_total.
      destruct (Nat.ltb_spec (best_score best)
                  (keyword_total toLowerCase nc words q)).
      * simpl. apply H1. left. reflexivity.
      * exact Hb.
Qed.

End KeywordStage.

(** X9. The keyword stage keeps the first bucket that no bucket outscores,
    provided it scores at all: a bucket scores one per token occurring in
    its lowercased name, plus two when the first sub-bucket the helper
    finds matching in it has a non-empty id (a matching sub-bucket with the
    empty id earns nothing). When every bucket scores nothing the stage
    selects nothing. *)
Theorem keyword_stage_first_top
        (toLowerCase : jsstring -> jsstring) (nc : jsstring)
        (words : list jsstring) (projects : list ProjectWithSections) :
  ((forall q, In q projects -> keyword_total toLowerCase nc words q = 0) ->
   keyword_stage toLowerCase nc words projects = initial_best)
  /\ (forall p,
         first_such (tops toLowerCase nc words projects) projects p ->
         0 < keyword_total toLowerCase nc words p ->
         keyword_stage toLowerCase nc words projects
         = keyword_candidate toLowerCase nc words p)
  /\ (forall p,
         ((forall sec, In sec (sections p) ->
                       ~ section_matches toLowerCase nc words sec) ->
          section_bonus toLowerCase nc words p = 0)
         /\ (forall sec,
                first_such (section_matches toLowerCase nc words)
                           (sections p) sec ->
                (section_id sec <> [] ->
                 section_bonus toLowerCase nc words p = 2)
                /\ (section_id sec = [] ->
                    section_bonus toLowerCase nc words p = 0))).
Proof.
  unfold keyword_stage. split; [|split].
  - intros H. apply keyword_fold_keeps. intros q Hq. rewrite (H q Hq).
    simpl. lia.
  - intros p [l1 [l2 [E [Hp Hl]]]] Hpos.
    rewrite E. apply keyword_fold_first_top.
    + intros q Hq.
      assert (Hqp : keyword_total toLowerCase nc words q
                    <= keyword_total toLowerCase nc words p).
      { apply Hp. rewrite E. apply in_or_app. left. exact Hq. }
      destruct (Nat.eq_dec (keyword_total toLowerCase nc words q)
                           (keyword_total toLowerCase nc words p)) as [Eq|Ne];
        [|lia].
      exfalso. apply (Hl q Hq). intros q' Hq'. rewrite Eq. apply Hp.
      exact Hq'.
    + intros q Hq. apply Hp. rewrite E. apply in_or_app. right. right.
      exact Hq.
    + simpl. exact Hpos.
  - intros p. unfold section_bonus. split.
    + intros Hno.
      rewrite (matchSection_none toLowerCase nc words (sections p) Hno).
      reflexivity.
    + intros sec Hs.
      rewrite (matchSection_first toLowerCase nc words (sections p) sec Hs).
      destruct (section_id sec) as [|c r]; split; intros H;
        try reflexivity; try discriminate; congruence.
Qed.

Lemma keyword_stage_first_top_witness :
  let nc := lit "review" in
  let words := [lit "review"] in
  let projects := [alpha; review_stuff] in
  first_such (section_matches ascii_toLowerCase nc words) (sections alpha)
             unnamed_review
  /\ keyword_total ascii_toLowerCase nc words alpha = 0
  /\ first_such (tops ascii_toLowerCase nc words projects) projects
                review_stuff
  /\ 0 < keyword_total ascii_toLowerCase nc words review_stuff
  /\ keyword_stage ascii_toLowerCase nc words projects
     = {| best_projectId := project_id review_stuff;
          best_sectionId := None;
          best_score := 1 |}.
Proof.
  intros nc words projects.
  assert (Hs : first_such (section_matches ascii_toLowerCase nc words)
                          (sections alpha) unnamed_review).
  { exists [], []. split; [reflexivity|]. split.
    - apply section_test_spec. vm_compute. reflexivity.
    - intros y []. }
  assert (Hf : first_such (tops ascii_toLowerCase nc words projects)
                          projects review_stuff).
  { exists [alpha], []. split; [reflexivity|]. split.
    - intros q [E|[E|[]]]; subst q; vm_compute; lia.
    - intros y [E|[]] H. subst y.
      specialize (H review_stuff (or_intror (or_introl eq_refl))).
      vm_compute in H. lia. }
  assert (Hp : 0 < keyword_total ascii_toLowerCase nc words review_stuff).
  { vm_compute. lia. }
  split; [exact Hs|]. split; [reflexivity|].
  split; [exact Hf|]. split; [exact Hp|].
  exact (proj1 (proj2 (keyword_stage_first_top ascii_toLowerCase nc words
                         projects))
               review_stuff Hf Hp).
Defined.

(** Two buckets score 2 on "review code": the first one is kept. *)
Example keyword_stage_keeps_first_of_equals :
  keyword_stage ascii_toLowerCase (lit "review code")
    [lit "review"; lit "code"] [finance; code_reviews; review_board]
  = {| best_projectId := project_id code_reviews;
       best_sectionId := None;
       best_score := 2 |}.
Proof. vm_compute. reflexivity. Qed.

Section PatternStage.

Variable toLowerCase : jsstring -> jsstring.
Variable nc : jsstring.
Variable words : list jsstring.
Variable projects : list ProjectWithSections.

Lemma pattern_step_bounds (best : Candidate) (rule : list jsstring * jsstring) :
  let next := pattern_step toLowerCase nc words projects best rule in
  best_score best <= best_score next
  /\ best_score next <= Nat.max (best_score best) 3
  /\ (3 <= best_score best -> next = best).
Proof.
  destruct rule as [keywords target]. unfold pattern_step.
  destruct (negb (existsb (fun k => includes nc k) keywords));
    [simpl; repeat split; lia|].
  destruct (find (fun p => includes (toLowerCase (project_name p)) target)
                 projects) as [p|]; [|simpl; repeat split; lia].
  destruct (matchSection toLowerCase nc words (sections p)) as [[|c r]|];
    cbn [nullable truthy];
    match goal with |- context [?a <? ?b] =>
      destruct (Nat.ltb_spec a b) end;
    simpl in *; repeat split; try lia; intros; try reflexivity; lia.
Qed.

Lemma pattern_fold_bounds (rules : list (list jsstring * jsstring)) :
  forall best,
    let final :=
      fold_left (pattern_step toLowerCase nc words projects) rules best in
    best_score best <= best_score final
    /\ best_score final <= Nat.max (best_score best) 3
    /\ (3 <= best_score best -> final = best).
Proof.
  induction rules as [|rule rules IH]; intros best.
  - simpl. repeat split; lia.
  - simpl. destruct (pattern_step_bounds best rule) as [H1 [H2 H3]].
    destruct (IH (pattern_step toLowerCase nc words projects best rule))
      as [I1 [I2 I3]].
    cbv zeta in *. split; [lia|]. split; [lia|].
    intros H. rewrite (H3 H) in *. apply I3. exact H.
Qed.

End PatternStage.

(** X10. The pattern stage never lowers the score of the best candidate, lifts
    it to 3 at most, and leaves a candidate that scores 3 or more in place:
    a bucket that wins the keyword stage with such a score and has a
    non-empty id is the route when no hint settles it. *)
Theorem pattern_stage_bounded
        (toLowerCase : jsstring -> jsstring) (content : jsstring)
        (projects : list ProjectWithSections) (best : Candidate) :
  let nc := normalize toLowerCase content in
  let words := tokenize nc in
  let final := pattern_stage toLowerCase nc words projects best in
  best_score best <= best_score final
  /\ best_score final <= Nat.max (best_score best) 3
  /\ (3 <= best_score best -> final = best)
  /\ (best = keyword_stage toLowerCase nc words projects ->
      3 <= best_score best -> best_projectId best <> [] ->
      routeTask toLowerCase content projects None
      = {| projectId := best_projectId best;
           sectionId := best_sectionId best |}).
Proof.
  intros nc words final.
  destruct (pattern_fold_bounds toLowerCase nc words projects patternProject
              best) as [H1 [H2 H3]].
  split; [exact H1|]. split; [exact H2|]. split; [exact H3|].
  intros Eb Hs Hid. unfold routeTask. simpl find_byHint. cbv iota.
  unfold route_unhinted. fold nc. fold words. rewrite <- Eb.
  unfold pattern_stage. rewrite (H3 Hs).
  destruct (best_projectId best); [congruence|reflexivity].
Qed.

Lemma pattern_stage_bounded_witness :
  let best :=
    keyword_stage ascii_toLowerCase (lit "engineering code review")
      [lit "engineering"; lit "code"; lit "review"] [engineering; finance] in
  3 <= best_score best
  /\ routeTask ascii_toLowerCase (lit "Engineering code review")
       [engineering; finance] None
     = {| projectId := project_id engineering;
          sectionId := Some (section_id code_review) |}.
Proof.
  intros best.
  assert (Hs : 3 <= best_score best) by (vm_compute; lia).
  split; [exact Hs|].
  assert (Eb : best = keyword_stage ascii_toLowerCase
                        (normalize ascii_toLowerCase
                           (lit "Engineering code review"))
                        (tokenize (normalize ascii_toLowerCase
                                     (lit "Engineering code review")))
                        [engineering; finance])
    by (vm_compute; reflexivity).
  assert (Hid : best_projectId best <> [])
    by (intros H; vm_compute in H; discriminate).
  exact (proj2 (proj2 (proj2 (pattern_stage_bounded ascii_toLowerCase
                                (lit "Engineering code review")
                                [engineering; finance] best)))
               Eb Hs Hid).
Defined.

(** X11. A hint that is blank, or that no bucket name matches, changes nothing:
    the route is the one found without a hint. *)
Theorem useless_hint_is_ignored
        (toLowerCase : jsstring -> jsstring) (content : jsstring)
        (projects : list ProjectWithSections) (hint : jsstring) :
  trim hint = []
  \/ (forall p, In p projects -> ~ name_matches_hint toLowerCase hint p) ->
  routeTask toLowerCase content projects (Some hint)
  = routeTask toLowerCase content projects None.
Proof.
  intros H.
  assert (E : find_byHint toLowerCase projects (Some hint) = None).
  { unfold find_byHint. destruct H as [H|H].
    - rewrite H. simpl. rewrite andb_false_r. reflexivity.
    - destruct (truthy (JsString hint) && truthy (JsString (trim hint)));
        [|reflexivity].
      apply find_absent. intros y Hy.
      apply (bool_false_iff _ _ (hint_matches_spec toLowerCase hint y)).
      apply H. exact Hy. }
  rewrite (route_not_hinted toLowerCase content projects (Some hint) E).
  rewrite (route_not_hinted toLowerCase content projects None eq_refl).
  reflexivity.
Qed.

Lemma useless_hint_is_ignored_witness :
  (forall p, In p [finance; inbox] ->
             ~ name_matches_hint ascii_toLowerCase (lit "Marketing") p)
  /\ routeTask ascii_toLowerCase (lit "pay the invoice") [finance; inbox]
       (Some (lit "Marketing"))
     = routeTask ascii_toLowerCase (lit "pay the invoice") [finance; inbox]
         None.
Proof.
  assert (H : forall p, In p [finance; inbox] ->
                ~ name_matches_hint ascii_toLowerCase (lit "Marketing") p).
  { intros p [E|[E|[]]] Hm; subst p; apply hint_matches_spec in Hm;
      vm_compute in Hm; discriminate. }
  split; [exact H|].
  apply (useless_hint_is_ignored ascii_toLowerCase (lit "pay the invoice")
           [finance; inbox] (lit "Marketing")).
  right. exact H.
Defined.

Lemma route_destination
      (toLowerCase : jsstring -> jsstring) (content : jsstring)
      (projects : list ProjectWithSections) (hint : option jsstring) :
  projects <> [] ->
  (forall p, In p projects -> project_id p <> []) ->
  projectId (routeTask toLowerCase content projects hint) <> [].
Proof.
  intros Hne Hids. unfold routeTask.

  destruct (find_byHint toLowerCase projects hint) as [p|] eqn:E.
  - simpl. apply Hids. unfold find_byHint in E.
    destruct hint as [h|]; [|discriminate].
    destruct (truthy (JsString h) && truthy (JsString (trim h)));
      [|discriminate].
    apply find_some in E. tauto.
  - unfold route_unhinted.
    match goal with |- context [truthy (JsString ?b)] =>
      destruct b as [|c r] eqn:Eb end.
    + simpl truthy. cbv iota. unfold fallback.
      match goal with |- context [find ?f projects] =>
        destruct (find f projects) as [p|] eqn:Ef end.
      * simpl. apply find_some in Ef. apply Hids. tauto.
      * destruct projects as [|first rest]; [congruence|].
        simpl. apply Hids. left. reflexivity.
    + simpl. discriminate.
Qed.

(** X12. With at least one bucket, and no bucket carrying the empty id, every
    content gets a destination: the empty id that stands for "no
    destination" is returned for the empty list only. *)
Theorem route_finds_a_destination
        (toLowerCase : jsstring -> jsstring) (content : jsstring)
        (projects : list ProjectWithSections) (hint : option jsstring) :
  projects <> [] ->
  (forall p, In p projects -> project_id p <> []) ->
  projectId (routeTask toLowerCase content projects hint) <> [].
Proof. apply route_destination. Qed.

Lemma route_finds_a_destination_witness :
  [finance; engineering] <> []
  /\ (forall p, In p [finance; engineering] -> project_id p <> [])
  /\ projectId (routeTask ascii_toLowerCase (lit "say hello")
                          [finance; engineering] None) <> [].
Proof.
  assert (H1 : [finance; engineering] <> []) by discriminate.
  assert (H2 : forall p, In p [finance; engineering] -> project_id p <> []).
  { intros p [E|[E|[]]]; subst p; discriminate. }
  split; [exact H1|]. split; [exact H2|].
  exact (route_finds_a_destination ascii_toLowerCase (lit "say hello")
           [finance; engineering] None H1 H2).
Defined.

(** ** More on the due date resolver *)

Lemma in_Z_range (lo n z : Z) :
  (0 <= lo)%Z -> (lo <= z < lo + n)%Z -> In z (Z_range lo n).
Proof.
  intros Hlo H. unfold Z_range. apply in_map_iff. exists (Z.to_nat z).
  split; [lia|]. apply in_seq. lia.
Qed.

Lemma years_ok : forallb year_ok (Z_range 1000 9000) = true.
Proof. vm_compute. reflexivity. Qed.

Lemma twos_ok : forallb two_ok (Z_range 0 100) = true.
Proof. vm_compute. reflexivity. Qed.

Lemma year_ok_range (y : Z) : (1000 <= y <= 9999)%Z -> year_ok y = true.
Proof.
  intros H. pose proof years_ok as Hall. rewrite forallb_forall in Hall.
  apply Hall. apply in_Z_range; lia.
Qed.

Lemma two_ok_range (v : Z) : (0 <= v <= 99)%Z -> two_ok v = true.
Proof.
  intros H. pose proof twos_ok as Hall. rewrite forallb_forall in Hall.
  apply Hall. apply in_Z_range; lia.
Qed.

Lemma app_same_length {A} (a a' b b' : list A) :
  length a = length a' -> a ++ b = a' ++ b' -> a = a' /\ b = b'.
Proof.
  revert a'. induction a as [|x a IH]; intros [|x' a'] Hl H;
    simpl in *; try discriminate.
  - auto.
  - inversion H; subst. destruct (IH a') as [E1 E2]; [lia|assumption|].
    subst. auto.
Qed.

Lemma date_parts (d : Date) :
  four_digit_day d ->
  year_ok (getFullYear d) = true
  /\ two_ok (getMonth d + 1) = true
  /\ two_ok (getDate d) = true.
Proof.
  intros [Hy [Hm Hd]].
  split; [apply year_ok_range; lia|].
  split; apply two_ok_range; lia.
Qed.

(** X6. For a day of a four-digit year the rendering is YYYY-MM-DD: ten units,
    digits but for the two hyphens. *)
Theorem toDateString_is_iso (d : Date) :
  four_digit_day d -> is_iso_date (toDateString d) = true.
Proof.
  intros H. destruct (date_parts d H) as [Hy [Hm Hd]].
  unfold toDateString. unfold year_ok, two_ok in *. cbv zeta in *.
  destruct (Number_toString (getFullYear d))
    as [|y1 [|y2 [|y3 [|y4 [|y5 Y]]]]]; try discriminate.
  destruct (padStart 2 (lit "0") (Number_toString (getMonth d + 1)))
    as [|m1 [|m2 [|m3 M]]]; try discriminate.
  destruct (padStart 2 (lit "0") (Number_toString (getDate d)))
    as [|d1 [|d2 [|d3 D]]]; try discriminate.
  simpl in *.
  repeat match goal with
         | H : _ && _ = true |- _ => apply andb_true_iff in H; destruct H
         end.
  repeat match goal with
         | H : is_digit _ = true |- _ => rewrite H; clear H
         end.
  reflexivity.
Qed.

Lemma toDateString_is_iso_witness :
  four_digit_day (at_day 2024 5 3 23)
  /\ is_iso_date (toDateString (at_day 2024 5 3 23)) = true.
Proof.
  assert (H : four_digit_day (at_day 2024 5 3 23)).
  { unfold four_digit_day. simpl. lia. }
  split; [exact H|]. exact (toDateString_is_iso (at_day 2024 5 3 23) H).
Defined.

(** X7. Two days of four-digit years that render alike are the same day of
    the same month of the same year: the rendering loses the time of day
    and nothing else. *)
Theorem toDateString_tells_the_day (d d' : Date) :
  four_digit_day d -> four_digit_day d' ->
  toDateString d = toDateString d' ->
  getFullYear d = getFullYear d'
  /\ getMonth d = getMonth d'
  /\ getDate d = getDate d'.
Proof.
  intros H H' E.
  destruct (date_parts d H) as [Hy [Hm Hd]].
  destruct (date_parts d' H') as [Hy' [Hm' Hd']].
  unfold toDateString in E. unfold year_ok, two_ok in *. cbv zeta in *.
  repeat match goal with
         | H : _ && _ = true |- _ => apply andb_true_iff in H; destruct H
         end.
  repeat match goal with
         | H : (_ =? _) = true |- _ => apply Nat.eqb_eq in H
         | H : (_ =? _)%Z = true |- _ => apply Z.eqb_eq in H
         end.
  apply app_same_length in E; [|congruence]. destruct E as [Ey E].
  apply (app_same_length (lit "-")) in E; [|reflexivity].
  destruct E as [_ E].
  apply app_same_length in E; [|congruence]. destruct E as [Em E].
  apply (app_same_length (lit "-")) in E; [|reflexivity].
  destruct E as [_ Ed].
  assert (Y : getFullYear d = getFullYear d') by congruence.
  assert (M : (getMonth d + 1 = getMonth d' + 1)%Z) by congruence.
  assert (D : getDate d = getDate d') by congruence.
  split; [exact Y|]. split; [lia|exact D].
Qed.

Lemma toDateString_tells_the_day_witness :
  four_digit_day (at_day 2024 5 3 23)
  /\ four_digit_day (at_day 2024 5 3 0)
  /\ getDate (at_day 2024 5 3 23) = getDate (at_day 2024 5 3 0).
Proof.
  assert (H : four_digit_day (at_day 2024 5 3 23)).
  { unfold four_digit_day. simpl. lia. }
  assert (H' : four_digit_day (at_day 2024 5 3 0)).
  { unfold four_digit_day. simpl. lia. }
  split; [exact H|]. split; [exact H'|].
  exact (proj2 (proj2 (toDateString_tells_the_day
                         (at_day 2024 5 3 23) (at_day 2024 5 3 0)
                         H H' eq_refl))).
Defined.

(** The year is not padded: before the year 1000 the rendering is no
    YYYY-MM-DD text. *)
Example toDateString_short_year :
  toDateString (at_day 987 0 1 12) = lit "987-01-01"
  /\ is_iso_date (toDateString (at_day 987 0 1 12)) = false.
Proof. vm_compute. split; reflexivity. Qed.

Section ResolverEdges.

Variable chrono_parse : jsstring -> Date -> list Date.
Variable clock : nat -> Date.

(** X5. A blank text resolves to nothing without the clock being read or the
    date parser being asked. On any other text the clock is read exactly
    once, and the first date the parser finds is the answer, whether the
    text holds an end-of-day marker or not. *)
Theorem parseDueDate_edges (text : jsstring) (t : nat) :
  (trim text = [] ->
   parseDueDate chrono_parse clock text t = (None, t))
  /\ (trim text <> [] ->
      snd (parseDueDate chrono_parse clock text t) = S t
      /\ forall first rest,
           chrono_parse (trim text) (clock t) = first :: rest ->
           fst (parseDueDate chrono_parse clock text t)
           = Some (toDateString first)).
Proof.
  split.
  - apply parseDueDate_blank.
  - intros H. rewrite parseDueDate_nonblank by exact H. split.
    + destruct (chrono_parse (trim text) (clock t)); [|reflexivity].
      destruct (test EOD_PATTERN (trim text)); reflexivity.
    + intros first rest E. rewrite E. reflexivity.
Qed.

End ResolverEdges.

Lemma parseDueDate_edges_witness :
  parseDueDate friday_parser midnight_clock (lit "  ") 0 = (None, 0)
  /\ snd (parseDueDate friday_parser midnight_clock (lit "by EOD") 0) = 1
  /\ fst (parseDueDate friday_parser midnight_clock (lit "by EOD") 0)
     = Some (lit "2024-06-07").
Proof.
  assert (Hne : trim (lit "by EOD") <> []) by (vm_compute; discriminate).
  split.
  - exact (proj1 (parseDueDate_edges friday_parser midnight_clock
                    (lit "  ") 0) eq_refl).
  - destruct (proj2 (parseDueDate_edges friday_parser midnight_clock
                       (lit "by EOD") 0) Hne) as [Ht Hd].
    split; [exact Ht|].
    exact (Hd (at_day 2024 5 7 12) [] eq_refl).
Defined.

(** ** The lines that open an item *)

Lemma one_of_in (cs : list N) (c : N) :
  In c cs -> existsb (N.eqb c) cs = true.
Proof.
  intros H. apply existsb_exists. exists c. split; [exact H|apply N.eqb_refl].
Qed.

Lemma matches_star_class (p : N -> bool) (b a : jsstring) :
  matches (Star (Class p)) b a b a.
Proof. apply M_StarStop. Qed.

Lemma matches_plus_class (p : N -> bool) (ds : jsstring) :
  forallb p ds = true -> ds <> [] ->
  forall b a, matches (Plus (Class p)) b (ds ++ a) (rev ds ++ b) a.
Proof.
  intros Hall Hne b a. destruct ds as [|d ds]; [congruence|].
  simpl in Hall. apply andb_true_iff in Hall. destruct Hall as [Hd Hds].
  unfold Plus. simpl app. eapply M_Seq; [apply M_Class; exact Hd|].
  simpl rev. rewrite <- app_assoc. simpl.
  clear Hne Hd. revert b d. induction ds as [|x ds IH]; intros b d.
  - simpl. apply M_StarStop.
  - simpl in Hds. apply andb_true_iff in Hds. destruct Hds as [Hx Hds].
    simpl. rewrite <- app_assoc. simpl.
    eapply M_StarStep; [apply M_Class; exact Hx| |apply IH; exact Hds].
    simpl. lia.
Qed.

Lemma test_at_start (r : regex) (line b' a' : jsstring) :
  matches r [] line b' a' -> test r line = true.
Proof.
  intros H. apply test_matches. exists [], line, b', a'. auto.
Qed.

Lemma isAction_bullet (line : jsstring) :
  is_bullet line = true -> isAction line = true.
Proof.
  intros H. unfold isAction. cbv zeta. rewrite H.
  rewrite orb_true_r. reflexivity.
Qed.

(** An anchored pattern that starts with a class does not match a text
    whose first unit is outside the class. *)
Lemma anchored_class_fails (p : N -> bool) (r : regex) (x : N)
      (rest : jsstring) :
  p x = false -> exec (Seq Bol (Seq (Class p) r)) (x :: rest) = None.
Proof.
  intros H. apply exec_none.
  destruct (test (Seq Bol (Seq (Class p) r)) (x :: rest)) eqn:E;
    [|reflexivity].
  apply test_matches in E. destruct E as [pre [a [b' [a' [Es Hm]]]]].
  apply matches_Seq_inv in Hm. destruct Hm as [b1 [a1 [Hb Hm]]].
  apply matches_Bol_inv in Hb. destruct Hb as [Hpre [_ Ea]]. subst a1.
  assert (pre = []) by (rewrite <- (rev_involutive pre), Hpre; reflexivity).
  subst pre. simpl in Es. subst a.
  apply matches_Seq_inv in Hm. destruct Hm as [b2 [a2 [Hc _]]].
  apply matches_Class_inv in Hc. destruct Hc as [c [Ec [_ Hp]]].
  inversion Ec; subst. congruence.
Qed.

Lemma strip_markers_letter (x : N) (rest : jsstring) :
  (65 <= x <= 122)%N -> strip_markers (x :: rest) = x :: rest.
Proof.
  intros Hx. unfold strip_markers, replace.
  unfold re_bullet0, bullet_mark, OneOf.
  rewrite anchored_class_fails.
  - unfold re_number0, Plus, digit.
    destruct (exec _ (x :: rest)) as [[[pre m] post]|] eqn:E; [|reflexivity].
    exfalso. apply exec_sound in E. destruct E as [Es Hm].
    apply matches_Seq_inv in Hm. destruct Hm as [b1 [a1 [Hb Hm]]].
    apply matches_Bol_inv in Hb. destruct Hb as [Hpre [_ Ea]]. subst a1.
    assert (pre = []) by (rewrite <- (rev_involutive pre), Hpre; reflexivity).
    subst pre. simpl in Es.
    apply matches_Seq_inv in Hm. destruct Hm as [b2 [a2 [Hd _]]].
    apply matches_Seq_inv in Hd. destruct Hd as [b3 [a3 [Hc _]]].
    apply matches_Class_inv in Hc. destruct Hc as [c [Ec [_ Hp]]].
    rewrite <- Es in Ec. inversion Ec; subst c.
    unfold is_digit in Hp. decide_comparisons; discriminate.
  - simpl. unfold BULLET. decide_comparisons; reflexivity.
Qed.

(** X4. The four kinds of marker: a line that starts with a bullet and a
    space, with a number, a dot or parenthesis and a space, with a checkbox
    and a space, or with one of the labels and a colon, opens an action
    item; so does any line of more than three units that starts with a
    bullet. *)
Theorem marked_lines_are_actions :
  (forall c sp rest,
      In c [45; 42; BULLET]%N -> is_space sp = true ->
      isAction (c :: sp :: rest) = true)
  /\ (forall ds p sp rest,
         ds <> [] -> forallb is_digit ds = true ->
         In p [46; 41]%N -> is_space sp = true ->
         isAction (ds ++ p :: sp :: rest) = true)
  /\ (forall x sp rest,
         is_space x = true \/ x = 120%N \/ x = 88%N ->
         is_space sp = true ->
         isAction (91 :: x :: 93 :: sp :: rest)%N = true)
  /\ (forall label m rest,
         In label action_labels -> same_letters m label ->
         isAction (m ++ 58%N :: rest) = true)
  /\ (forall c rest,
         In c [45; 42; BULLET]%N -> 3 < length (c :: rest) ->
         isAction (c :: rest) = true).
Proof.
  split; [|split; [|split; [|split]]].
  - intros c sp rest Hc Hsp. apply isAction_bullet. unfold is_bullet.
    rewrite (test_at_start re_bullet1 _ (sp :: c :: []) rest);
      [reflexivity|].
    unfold re_bullet1, bullet_mark, OneOf, Plus, ws.
    eapply M_Seq; [apply M_Bol|].
    eapply M_Seq; [apply M_Class; apply one_of_in; exact Hc|].
    eapply M_Seq; [apply M_Class; exact Hsp|apply M_StarStop].
  - intros ds p sp rest Hne Hds Hp Hsp. apply isAction_bullet.
    unfold is_bullet.
    rewrite (test_at_start re_number1 _ (sp :: p :: rev ds ++ []) rest);
      [apply orb_true_r|].
    unfold re_number1, dot_or_paren, OneOf, digit, ws.
    eapply M_Seq; [apply M_Bol|].
    eapply M_Seq; [apply matches_plus_class; assumption|].
    eapply M_Seq; [apply M_Class; apply one_of_in; exact Hp|].
    unfold Plus. eapply M_Seq; [apply M_Class; exact Hsp|apply M_StarStop].
  - intros x sp rest Hx Hsp. unfold isAction. cbv zeta.
    rewrite (test_at_start re_bracket1 _ [sp; 93; x; 91]%N rest).
    + rewrite orb_true_r. reflexivity.
    + unfold re_bracket1, space_or_x, ChrI, Plus, ws.
      eapply M_Seq; [apply M_Bol|].
      eapply M_Seq; [apply M_Class; reflexivity|].
      eapply M_Seq.
      { apply M_Class. destruct Hx as [Hx|[Hx|Hx]];
          [rewrite Hx; reflexivity|subst x; reflexivity|subst x; reflexivity]. }
      eapply M_Seq; [apply M_Class; reflexivity|].
      eapply M_Seq; [apply M_Class; exact Hsp|apply M_StarStop].
  - intros label m rest Hl Hm. unfold isAction. cbv zeta.
    assert (Hfirst : exists x m', m = x :: m' /\ (65 <= x <= 122)%N).
    { unfold action_labels in Hl.
      assert (Hw : exists c w', label = c :: w'
                                /\ is_upper c || is_lower c = true).
      { destruct Hl as [E|[E|[E|[E|[E|[E|[]]]]]]]; subst label;
          eexists; eexists; split; reflexivity. }
      destruct Hw as [c [w' [Ew Hc]]].
      destruct (same_letters_head m label c w' Hm Ew) as [x [m' [Em Hx]]].
      exists x, m'. split; [exact Em|].
      exact (canonicalize_letter c x Hc Hx). }
    destruct Hfirst as [x [m' [Em Hx]]].
    assert (Es : strip_markers (m ++ 58%N :: rest) = m ++ 58%N :: rest).
    { rewrite Em. simpl. apply strip_markers_letter. exact Hx. }
    rewrite Es.
    assert (Ht : test re_actionPrefix (m ++ 58%N :: rest) = true).
    { apply (test_at_start _ _ (58%N :: rev m ++ []) rest).
      unfold re_actionPrefix, ChrI.
      eapply M_Seq; [apply M_Bol|].
      eapply M_Seq.
      { apply matches_literals. exists label, m. auto. }
      eapply M_Seq; [apply M_Class; reflexivity|apply M_StarStop]. }
    unfold test in Ht.
    destruct (exec re_actionPrefix (m ++ 58%N :: rest))
      as [[[pre mt] post]|] eqn:E; [|discriminate].
    unfold matched_length.
    destruct mt as [|y mt]; [|reflexivity].
    exfalso. apply exec_sound in E. destruct E as [_ Hmt].
    unfold re_actionPrefix in Hmt. simpl app in Hmt.
    apply matches_Seq_inv in Hmt. destruct Hmt as [b1 [a1 [H0 Hmt]]].
    apply matches_Bol_inv in H0. destruct H0 as [_ [_ E0]].
    apply matches_Seq_inv in Hmt. destruct Hmt as [b2 [a2 [H1 Hmt]]].
    apply matches_Seq_inv in Hmt. destruct Hmt as [b3 [a3 [H2 H3]]].
    apply matches_consumes in H1. destruct H1 as [m1 [E1 _]].
    apply matches_Class_inv in H2. destruct H2 as [c [E2 _]].
    apply matches_consumes in H3. destruct H3 as [m3 [E3 _]].
    assert (Hlen : length post = length (m1 ++ c :: m3 ++ post))
      by congruence.
    rewrite !length_app in Hlen. simpl in Hlen. rewrite length_app in Hlen.
    lia.
  - intros c rest Hc Hlen. unfold isAction. cbv zeta.
    rewrite (test_at_start re_bullet0 _ [c] rest).
    + apply Nat.ltb_lt in Hlen. rewrite Hlen. simpl.
      rewrite !orb_true_r. reflexivity.
    + unfold re_bullet0, bullet_mark, OneOf.
      eapply M_Seq; [apply M_Bol|].
      eapply M_Seq; [apply M_Class; apply one_of_in; exact Hc|].
      apply M_StarStop.
Qed.

Lemma marked_lines_are_actions_witness :
  In 45%N [45; 42; BULLET]%N /\ is_space 32%N = true
  /\ isAction (lit "- call Bob") = true.
Proof.
  assert (H1 : In 45%N [45; 42; BULLET]%N) by (left; reflexivity).
  assert (H2 : is_space 32%N = true) by reflexivity.
  split; [exact H1|]. split; [exact H2|].
  exact (proj1 marked_lines_are_actions 45%N 32%N (lit "call Bob") H1 H2).
Defined.

(** ** The meeting notes tool *)

Lemma extract_without_subtasks
      (chrono_parse : jsstring -> Date -> list Date) (clock : nat -> Date)
      (s : jsstring) (t : nat) :
  exists items t',
    extractActionItems chrono_parse clock (JsString s) t = Returned (items, t')
    /\ Forall (fun it => subtasks it = []) items.
Proof.
  rewrite extract_emit. destruct s as [|c s].
  - exists [], t. split; [reflexivity|constructor].
  - pose proof (emit_within_bounds chrono_parse clock
                  (split_lines (c :: s)) t) as H.
    destruct (emit chrono_parse clock (split_lines (c :: s)) t)
      as [items t'].
    exists items, t'. split; [reflexivity|].
    eapply Forall_impl; [|exact H]. intros it [_ [_ Hs]]. exact Hs.
Qed.

Section MeetingNotesFacts.

Variable chrono_parse : jsstring -> Date -> list Date.
Variable clock : nat -> Date.
Variable toLowerCase : jsstring -> jsstring.
Variable client_getProjects :
  list Request -> settled (list ProjectWithSections).
Variable client_createTask :
  list Request -> CreateTaskParams -> settled Task.
Variable client_createSubtask :
  list Request -> jsstring -> jsstring -> settled Task.
Variable projects : list ProjectWithSections.
Variable target : option jsstring.

Lemma process_item_step (it : ExtractedActionItem) summary created h :
  subtasks it = [] ->
  process_item toLowerCase client_createTask client_createSubtask
    projects target (summary, created, h) it
  = if routable toLowerCase projects target it then
      match client_createTask h
              (item_params it
                 (routeTask toLowerCase (content it) projects target)) with
      | Fulfilled task =>
          (summary ++
           [created_line task
              (routeTask toLowerCase (content it) projects target)],
           created + 1,
           h ++ [request_for toLowerCase projects target it])
      | Rejected msg =>
          (summary ++ [failed_line it msg], created,
           h ++ [request_for toLowerCase projects target it])
      end
    else (summary, created, h).
Proof.
  intros Hit. unfold process_item, routable, request_for.
  destruct (truthy (JsString (projectId
              (routeTask toLowerCase (content it) projects target))));
    [|reflexivity].
  simpl negb. cbv iota.
  destruct (client_createTask h
              (item_params it
                 (routeTask toLowerCase (content it) projects target)));
    [|reflexivity].
  rewrite Hit. reflexivity.
Qed.

(** The loop over items without subtasks: one [createTask] call for each
    item that gets a destination, whatever the earlier calls answered. *)
Lemma process_items_trace (items : list ExtractedActionItem) :
  Forall (fun it => subtasks it = []) items ->
  forall summary created h,
    exists summary' created',
      fold_left (process_item toLowerCase client_createTask
                   client_createSubtask projects target)
                items (summary, created, h)
      = (summary', created',
         h ++ map (request_for toLowerCase projects target)
                  (filter (routable toLowerCase projects target) items))
      /\ length summary'
         = length summary
           + length (filter (routable toLowerCase projects target) items)
      /\ created <= created'
         <= created
            + length (filter (routable toLowerCase projects target) items).
Proof.
  induction 1 as [|it items Hit _ IH]; intros summary created h.
  - exists summary, created. simpl. rewrite app_nil_r.
    split; [reflexivity|]. split; lia.
  - cbn [fold_left filter]. rewrite (process_item_step it _ _ _ Hit).
    destruct (routable toLowerCase projects target it).
    + destruct (client_createTask h
                  (item_params it
                     (routeTask toLowerCase (content it) projects target)))
        as [task|msg];
        match goal with
        | |- context [fold_left _ items (?s, ?c, ?hh)] =>
            destruct (IH s c hh) as [s' [c' [E [Hl Hc]]]]
        end;
        exists s', c'; rewrite E; rewrite <- app_assoc; simpl;
        (split; [reflexivity|]);
        rewrite length_app in Hl; simpl in Hl; split; lia.
    + destruct (IH summary created h) as [s' [c' [E [Hl Hc]]]].
      exists s', c'. rewrite E. split; [reflexivity|]. split; lia.
Qed.

(** What the tool does once the list of projects has arrived. *)
Lemma parseMeetingNotes_fulfilled (rawNotes : jsstring) (t : nat)
      (h : list Request) :
  client_getProjects h = Fulfilled projects ->
  exists items t' summary created,
    extractActionItems chrono_parse clock (JsString rawNotes) t
    = Returned (items, t')
    /\ parseMeetingNotes chrono_parse clock toLowerCase client_getProjects
         client_createTask client_createSubtask rawNotes target t h
       = (Fulfilled (report (length items) created summary), t',
          h ++ GetProjects ::
            map (request_for toLowerCase projects target)
                (filter (routable toLowerCase projects target) items))
    /\ length summary
       = length (filter (routable toLowerCase projects target) items)
    /\ created
       <= length (filter (routable toLowerCase projects target) items).
Proof.
  intros Hp. unfold parseMeetingNotes.
  destruct (extract_without_subtasks chrono_parse clock rawNotes t)
    as [items [t' [E Hsub]]].
  rewrite E, Hp.
  destruct (process_items_trace items Hsub [] 0 (h ++ [GetProjects]))
    as [s' [c' [Ef [Hl Hc]]]].
  rewrite Ef. exists items, t', s', c'.
  rewrite <- app_assoc. simpl. split; [reflexivity|].
  split; [reflexivity|]. simpl in Hl. split; [exact Hl|lia].
Qed.

(** X13. When the client hands over the projects, the tool makes one
    [createTask] call for each extracted item that gets a destination, in
    the order of the items and whatever the earlier calls answered, makes
    no [createSubtask] call, and fulfils: a failed creation stops
    nothing. *)
Theorem parseMeetingNotes_calls (rawNotes : jsstring) (t : nat)
        (h : list Request) :
  client_getProjects h = Fulfilled projects ->
  exists items t' text,
    extractActionItems chrono_parse clock (JsString rawNotes) t
    = Returned (items, t')
    /\ parseMeetingNotes chrono_parse clock toLowerCase client_getProjects
         client_createTask client_createSubtask rawNotes target t h
       = (Fulfilled text, t',
          h ++ GetProjects ::
            map (request_for toLowerCase projects target)
                (filter (routable toLowerCase projects target) items)).
Proof.
  intros Hp.
  destruct (parseMeetingNotes_fulfilled rawNotes t h Hp)
    as [items [t' [summary [created [E [Ep _]]]]]].
  exists items, t', (report (length items) created summary). auto.
Qed.

(** X14. The text the tool answers opens with the count of extracted items and
    the count of created tasks, which never exceeds the number of items
    that got a destination, and then has one entry per such item. *)
Theorem parseMeetingNotes_report (rawNotes : jsstring) (t : nat)
        (h : list Request) :
  client_getProjects h = Fulfilled projects ->
  exists items t' summary created,
    extractActionItems chrono_parse clock (JsString rawNotes) t
    = Returned (items, t')
    /\ fst (fst (parseMeetingNotes chrono_parse clock toLowerCase
                   client_getProjects client_createTask client_createSubtask
                   rawNotes target t h))
       = Fulfilled (report (length items) created summary)
    /\ length summary
       = length (filter (routable toLowerCase projects target) items)
    /\ created <= length summary <= length items.
Proof.
  intros Hp.
  destruct (parseMeetingNotes_fulfilled rawNotes t h Hp)
    as [items [t' [summary [created [E [Ep [Hl Hc]]]]]]].
  exists items, t', summary, created. rewrite Ep. simpl.
  split; [exact E|]. split; [reflexivity|]. split; [exact Hl|].
  pose proof (filter_length_le (routable toLowerCase projects target) items).
  lia.
Qed.

(** X15. When the client cannot list the projects the tool rejects with the
    client's message and creates nothing. *)
Theorem parseMeetingNotes_rejects (rawNotes : jsstring) (t : nat)
        (h : list Request) (msg : jsstring) :
  client_getProjects h = Rejected msg ->
  exists t',
    parseMeetingNotes chrono_parse clock toLowerCase client_getProjects
      client_createTask client_createSubtask rawNotes target t h
    = (Rejected msg, t', h ++ [GetProjects]).
Proof.
  intros Hp. unfold parseMeetingNotes.
  destruct (extract_without_subtasks chrono_parse clock rawNotes t)
    as [items [t' [E _]]].
  rewrite E, Hp. exists t'. reflexivity.
Qed.

(** X16. With at least one project, and no project carrying the empty id, no
    extracted item is skipped: each one is sent to the client. *)
Theorem parseMeetingNotes_skips_nothing (rawNotes : jsstring) (t : nat)
        (h : list Request) :
  client_getProjects h = Fulfilled projects ->
  projects <> [] ->
  (forall p, In p projects -> project_id p <> []) ->
  exists items t',
    extractActionItems chrono_parse clock (JsString rawNotes) t
    = Returned (items, t')
    /\ snd (parseMeetingNotes chrono_parse clock toLowerCase
              client_getProjects client_createTask client_createSubtask
              rawNotes target t h)
       = h ++ GetProjects ::
           map (request_for toLowerCase projects target) items.
Proof.
  intros Hp Hne Hids.
  destruct (parseMeetingNotes_fulfilled rawNotes t h Hp)
    as [items [t' [summary [created [E [Ep _]]]]]].
  exists items, t'. rewrite Ep. simpl. split; [exact E|].
  f_equal. f_equal. f_equal.
  apply forallb_filter_id. apply forallb_forall. intros it _.
  unfold routable.
  pose proof (route_destination toLowerCase (content it) projects target
                Hne Hids) as Hr.
  destruct (projectId (routeTask toLowerCase (content it) projects target));
    [congruence|reflexivity].
Qed.

End MeetingNotesFacts.

(** X17. Without any project nothing is created: the answer is the opening line
    alone, with a count of zero, and the client is asked for nothing but
    the projects. *)
Theorem parseMeetingNotes_without_projects
        (chrono_parse : jsstring -> Date -> list Date) (clock : nat -> Date)
        (toLowerCase : jsstring -> jsstring)
        (client_getProjects : list Request -> settled (list ProjectWithSections))
        (client_createTask : list Request -> CreateTaskParams -> settled Task)
        (client_createSubtask :
           list Request -> jsstring -> jsstring -> settled Task)
        (rawNotes : jsstring) (target : option jsstring) (t : nat)
        (h : list Request) :
  client_getProjects h = Fulfilled [] ->
  exists items t',
    extractActionItems chrono_parse clock (JsString rawNotes) t
    = Returned (items, t')
    /\ parseMeetingNotes chrono_parse clock toLowerCase client_getProjects
         client_createTask client_createSubtask rawNotes target t h
       = (Fulfilled (lit "Parsed " ++ count_text (length items)
                     ++ lit " action item(s); created 0 task(s)."),
          t', h ++ [GetProjects]).
Proof.
  intros Hp.
  destruct (parseMeetingNotes_fulfilled chrono_parse clock toLowerCase
              client_getProjects client_createTask client_createSubtask
              [] target rawNotes t h Hp)
    as [items [t' [summary [created [E [Ep [Hl Hc]]]]]]].
  assert (Hf : filter (routable toLowerCase [] target) items = []).
  { clear. induction items as [|it items IH]; [reflexivity|].
    simpl. unfold routable at 1. rewrite route_no_projects. simpl.
    exact IH. }
  rewrite Hf in *. simpl in Hl, Hc.
  destruct summary; [|discriminate].
  assert (created = 0) by lia. subst created.
  exists items, t'. split; [exact E|]. rewrite Ep. reflexivity.
Qed.

Lemma parseMeetingNotes_without_projects_witness :
  no_projects_client [] = Fulfilled []
  /\ exists items t',
       extractActionItems no_chrono_match midnight_clock (JsString two_notes) 0
       = Returned (items, t')
       /\ parseMeetingNotes no_chrono_match midnight_clock ascii_toLowerCase
            no_projects_client flaky_createTask any_createSubtask
            two_notes None 0 []
          = (Fulfilled (lit "Parsed " ++ count_text (length items)
                        ++ lit " action item(s); created 0 task(s)."),
             t', [] ++ [GetProjects]).
Proof.
  split; [reflexivity|].
  exact (parseMeetingNotes_without_projects no_chrono_match midnight_clock
           ascii_toLowerCase no_projects_client flaky_createTask
           any_createSubtask two_notes None 0 [] eq_refl).
Defined.

Lemma parseMeetingNotes_calls_witness :
  two_projects_client [] = Fulfilled [finance; inbox]
  /\ exists items t' text,
       extractActionItems no_chrono_match midnight_clock (JsString two_notes) 0
       = Returned (items, t')
       /\ parseMeetingNotes no_chrono_match midnight_clock ascii_toLowerCase
            two_projects_client flaky_createTask any_createSubtask
            two_notes None 0 []
          = (Fulfilled text, t',
             [] ++ GetProjects ::
               map (request_for ascii_toLowerCase [finance; inbox] None)
                   (filter (routable ascii_toLowerCase [finance; inbox] None)
                           items)).
Proof.
  split; [reflexivity|].
  exact (parseMeetingNotes_calls no_chrono_match midnight_clock
           ascii_toLowerCase two_projects_client flaky_createTask
           any_createSubtask [finance; inbox] None two_notes 0 [] eq_refl).
Defined.

Lemma parseMeetingNotes_report_witness :
  two_projects_client [] = Fulfilled [finance; inbox]
  /\ exists items t' summary created,
       extractActionItems no_chrono_match midnight_clock (JsString two_notes) 0
       = Returned (items, t')
       /\ fst (fst (parseMeetingNotes no_chrono_match midnight_clock
                      ascii_toLowerCase two_projects_client flaky_createTask
                      any_createSubtask two_notes None 0 []))
          = Fulfilled (report (length items) created summary)
       /\ length summary
          = length (filter (routable ascii_toLowerCase [finance; inbox] None)
                           items)
       /\ created <= length summary <= length items.
Proof.
  split; [reflexivity|].
  exact (parseMeetingNotes_report no_chrono_match midnight_clock
           ascii_toLowerCase two_projects_client flaky_createTask
           any_createSubtask [finance; inbox] None two_notes 0 [] eq_refl).
Defined.

Lemma parseMeetingNotes_rejects_witness :
  offline_client [] = Rejected (lit "network down")
  /\ exists t',
       parseMeetingNotes no_chrono_match midnight_clock ascii_toLowerCase
         offline_client flaky_createTask any_createSubtask two_notes None 0 []
       = (Rejected (lit "network down"), t', [] ++ [GetProjects]).
Proof.
  split; [reflexivity|].
  exact (parseMeetingNotes_rejects no_chrono_match midnight_clock
           ascii_toLowerCase offline_client flaky_createTask
           any_createSubtask None two_notes 0 [] (lit "network down") eq_refl).
Defined.

Lemma parseMeetingNotes_skips_nothing_witness :
  two_projects_client [] = Fulfilled [finance; inbox]
  /\ [finance; inbox] <> []
  /\ (forall p, In p [finance; inbox] -> project_id p <> [])
  /\ exists items t',
       extractActionItems no_chrono_match midnight_clock (JsString two_notes) 0
       = Returned (items, t')
       /\ snd (parseMeetingNotes no_chrono_match midnight_clock
                 ascii_toLowerCase two_projects_client flaky_createTask
                 any_createSubtask two_notes None 0 [])
          = [] ++ GetProjects ::
              map (request_for ascii_toLowerCase [finance; inbox] None) items.
Proof.
  assert (H1 : [finance; inbox] <> []) by discriminate.
  assert (H2 : forall p, In p [finance; inbox] -> project_id p <> []).
  { intros p [E|[E|[]]]; subst p; discriminate. }
  split; [reflexivity|]. split; [exact H1|]. split; [exact H2|].
  exact (parseMeetingNotes_skips_nothing no_chrono_match midnight_clock
           ascii_toLowerCase two_projects_client flaky_createTask
           any_createSubtask [finance; inbox] None two_notes 0 []
           eq_refl H1 H2).
Defined.

(** Two notes, the first creation failing: both are attempted and the
    answer tells which one went through. *)
Example parseMeetingNotes_flaky_run :
  parseMeetingNotes no_chrono_match midnight_clock ascii_toLowerCase
    two_projects_client flaky_createTask any_createSubtask two_notes None 0 []
  = (Fulfilled
       (lit "Parsed 2 action item(s); created 1 task(s)." ++ [LF]
        ++ lit "Failed to create " ++ QUOTE ++ lit "pay the invoice" ++ QUOTE
        ++ lit ": service unavailable" ++ [LF]
        ++ lit "Created: " ++ QUOTE ++ lit "say hello" ++ QUOTE
        ++ lit " in project p-inbox"),
     4,
     [ GetProjects;
       CreateTask {| param_content := lit "pay the invoice";
                     param_description := Some (lit "- pay the invoice");
                     param_projectId := Some (lit "p-fin");
                     param_sectionId := None;
                     param_due := None;
                     param_priority := Some 4%Z;
                     param_parentId := None;
                     param_labels := Some [] |};
       CreateTask {| param_content := lit "say hello";
                     param_description := Some (lit "- say hello");
                     param_projectId := Some (lit "p-inbox");
                     param_sectionId := None;
                     param_due := None;
                     param_priority := Some 4%Z;
                     param_parentId := None;
                     param_labels := Some [] |} ]).
Proof. vm_compute. reflexivity. Qed.

(** ** The task tools *)

Lemma find_some_first {A} (f : A -> bool) (l : list A) (x : A) :
  find f l = Some x ->
  exists l1 l2,
    l = l1 ++ x :: l2 /\ f x = true /\ forall y, In y l1 -> f y = false.
Proof.
  induction l as [|a l IH]; simpl; [discriminate|].
  destruct (f a) eqn:Ea.
  - intros E. injection E as E. subst a. exists [], l.
    split; [reflexivity|]. split; [exact Ea|]. intros y [].
  - intros E. destruct (IH E) as [l1 [l2 [El [Hx Hl]]]].
    exists (a :: l1), l2. split; [rewrite El; reflexivity|].
    split; [exact Hx|]. intros y [Ey|Hy]; [subst y; exact Ea|].
    apply Hl. exact Hy.
Qed.

Lemma includes_nothing (s : jsstring) : includes s [] = true.
Proof. apply includes_spec. exists [], s. reflexivity. Qed.

Section TaskToolFacts.

Variable toLowerCase : jsstring -> jsstring.
Variable client_getTasks : list Request -> settled (list Task).
Variable client_closeTask : list Request -> jsstring -> settled bool.
Variable client_createSubtask :
  list Request -> jsstring -> jsstring -> settled Task.

Lemma task_test_spec (name : jsstring) (t : Task) :
  includes (toLowerCase (task_content t)) (toLowerCase (trim name)) = true
  <-> task_mentions toLowerCase name t.
Proof. unfold task_mentions. apply includes_spec. Qed.

(** The four ways a lookup by name ends. *)
Lemma findTaskByName_cases (name : jsstring) (h : list Request) :
  (toLowerCase (trim name) = []
   /\ findTaskByName toLowerCase client_getTasks name h = (Fulfilled None, h))
  \/ (toLowerCase (trim name) <> []
      /\ exists msg,
           client_getTasks h = Rejected msg
           /\ findTaskByName toLowerCase client_getTasks name h
              = (Rejected msg, h ++ [GetTasks]))
  \/ (toLowerCase (trim name) <> []
      /\ exists tasks,
           client_getTasks h = Fulfilled tasks
           /\ (forall t, In t tasks -> ~ task_mentions toLowerCase name t)
           /\ findTaskByName toLowerCase client_getTasks name h
              = (Fulfilled None, h ++ [GetTasks]))
  \/ (toLowerCase (trim name) <> []
      /\ exists tasks task,
           client_getTasks h = Fulfilled tasks
           /\ first_such (task_mentions toLowerCase name) tasks task
           /\ findTaskByName toLowerCase client_getTasks name h
              = (Fulfilled (Some task), h ++ [GetTasks])).
Proof.
  unfold findTaskByName.
  destruct (toLowerCase (trim name)) as [|c lower] eqn:El.
  - left. split; reflexivity.
  - right. cbn [truthy negb].
    assert (Hne : c :: lower <> []) by discriminate.
    destruct (client_getTasks h) as [tasks|msg] eqn:Eg.
    + right.
      destruct (find (fun t => includes (toLowerCase (task_content t))
                                        (c :: lower)) tasks)
        as [task|] eqn:Ef.
      * right. split; [exact Hne|]. exists tasks, task.
        split; [reflexivity|]. split; [|reflexivity].
        destruct (find_some_first _ _ _ Ef) as [l1 [l2 [E [Hx Hl]]]].
        exists l1, l2. split; [exact E|]. split.
        -- apply task_test_spec. rewrite El. exact Hx.
        -- intros y Hy.
           apply (bool_false_iff _ _ (task_test_spec name y)).
           rewrite El. apply Hl. exact Hy.
      * left. split; [exact Hne|]. exists tasks.
        split; [reflexivity|]. split; [|reflexivity].
        intros t Ht.
        apply (bool_false_iff _ _ (task_test_spec name t)).
        rewrite El. exact (find_none _ _ Ef t Ht).
    + left. split; [exact Hne|]. exists msg. split; reflexivity.
Qed.

Lemma first_such_unique {A} (P : A -> Prop) (l : list A) (x y : A) :
  first_such P l x -> first_such P l y -> x = y.
Proof.
  intros [l1 [l2 [E1 [Px H1]]]] [k1 [k2 [E2 [Py H2]]]].
  subst l. revert k1 E2 H2.
  induction l1 as [|a l1 IH]; intros k1 E2 H2.
  - destruct k1 as [|b k1]; simpl in E2.
    + injection E2 as E _. exact E.
    + injection E2 as E _. subst b. exfalso.
      apply (H2 x); [left; reflexivity|exact Px].
  - destruct k1 as [|b k1]; simpl in E2.
    + injection E2 as E _. subst a. exfalso.
      apply (H1 y); [left; reflexivity|exact Py].
    + injection E2 as E E2. subst b. apply (IH (fun z Hz => H1 z (or_intror Hz)) k1 E2).
      intros z Hz. apply H2. right. exact Hz.
Qed.

Lemma findTaskByName_first (name : jsstring) (h : list Request)
      (tasks : list Task) (task : Task) :
  toLowerCase (trim name) <> [] ->
  client_getTasks h = Fulfilled tasks ->
  first_such (task_mentions toLowerCase name) tasks task ->
  findTaskByName toLowerCase client_getTasks name h
  = (Fulfilled (Some task), h ++ [GetTasks]).
Proof.
  intros Hne Eg [l1 [l2 [E [Hp Hl]]]]. unfold findTaskByName.
  destruct (toLowerCase (trim name)) as [|c lower] eqn:El; [congruence|].
  cbn [truthy negb]. rewrite Eg. subst tasks.
  rewrite find_first; [reflexivity| |].
  - rewrite <- El. apply task_test_spec. exact Hp.
  - intros y Hy. rewrite <- El.
    apply (bool_false_iff _ _ (task_test_spec name y)). apply Hl. exact Hy.
Qed.

(** X18. Whatever the service answers, completing a task by name closes
    at most one task, and only the first task of the fetched list whose
    content mentions the name. *)
Theorem completeTask_closes_at_most_one (name : jsstring) (h : list Request) :
  let h' := snd (completeTask toLowerCase client_getTasks client_closeTask
                   name h) in
  h' = h
  \/ h' = h ++ [GetTasks]
  \/ exists tasks task,
       toLowerCase (trim name) <> []
       /\ client_getTasks h = Fulfilled tasks
       /\ first_such (task_mentions toLowerCase name) tasks task
       /\ h' = h ++ [GetTasks; CloseTask (task_id task)].
Proof.
  unfold completeTask.
  destruct (findTaskByName_cases name h)
    as [[_ E]|[[_ [msg [_ E]]]|[[_ [tasks [_ [_ E]]]]
                               |[Hne [tasks [task [Eg [Hf E]]]]]]]];
    rewrite E; cbn.
  - left. reflexivity.
  - right. left. reflexivity.
  - right. left. reflexivity.
  - right. right. exists tasks, task.
    split; [exact Hne|]. split; [exact Eg|]. split; [exact Hf|].
    destruct (client_closeTask (h ++ [GetTasks]) (task_id task));
      cbn; rewrite <- app_assoc; reflexivity.
Qed.

(** X19. When the service lists the tasks and accepts the closing, the
    first task whose content mentions the name is closed and named in the
    answer. *)
Theorem completeTask_first_match (name : jsstring) (h : list Request)
        (tasks : list Task) (task : Task) (ok : bool) :
  toLowerCase (trim name) <> [] ->
  client_getTasks h = Fulfilled tasks ->
  first_such (task_mentions toLowerCase name) tasks task ->
  client_closeTask (h ++ [GetTasks]) (task_id task) = Fulfilled ok ->
  completeTask toLowerCase client_getTasks client_closeTask name h
  = (Fulfilled (lit "Completed task: " ++ QUOTE ++ task_content task ++ QUOTE),
     h ++ [GetTasks; CloseTask (task_id task)]).
Proof.
  intros Hne Eg Hf Ec. unfold completeTask.
  rewrite (findTaskByName_first name h tasks task Hne Eg Hf), Ec.
  rewrite <- app_assoc. reflexivity.
Qed.

(** X20. A name that is blank once trimmed and lowercased completes
    nothing and asks the service nothing; a name no task mentions
    completes nothing either. The answer quotes the name as given. *)
Theorem completeTask_not_found (name : jsstring) (h : list Request) :
  (toLowerCase (trim name) = [] ->
   completeTask toLowerCase client_getTasks client_closeTask name h
   = (Fulfilled (lit "Task not found: " ++ QUOTE ++ name ++ QUOTE ++ lit "."),
      h))
  /\ (forall tasks,
        toLowerCase (trim name) <> [] ->
        client_getTasks h = Fulfilled tasks ->
        (forall t, In t tasks -> ~ task_mentions toLowerCase name t) ->
        completeTask toLowerCase client_getTasks client_closeTask name h
        = (Fulfilled (lit "Task not found: " ++ QUOTE ++ name ++ QUOTE
                      ++ lit "."),
           h ++ [GetTasks])).
Proof.
  split.
  - intros El. unfold completeTask, findTaskByName. rewrite El. reflexivity.
  - intros tasks Hne Eg Hno. unfold completeTask, findTaskByName.
    destruct (toLowerCase (trim name)) as [|c lower] eqn:El; [congruence|].
    cbn [truthy negb]. rewrite Eg. rewrite find_absent; [reflexivity|].
    intros y Hy. rewrite <- El.
    apply (bool_false_iff _ _ (task_test_spec name y)). apply Hno. exact Hy.
Qed.

(** The loop over the subtask strings: a prefix of them is requested, in
    order and trimmed; the whole list when the loop is not rejected. *)
Lemma add_subtasks_trace (parentId : jsstring) (l : list jsstring) :
  forall created h,
  exists k,
    k <= length l
    /\ snd (add_subtasks client_createSubtask parentId l created h)
       = h ++ subtask_requests parentId (firstn k l)
    /\ match fst (add_subtasks client_createSubtask parentId l created h) with
       | Fulfilled out => k = length l /\ length out = length created + length l
       | Rejected _ => k < S (length l) /\ 0 < k
       end.
Proof.
  induction l as [|c l IH]; intros created h.
  - exists 0. cbn. rewrite app_nil_r. repeat split; lia.
  - cbn [add_subtasks].
    destruct (client_createSubtask h parentId (trim c)) as [t|msg].
    + destruct (IH (created ++ [task_content t])
                   (h ++ [CreateSubtask parentId (trim c)]))
        as [k [Hk [Et Hr]]].
      exists (S k). split; [simpl; lia|]. split.
      * rewrite Et. rewrite <- app_assoc. reflexivity.
      * destruct (fst (add_subtasks client_createSubtask parentId l
                         (created ++ [task_content t])
                         (h ++ [CreateSubtask parentId (trim c)]))).
        -- destruct Hr as [Hr1 Hr2]. rewrite length_app in Hr2.
           simpl in *. lia.
        -- simpl. lia.
    + exists 1. cbn. repeat split; lia.
Qed.

(** X21. Adding subtasks asks for them in the order given, each trimmed,
    under the first task whose content mentions the parent name; it stops
    at the first one the service refuses, and only then is the call
    rejected after the parent was found. *)
Theorem createSubtasks_calls (name : jsstring) (l : list jsstring)
        (h : list Request) :
  let r := createSubtasks toLowerCase client_getTasks client_createSubtask
             name l h in
  snd r = h
  \/ snd r = h ++ [GetTasks]
  \/ exists tasks parent k,
       toLowerCase (trim name) <> []
       /\ client_getTasks h = Fulfilled tasks
       /\ first_such (task_mentions toLowerCase name) tasks parent
       /\ k <= length l
       /\ snd r = h ++ GetTasks :: subtask_requests (task_id parent) (firstn k l)
       /\ match fst r with
          | Fulfilled _ => k = length l
          | Rejected _ => 0 < k
          end.
Proof.
  unfold createSubtasks.
  destruct (findTaskByName_cases name h)
    as [[_ E]|[[_ [msg [_ E]]]|[[_ [tasks [_ [_ E]]]]
                               |[Hne [tasks [parent [Eg [Hf E]]]]]]]];
    rewrite E; cbn.
  - left. reflexivity.
  - right. left. reflexivity.
  - right. left. reflexivity.
  - right. right.
    destruct (add_subtasks_trace (task_id parent) l [] (h ++ [GetTasks]))
      as [k [Hk [Et Hr]]].
    exists tasks, parent, k.
    split; [exact Hne|]. split; [exact Eg|]. split; [exact Hf|].
    split; [exact Hk|].
    destruct (add_subtasks client_createSubtask (task_id parent) l []
                (h ++ [GetTasks])) as [[out|msg] h'] eqn:Ea;
      cbn in *; subst h'; rewrite <- app_assoc.
    + split; [reflexivity|]. apply Hr.
    + split; [reflexivity|]. apply Hr.
Qed.

Lemma add_subtasks_echo (parentId : jsstring) (l : list jsstring) :
  (forall h c, exists id,
      client_createSubtask h parentId c
      = Fulfilled {| task_id := id; task_content := c |}) ->
  forall created h,
    add_subtasks client_createSubtask parentId l created h
    = (Fulfilled (created ++ map trim l),
       h ++ subtask_requests parentId l).
Proof.
  intros Hecho. induction l as [|c l IH]; intros created h.
  - cbn. rewrite !app_nil_r. reflexivity.
  - cbn [add_subtasks]. destruct (Hecho h (trim c)) as [id E]. rewrite E.
    cbn [task_content]. rewrite IH. cbn. rewrite <- !app_assoc. reflexivity.
Qed.

(** X22. With a service that creates every subtask with the content it is
    given, the answer counts one subtask per string, blank strings
    included, and lists the trimmed strings under the content of the
    parent found. *)
Theorem createSubtasks_answer (name : jsstring) (l : list jsstring)
        (h : list Request) (tasks : list Task) (parent : Task) :
  toLowerCase (trim name) <> [] ->
  client_getTasks h = Fulfilled tasks ->
  first_such (task_mentions toLowerCase name) tasks parent ->
  (forall h c, exists id,
      client_createSubtask h (task_id parent) c
      = Fulfilled {| task_id := id; task_content := c |}) ->
  createSubtasks toLowerCase client_getTasks client_createSubtask name l h
  = (Fulfilled (lit "Added " ++ count_text (length l)
                ++ lit " subtask(s) to " ++ QUOTE ++ task_content parent
                ++ QUOTE ++ lit ": " ++ join (lit "; ") (map trim l)),
     h ++ GetTasks :: subtask_requests (task_id parent) l).
Proof.
  intros Hne Eg Hf Hecho. unfold createSubtasks.
  rewrite (findTaskByName_first name h tasks parent Hne Eg Hf).
  rewrite (add_subtasks_echo (task_id parent) l Hecho).
  cbn [app]. rewrite length_map, <- app_assoc. reflexivity.
Qed.

End TaskToolFacts.

Lemma report_first_of_three :
  first_such (task_mentions ascii_toLowerCase (lit " report ")) three_tasks
    {| task_id := lit "t-10"; task_content := lit "Write the report" |}.
Proof.
  exists [], (tl three_tasks). split; [reflexivity|]. split.
  - apply task_test_spec. vm_compute. reflexivity.
  - intros y [].
Qed.

Lemma completeTask_first_match_witness :
  ascii_toLowerCase (trim (lit " report ")) <> []
  /\ completeTask ascii_toLowerCase three_tasks_client any_closeTask
       (lit " report ") []
     = (Fulfilled (lit "Completed task: " ++ QUOTE ++ lit "Write the report"
                   ++ QUOTE),
        [] ++ [GetTasks; CloseTask (lit "t-10")]).
Proof.
  assert (Hne : ascii_toLowerCase (trim (lit " report ")) <> [])
    by (vm_compute; discriminate).
  split; [exact Hne|].
  exact (completeTask_first_match ascii_toLowerCase three_tasks_client
           any_closeTask (lit " report ") [] three_tasks
           {| task_id := lit "t-10"; task_content := lit "Write the report" |}
           true Hne eq_refl report_first_of_three eq_refl).
Defined.

Lemma completeTask_not_found_witness :
  ascii_toLowerCase (trim (lit "   ")) = []
  /\ completeTask ascii_toLowerCase three_tasks_client any_closeTask
       (lit "   ") []
     = (Fulfilled (lit "Task not found: " ++ QUOTE ++ lit "   " ++ QUOTE
                   ++ lit "."),
        []).
Proof.
  split; [reflexivity|].
  exact (proj1 (completeTask_not_found ascii_toLowerCase three_tasks_client
                  any_closeTask (lit "   ") []) eq_refl).
Defined.

Lemma createSubtasks_answer_witness :
  ascii_toLowerCase (trim (lit " report ")) <> []
  /\ createSubtasks ascii_toLowerCase three_tasks_client any_createSubtask
       (lit " report ") [lit "  outline "; lit " "; lit "figures"] []
     = (Fulfilled (lit "Added 3 subtask(s) to " ++ QUOTE
                   ++ lit "Write the report" ++ QUOTE
                   ++ lit ": outline; ; figures"),
        [ GetTasks;
          CreateSubtask (lit "t-10") (lit "outline");
          CreateSubtask (lit "t-10") [];
          CreateSubtask (lit "t-10") (lit "figures") ]).
Proof.
  assert (Hne : ascii_toLowerCase (trim (lit " report ")) <> [])
    by (vm_compute; discriminate).
  split; [exact Hne|].
  exact (createSubtasks_answer ascii_toLowerCase three_tasks_client
           any_createSubtask (lit " report ")
           [lit "  outline "; lit " "; lit "figures"] [] three_tasks
           {| task_id := lit "t-10"; task_content := lit "Write the report" |}
           Hne eq_refl report_first_of_three
           (fun h c => ex_intro _ (lit "t-2") eq_refl)).
Defined.

(** Three subtasks, the second refused: the first stays created, the
    third is never asked for, and the call is rejected. *)
Example createSubtasks_refused_run :
  createSubtasks ascii_toLowerCase three_tasks_client second_refused
    (lit "room") [lit "ask facilities"; lit "pick a date"; lit "send invites"]
    []
  = (Rejected (lit "quota exceeded"),
     [ GetTasks;
       CreateSubtask (lit "t-12") (lit "ask facilities");
       CreateSubtask (lit "t-12") (lit "pick a date") ]).
Proof. vm_compute. reflexivity. Qed.

(** ** The project cache of the client *)

Lemma refreshes_app (h1 h2 : list Request) :
  refreshes (h1 ++ h2) = refreshes h1 + refreshes h2.
Proof. unfold refreshes. rewrite filter_app, length_app. reflexivity. Qed.

Section ClientCacheFacts.

Variable toLowerCase : jsstring -> jsstring.
Variable api_getProjects : list Request -> settled (list ApiProject).
Variable api_getSections :
  list Request -> jsstring -> settled (list ApiSection).
Variable first_rejection : list jsstring -> jsstring.

(** Asking for the sections adds one call per project and no refresh. *)
Lemma ask_sections_trace (projects : list ApiProject) :
  forall h,
    snd (ask_sections api_getSections projects h)
    = h ++ map (fun p => ApiGetSections (api_project_id p)) projects.
Proof.
  induction projects as [|p rest IH]; intros h; cbn [ask_sections].
  - simpl. rewrite app_nil_r. reflexivity.
  - specialize (IH (h ++ [ApiGetSections (api_project_id p)])).
    destruct (ask_sections api_getSections rest
                (h ++ [ApiGetSections (api_project_id p)])) as [answers h'].
    simpl in *. rewrite IH, <- app_assoc. reflexivity.
Qed.

Lemma refreshes_sections (projects : list ApiProject) :
  refreshes (map (fun p => ApiGetSections (api_project_id p)) projects) = 0.
Proof. induction projects as [|p rest IH]; [reflexivity|exact IH]. Qed.

(** One run of [refreshCache] asks for the projects once; it fills the
    cache when it is fulfilled and leaves it alone when it is rejected. *)
Lemma refreshCache_cases (cache : Cache) (h : list Request) :
  exists r cache' h',
    refreshCache api_getProjects api_getSections first_rejection cache h
    = (r, cache', h')
    /\ refreshes h' = refreshes h + 1
    /\ match r with
       | Fulfilled _ => exists projects, cache' = Some projects
       | Rejected _ => cache' = cache
       end.
Proof.
  unfold refreshCache. destruct (api_getProjects h) as [projects|msg].
  - pose proof (ask_sections_trace projects (h ++ [ApiGetProjects])) as Ht.
    destruct (ask_sections api_getSections projects (h ++ [ApiGetProjects]))
      as [answers h'].
    simpl in Ht. subst h'.
    assert (Hn : refreshes
                   ((h ++ [ApiGetProjects])
                    ++ map (fun p => ApiGetSections (api_project_id p))
                         projects)
                 = refreshes h + 1).
    { rewrite !refreshes_app, refreshes_sections. simpl. unfold refreshes at 2.
      simpl. lia. }
    destruct (gather answers) as [withSections [|msg msgs]].
    + eexists _, _, _. split; [reflexivity|]. split; [exact Hn|].
      exists withSections. reflexivity.
    + eexists _, _, _. split; [reflexivity|]. split; [exact Hn|].
      reflexivity.
  - eexists _, _, _. split; [reflexivity|]. split.
    + rewrite refreshes_app. reflexivity.
    + reflexivity.
Qed.

(** A fulfilled [getProjects] answers what the cache then holds: the list
    it held already, at no cost, or the list of one refresh. *)
Lemma getProjects_cases (cache cache' : Cache) (h h' : list Request)
      (projects : list ProjectWithSections) :
  getProjects api_getProjects api_getSections first_rejection cache h
  = (Fulfilled projects, cache', h') ->
  cache' = Some projects
  /\ ((cache = Some projects /\ h' = h)
      \/ (cache = None /\ refreshes h' = refreshes h + 1)).
Proof.
  unfold getProjects. destruct cache as [l|].
  - intros E. injection E as E1 E2 E3. subst. split; [reflexivity|].
    left. split; reflexivity.
  - destruct (refreshCache_cases None h) as [r [c1 [h1 [E [Hn Hr]]]]].
    rewrite E. destruct r as [u|msg]; [|discriminate].
    destruct Hr as [l Hl]. subst c1.
    intros E'. injection E' as E1 E2 E3. subst. split; [reflexivity|].
    right. split; [reflexivity|exact Hn].
Qed.



(** X23. A project name that is blank once trimmed and lowercased finds
    the first project of the list [getProjects] answers, at the cost of
    that one [getProjects] alone: no call of the service when the cache
    holds a list, one refresh when it is empty. *)
Theorem findProjectByName_blank_name (name : jsstring) (cache cache' : Cache)
        (h h' : list Request) (p : ProjectWithSections)
        (rest : list ProjectWithSections) :
  toLowerCase (trim name) = [] ->
  getProjects api_getProjects api_getSections first_rejection cache h
  = (Fulfilled (p :: rest), cache', h') ->
  findProjectByName toLowerCase api_getProjects api_getSections
    first_rejection name cache h
  = (Fulfilled (Some p), cache', h')
  /\ cache' = Some (p :: rest)
  /\ match cache with
     | Some _ => h' = h
     | None => refreshes h' = refreshes h + 1
     end.
Proof.
  intros El Eg. unfold findProjectByName. rewrite Eg, El.
  cbn [find]. unfold hint_matches. rewrite includes_nothing.
  split; [reflexivity|].
  destruct (getProjects_cases cache cache' h h' (p :: rest) Eg)
    as [Ec [[E1 E2]|[E1 E2]]]; subst cache; (split; [exact Ec|]);
    assumption.
Qed.


End ClientCacheFacts.

Lemma findProjectByName_blank_name_witness :
  ascii_toLowerCase (trim (lit " ")) = []
  /\ getProjects two_api_projects inbox_sections head_rejection None []
     = (Fulfilled (finance :: [with_later]), Some [finance; with_later],
        [ApiGetProjects; ApiGetSections (lit "p-fin");
         ApiGetSections (lit "p-inbox")])
  /\ findProjectByName ascii_toLowerCase two_api_projects inbox_sections
       head_rejection (lit " ") None []
     = (Fulfilled (Some finance), Some [finance; with_later],
        [ApiGetProjects; ApiGetSections (lit "p-fin");
         ApiGetSections (lit "p-inbox")])
  /\ findProjectByName ascii_toLowerCase two_api_projects inbox_sections
       head_rejection (lit " ") (Some [inbox; finance]) []
     = (Fulfilled (Some inbox), Some [inbox; finance], []).
Proof.
  assert (Eg : getProjects two_api_projects inbox_sections head_rejection
                 None []
               = (Fulfilled (finance :: [with_later]),
                  Some [finance; with_later],
                  [ApiGetProjects; ApiGetSections (lit "p-fin");
                   ApiGetSections (lit "p-inbox")]))
    by (vm_compute; reflexivity).
  split; [reflexivity|]. split; [exact Eg|]. split.
  - exact (proj1 (findProjectByName_blank_name ascii_toLowerCase
                    two_api_projects inbox_sections head_rejection (lit " ")
                    None _ [] _ finance [with_later] eq_refl Eg)).
  - exact (proj1 (findProjectByName_blank_name ascii_toLowerCase
                    two_api_projects inbox_sections head_rejection (lit " ")
                    (Some [inbox; finance]) _ [] _ inbox [finance] eq_refl
                    eq_refl)).
Defined.


(** A cold cache and a name no project bears: the service is asked for
    the projects twice, once by [getProjects] and once by the search. *)
Example findProjectByName_cold_miss_run :
  findProjectByName ascii_toLowerCase two_api_projects inbox_sections
    head_rejection (lit "marketing") None []
  = (Fulfilled None, Some [finance; with_later],
     [ApiGetProjects; ApiGetSections (lit "p-fin");
      ApiGetSections (lit "p-inbox");
      ApiGetProjects; ApiGetSections (lit "p-fin");
      ApiGetSections (lit "p-inbox")]).
Proof. vm_compute. reflexivity. Qed.
